(** * 2DSceneRelighting: the skip-connection autoencoder of [models/swapModels.py]

    A shallow embedding of the encoder / latent codec / decoder bookkeeping:
    tensors are a [torch.Size] together with their contiguous row-major
    storage, Python exceptions are values of [exn], and the list objects
    that the encoder hands to the decoder live in a heap of references so
    that rebinding ([self.skip_connections = []]) and in-place mutation
    ([append], [+=], [pop], [l[i] = x]) are told apart.

    The numeric kernels of Conv2d / BatchNorm2d / PReLU / Sigmoid / Softplus
    / Upsample are opaque: a block is identified by the module object that
    owns its parameters and by its hyper-parameters, and only its shape
    contract is spelled out. *)

From Stdlib Require Import ZArith Lia.
From stdpp Require Import base numbers list strings gmap.

Local Open Scope Z_scope.
Local Open Scope nat_scope.

(** ** Exceptions and results *)

Inductive exn :=
  | IndexError
  | TypeError
  | ValueError
  | AttributeError
  | RuntimeError
  | KeyError (msg : string)
  | AssertionError (msg : string).

Inductive result (A : Type) :=
  | Ok (a : A)
  | Raise (e : exn).
Arguments Ok {A} a.
Arguments Raise {A} e.

Definition rbind {A B} (r : result A) (k : A -> result B) : result B :=
  match r with
  | Ok a => k a
  | Raise e => Raise e
  end.

Fixpoint rmap {A B} (f : A -> result B) (l : list A) : result (list B) :=
  match l with
  | [] => Ok []
  | a :: l' => rbind (f a) (fun b => rbind (rmap f l') (fun bs => Ok (b :: bs)))
  end.

(** ** State and exceptions

    A computation over a mutable state [S]: the state survives an
    exception, as the side effects of a Python call do. *)

Definition M (S A : Type) : Type := S -> result A * S.

Definition ret {S A} (a : A) : M S A := fun s => (Ok a, s).

Definition raise {S A} (e : exn) : M S A := fun s => (Raise e, s).

Definition lift {S A} (r : result A) : M S A := fun s => (r, s).

Definition bind {S A B} (m : M S A) (k : A -> M S B) : M S B :=
  fun s =>
    match m s with
    | (Ok a, s') => k a s'
    | (Raise e, s') => (Raise e, s')
    end.

Declare Scope py_scope.
Delimit Scope py_scope with py.
Notation "x <- m ;; k" := (bind m (fun x => k))
  (at level 100, m at next level, right associativity) : py_scope.
Notation "m ;;; k" := (bind m (fun _ => k))
  (at level 100, right associativity) : py_scope.

(** [for b in l: a = f(a, b)] *)
Fixpoint foldM {S A B} (f : A -> B -> M S A) (l : list B) (a : A) : M S A :=
  match l with
  | [] => ret a
  | b :: l' => bind (f a b) (foldM f l')
  end.

(** [for b in l: f(b)] *)
Fixpoint forM_ {S B} (f : B -> M S unit) (l : list B) : M S unit :=
  match l with
  | [] => ret tt
  | b :: l' => bind (f b) (fun _ => forM_ f l')
  end.

(** ** Modules that own parameters

    One constructor per [nn.Sequential] object built in the constructors
    of the source.  Two blocks with the same name are the same Python
    object and therefore share their parameters. *)

Inductive ModuleName :=
  | image_encoder_conv1
  | image_encoder_conv2
  | enc_double_conv1 (i : nat)
  | enc_double_conv2 (i : nat)
  | enc_bottleneck_single_conv
  | weighted_pool_conv
  | tile_encode
  | dec_bottleneck_encode
  | dec_bottleneck_initial_conv
  | dec_bottleneck_convs (i : nat)
  | dec_bottleneck_out_conv
  | dec_double_conv1 (i : nat)
  | dec_double_conv2 (i : nat)
  | output_block.

(** [nn.Sequential([nn.Upsample(scale_factor=2)], nn.Conv2d(in, out, k,
    stride, padding), ...)]. *)
Record Block := {
  name : ModuleName;
  in_channels : nat;
  out_channels : nat;
  kernel_size : nat;
  stride : nat;
  padding : nat;
  upsample : bool
}.

#[export] Instance ModuleName_eq_dec : EqDecision ModuleName.
Proof. solve_decision. Defined.

#[export] Instance Block_eq_dec : EqDecision Block.
Proof. solve_decision. Defined.

Definition conv_block (m : ModuleName) (cin cout k s p : nat) : Block :=
  {| name := m; in_channels := cin; out_channels := cout;
     kernel_size := k; stride := s; padding := p; upsample := false |}.

Definition up_conv_block (m : ModuleName) (cin cout k s p : nat) : Block :=
  {| name := m; in_channels := cin; out_channels := cout;
     kernel_size := k; stride := s; padding := p; upsample := true |}.

(** Output length of a convolution along one spatial axis. *)
Definition conv_out (h k s p : nat) : nat := (h + 2 * p - k) / s + 1.

Definition block_in_extent (b : Block) (h : nat) : nat :=
  if upsample b then 2 * h else h.

(** ** The opaque numerics *)

Class Numerics := {
  elt : Type;
  ezero : elt;
  eadd : elt -> elt -> elt;
  emul : elt -> elt -> elt;
  (** values computed by a block from the size and storage of its input *)
  kernel : Block -> list nat -> list elt -> list elt
}.

Section Model.
Context {NUM : Numerics}.

(** ** Tensors *)

Record Tensor := {
  size : list nat;
  data : list elt
}.

Definition numel (sz : list nat) : nat := foldr Nat.mul 1 sz.

Definition contiguous (t : Tensor) : Prop :=
  length (data t) = numel (size t).

(** [EMPTY_TENSOR = torch.Tensor()]: one dimension of length zero. *)
Definition EMPTY_TENSOR : Tensor := {| size := [0]; data := [] |}.

(** Dimension arguments wrap around once, as everywhere in torch. *)
Definition wrap_dim (ndim : nat) (d : Z) : result nat :=
  if ((- Z.of_nat ndim <=? d) && (d <? Z.of_nat ndim))%Z
  then Ok (Z.to_nat (if (d <? 0)%Z then d + Z.of_nat ndim else d)%Z)
  else Raise IndexError.

Definition tensor_size (t : Tensor) (d : Z) : result nat :=
  rbind (wrap_dim (length (size t)) d) (fun i => Ok (size t !!! i)).

(** Row-major storage seen along dimension [d]: [outer] blocks, each made of
    [size[d]] slices of [inner] elements. *)
Definition outer (sz : list nat) (d : nat) : nat := numel (take d sz).
Definition inner (sz : list nat) (d : nat) : nat := numel (drop (S d) sz).

Fixpoint blocks {A} (k n : nat) (l : list A) : list (list A) :=
  match k with
  | O => []
  | S k' => take n l :: blocks k' n (drop n l)
  end.

(** [tensor.narrow(dim, start, length)].  A negative [start] is rejected
    here; [size_splits] only produces one after a negative length, which
    is rejected first. *)
Definition torch_narrow (t : Tensor) (dim start len : Z) : result Tensor :=
  rbind (wrap_dim (length (size t)) dim) (fun d =>
    let n := size t !!! d in
    if ((start <? 0) || (len <? 0) || (Z.of_nat n <? start + len))%Z
    then Raise RuntimeError
    else
      let i := inner (size t) d in
      let s := Z.to_nat start in
      let l := Z.to_nat len in
      Ok {| size := <[d := l]> (size t);
            data := concat (map (fun b => take (l * i) (drop (s * i) b))
                                (blocks (outer (size t) d) (n * i) (data t))) |}).

(** [torch.cat] skips one-dimensional empty tensors. *)
Definition legacy_empty (t : Tensor) : bool := bool_decide (size t = [0]).

Definition same_except (d : nat) (a b : list nat) : bool :=
  bool_decide (<[d := 0]> a = <[d := 0]> b).

(** [torch.cat((x, y), dim)]. *)
Definition torch_cat (x y : Tensor) (dim : Z) : result Tensor :=
  if legacy_empty x then Ok y
  else if legacy_empty y then Ok x
  else
    rbind (wrap_dim (length (size x)) dim) (fun d =>
      if same_except d (size x) (size y) then
        let i := inner (size x) d in
        let nx := size x !!! d in
        let ny := size y !!! d in
        Ok {| size := <[d := nx + ny]> (size x);
              data := concat (zip_with app
                                (blocks (outer (size x) d) (nx * i) (data x))
                                (blocks (outer (size x) d) (ny * i) (data y))) |}
      else Raise RuntimeError).

(** ** [size_splits] *)

(** [torch.cumsum(torch.Tensor([0] + split_sizes), dim=0)[:-1]]: the running
    sums, the total dropped.  The source holds the sizes, their sum and
    their running sums as float32 values; float32 arithmetic is exact, in
    whatever order the library adds, as long as the extent and the sum of
    the magnitudes of the sizes do not exceed [2^24], and this is the
    domain modelled here: the theorems that say which chunks [size_splits]
    returns for sizes that are not fixed are stated within that bound. *)
Fixpoint cumsum_from (acc : Z) (l : list Z) : list Z :=
  match l with
  | [] => []
  | x :: l' => acc :: cumsum_from (acc + x)%Z l'
  end.

Definition sumZ (l : list Z) : Z := foldr Z.add 0%Z l.

Definition size_splits (tensor : Tensor) (split_sizes : list Z) (dim : Z)
  : result (list Tensor) :=
  let dim := if (dim <? 0)%Z then (dim + Z.of_nat (length (size tensor)))%Z else dim in
  rbind (tensor_size tensor dim) (fun dim_size =>
    if negb (Z.of_nat dim_size =? sumZ split_sizes)%Z
    then Raise (KeyError "Sum of split sizes exceeds tensor dim")
    else
      let splits := cumsum_from 0 split_sizes in
      rmap (fun '(start, length) => torch_narrow tensor dim start length)
           (zip splits split_sizes)).

(** ** The channel-split codec *)

Definition AnOtherSwapNetSplitter_forward (latent : Tensor)
  : result (option Tensor * Tensor) :=
  rbind (size_splits latent [3; 509]%Z 1) (fun parts =>
    match parts with
    | [light_latent; scene_latent] => Ok (Some scene_latent, light_latent)
    | _ => Raise ValueError
    end).

Definition AnOtherSwapNetAssembler_forward (scene_latent : option Tensor)
    (light_latent : Tensor) : result Tensor :=
  match scene_latent with
  | Some scene_latent => torch_cat light_latent scene_latent 1
  | None => Raise TypeError
  end.


(** ** Blocks: shape contract around the opaque kernel

    The contract is that of a block in evaluation mode: the channel count
    and the kernel extent of its convolution.  In training mode
    [BatchNorm2d] requires in addition that its input holds more than one
    value per channel ([N*H*W > 1], else [ValueError]); this is not part of
    [apply_block].  The numbered theorems that state that a pass returns on
    every input of some shape ask for it as a hypothesis on the shape, so
    that they hold in both modes; the auxiliary lemmas and the runs on
    concrete small inputs are about evaluation mode. *)

Definition apply_block (b : Block) (x : Tensor) : result Tensor :=
  match size x with
  | [n; c; h; w] =>
      let h' := block_in_extent b h in
      let w' := block_in_extent b w in
      if bool_decide (c = in_channels b)
         && bool_decide (kernel_size b <= h' + 2 * padding b)
         && bool_decide (kernel_size b <= w' + 2 * padding b)
      then Ok {| size := [n; out_channels b;
                          conv_out h' (kernel_size b) (stride b) (padding b);
                          conv_out w' (kernel_size b) (stride b) (padding b)];
                 data := kernel b (size x) (data x) |}
      else Raise RuntimeError
  | _ => Raise RuntimeError
  end.

(** ** The heap of Python list objects *)

Abbreviation loc := nat.

(** The [SkipConnectionProvider] objects of one network. *)
Inductive Provider :=
  | the_encoder
  | the_image_encoder
  | the_bottleneck
  | the_double_conv (i : nat).

Definition provider_code (p : Provider) : nat :=
  match p with
  | the_encoder => 0
  | the_image_encoder => 1
  | the_bottleneck => 2
  | the_double_conv i => 3 + i
  end.

Definition provider_of_code (n : nat) : Provider :=
  match n with
  | 0 => the_encoder
  | 1 => the_image_encoder
  | 2 => the_bottleneck
  | S (S (S i)) => the_double_conv i
  end.

#[export] Instance Provider_eq_dec : EqDecision Provider.
Proof. solve_decision. Defined.

#[export] Instance Provider_countable : Countable Provider.
Proof.
  apply (inj_countable' provider_code provider_of_code).
  intros []; reflexivity.
Defined.

(** [skip_connections] maps each provider to the list object its
    [self.skip_connections] attribute refers to. *)
Record World := {
  skip_connections : gmap Provider loc;
  heap : gmap loc (list Tensor);
  next_loc : loc
}.

Definition set_heap (st : World) (r : loc) (l : list Tensor) : World :=
  {| skip_connections := skip_connections st;
     heap := <[r := l]> (heap st);
     next_loc := next_loc st |}.

(** a list display [[...]]: a new object *)
Definition new_list (l : list Tensor) : M World loc :=
  fun w => (Ok (next_loc w),
            {| skip_connections := skip_connections w;
               heap := <[next_loc w := l]> (heap w);
               next_loc := S (next_loc w) |}).

Definition set_attr (p : Provider) (r : loc) : M World unit :=
  fun w => (Ok tt,
            {| skip_connections := <[p := r]> (skip_connections w);
               heap := heap w;
               next_loc := next_loc w |}).

Definition get_attr (p : Provider) : M World loc :=
  fun w => match skip_connections w !! p with
           | Some r => (Ok r, w)
           | None => (Raise AttributeError, w)
           end.

Definition read_list (r : loc) : M World (list Tensor) :=
  fun w => match heap w !! r with
           | Some l => (Ok l, w)
           | None => (Raise RuntimeError, w)
           end.

Definition write_list (r : loc) (l : list Tensor) : M World unit :=
  fun w => (Ok tt, set_heap w r l).

Local Open Scope py_scope.

(** [l.append(x)] *)
Definition list_append (r : loc) (x : Tensor) : M World unit :=
  l <- read_list r ;; write_list r (l ++ [x]).

(** [l += l'], in place *)
Definition list_iadd (r r' : loc) : M World unit :=
  l <- read_list r ;; l' <- read_list r' ;; write_list r (l ++ l').

(** [l[i] = x] with Python's index rule *)
Definition list_setitem (r : loc) (i : Z) (x : Tensor) : M World unit :=
  l <- read_list r ;;
  let n := Z.of_nat (length l) in
  let j := (if i <? 0 then i + n else i)%Z in
  if ((0 <=? j) && (j <? n))%Z
  then write_list r (<[Z.to_nat j := x]> l)
  else raise IndexError.

(** [l.pop()] on the list the decoder was handed *)
Definition list_pop : M (list Tensor) Tensor :=
  fun l => match last l with
           | Some x => (Ok x, removelast l)
           | None => (Raise IndexError, l)
           end.

(** Call [m] on the list object [r]: its mutations land in the heap. *)
Definition with_list {A} (r : loc) (m : M (list Tensor) A) : M World A :=
  fun w => match heap w !! r with
           | Some l =>
               let '(a, l') := m l in (a, set_heap w r l')
           | None => (Raise RuntimeError, w)
           end.

(** ** Encoder *)

(** [SkipConnectionProvider._reset_skip_connections]: rebinds the attribute
    to a fresh list; the old list object is left as it is. *)
Definition reset_skip_connections (self : Provider) : M World unit :=
  r <- new_list [] ;; set_attr self r.

(** [SkipConnectionProvider.get_skip_connections]: the reference, no copy. *)
Definition get_skip_connections (self : Provider) : M World loc :=
  get_attr self.

(** [self.skip_connections.append(x)] *)
Definition push_skip (self : Provider) (x : Tensor) : M World unit :=
  r <- get_attr self ;; list_append r x.

(** [self.skip_connections += other.get_skip_connections()] *)
Definition extend_skip (self other : Provider) : M World unit :=
  r <- get_attr self ;;
  r' <- get_skip_connections other ;;
  list_iadd r r' ;;;
  set_attr self r.

Record ImageEncoding := {
  ImageEncoding_conv1 : Block;
  ImageEncoding_conv2 : Block
}.

Definition ImageEncoding_init (in_channels enc_channels out_channels : nat)
  : ImageEncoding :=
  {| ImageEncoding_conv1 :=
       conv_block image_encoder_conv1 in_channels (enc_channels - in_channels) 7 1 3;
     ImageEncoding_conv2 :=
       conv_block image_encoder_conv2 enc_channels out_channels 3 2 1 |}.

Definition ImageEncoding_forward (self : ImageEncoding) (image : Tensor)
  : M World Tensor :=
  x <- lift (apply_block (ImageEncoding_conv1 self) image) ;;
  encoded_image <- lift (torch_cat x image 1) ;;
  r <- new_list [encoded_image] ;;
  set_attr the_image_encoder r ;;;
  lift (apply_block (ImageEncoding_conv2 self) encoded_image).

Record EncDoubleConv := {
  EncDoubleConv_index : nat;
  EncDoubleConv_conv1 : Block;
  EncDoubleConv_conv2 : Block
}.

Definition EncDoubleConv_init (i in_channels out_channels : nat) : EncDoubleConv :=
  {| EncDoubleConv_index := i;
     EncDoubleConv_conv1 := conv_block (enc_double_conv1 i) in_channels in_channels 3 1 1;
     EncDoubleConv_conv2 := conv_block (enc_double_conv2 i) in_channels out_channels 3 2 1 |}.

Definition EncDoubleConv_forward (self : EncDoubleConv) (x : Tensor)
  : M World Tensor :=
  let me := the_double_conv (EncDoubleConv_index self) in
  reset_skip_connections me ;;;
  push_skip me x ;;;
  x <- lift (apply_block (EncDoubleConv_conv1 self) x) ;;
  push_skip me x ;;;
  lift (apply_block (EncDoubleConv_conv2 self) x).

Record EncBottleneckConv := {
  convolutions : list Block
}.

(** [single_conv * (depth - 1)]: the same module object, [depth - 1] times
    (no times at all when [depth - 1] is not positive). *)
Definition build_bottleneck_convolutions (in_channels : nat) (depth : Z)
  : list Block :=
  let single_conv := conv_block enc_bottleneck_single_conv in_channels in_channels 3 1 1 in
  repeat single_conv (Z.to_nat (depth - 1)).

Definition EncBottleneckConv_init (in_channels : nat) (depth : Z) : EncBottleneckConv :=
  {| convolutions := build_bottleneck_convolutions in_channels depth |}.

Definition EncBottleneckConv_forward (self : EncBottleneckConv) (x : Tensor)
  : M World Tensor :=
  reset_skip_connections the_bottleneck ;;;
  foldM (fun x module =>
           push_skip the_bottleneck x ;;;
           lift (apply_block module x))
        (convolutions self) x.

Record Encoder := {
  Encoder_disabled_skip_connections : list Z;
  image_encoder : ImageEncoding;
  Encoder_double_convolutions : list EncDoubleConv;
  Encoder_bottleneck : EncBottleneckConv;
  n_skip_connections : Z
}.

(** [range(n)] *)
Definition range (n : Z) : list nat := seq 0 (Z.to_nat n).

Definition build_encoder_convolutions_block (n : Z) : list EncDoubleConv :=
  map (fun i => EncDoubleConv_init i (64 * 2 ^ i) (64 * 2 ^ (i + 1))) (range n).

Definition Encoder_init (n_double_conv bottleneck_depth : Z)
    (disabled_skip_connections : option (list Z)) : Encoder :=
  {| Encoder_disabled_skip_connections := default [] disabled_skip_connections;
     image_encoder := ImageEncoding_init 3 32 64;
     Encoder_double_convolutions := build_encoder_convolutions_block n_double_conv;
     Encoder_bottleneck := EncBottleneckConv_init 512 bottleneck_depth;
     n_skip_connections := (1 + n_double_conv * 2 + (bottleneck_depth - 1))%Z |}.

Definition Encoder_forward (self : Encoder) (image : Tensor) : M World Tensor :=
  reset_skip_connections the_encoder ;;;
  x <- ImageEncoding_forward (image_encoder self) image ;;
  extend_skip the_encoder the_image_encoder ;;;
  x <- foldM (fun x double_conv =>
                x <- EncDoubleConv_forward double_conv x ;;
                extend_skip the_encoder (the_double_conv (EncDoubleConv_index double_conv)) ;;;
                ret x)
             (Encoder_double_convolutions self) x ;;
  x <- EncBottleneckConv_forward (Encoder_bottleneck self) x ;;
  extend_skip the_encoder the_bottleneck ;;;
  ret x.

Definition Encoder_get_skip_connections (self : Encoder) : M World loc :=
  forM_ (fun i => r <- get_attr the_encoder ;; list_setitem r i EMPTY_TENSOR)
        (Encoder_disabled_skip_connections self) ;;;
  get_attr the_encoder.

Definition Encoder_get_number_of_possible_skip_connections (self : Encoder) : Z :=
  n_skip_connections self.

(** ** The weighted-pool / tile codec *)

(** [x.repeat((1, k, 1, 1))] *)
Definition repeat_channels (k : nat) (x : Tensor) : result Tensor :=
  match size x with
  | [n; c; h; w] =>
      Ok {| size := [n; k * c; h; w];
            data := concat (map (fun b => concat (repeat b k))
                                (blocks n (c * h * w) (data x))) |}
  | _ => Raise RuntimeError
  end.

(** [x.repeat((1, 1, s, s))] *)
Definition repeat_spatial (s : nat) (x : Tensor) : result Tensor :=
  match size x with
  | [n; c; h; w] =>
      let widen row := concat (repeat row s) in
      let tile plane := concat (repeat (concat (map widen (blocks h w plane))) s) in
      Ok {| size := [n; c; s * h; s * w];
            data := concat (map tile (blocks (n * c) (h * w) (data x))) |}
  | _ => Raise RuntimeError
  end.

(** [x * y] on operands of one size (the source never broadcasts here) *)
Definition tensor_mul (x y : Tensor) : result Tensor :=
  if bool_decide (size x = size y)
  then Ok {| size := size x; data := zip_with emul (data x) (data y) |}
  else Raise RuntimeError.

(** [x.sum(dim=(2, 3), keepdim=True)] *)
Definition sum_spatial (x : Tensor) : result Tensor :=
  match size x with
  | [n; c; h; w] =>
      Ok {| size := [n; c; 1; 1];
            data := map (foldr eadd ezero) (blocks (n * c) (h * w) (data x)) |}
  | _ => Raise RuntimeError
  end.

Record WeightedPooling := {
  WeightedPooling_conv : Block
}.

Definition WeightedPooling_init (in_channels envmap_h envmap_w : nat)
  : result WeightedPooling :=
  let expected_channels := envmap_h * envmap_w in
  if bool_decide (in_channels = expected_channels)
  then
    let out_channels := 4 * in_channels in
    Ok {| WeightedPooling_conv :=
            conv_block weighted_pool_conv in_channels out_channels 3 1 1 |}
  else Raise (AssertionError "WeightedPooling input has unexpected channels").

Definition WeightedPooling_forward (self : WeightedPooling) (x : Tensor)
  : result Tensor :=
  rbind (apply_block (WeightedPooling_conv self) x) (fun x =>
  rbind (tensor_size x 1) (fun channels =>
  let split_point := 3 * (channels / 4) in
  rbind (torch_narrow x 1 0 (Z.of_nat split_point)) (fun envmap_predictions =>
  rbind (torch_narrow x 1 (Z.of_nat split_point) (Z.of_nat (channels - split_point)))
        (fun confidence =>
  rbind (repeat_channels 3 confidence) (fun confidence3 =>
  rbind (tensor_mul envmap_predictions confidence3) sum_spatial))))).

Record Tiling := {
  Tiling_size : nat;
  Tiling_encode : Block
}.

Definition Tiling_init (size in_channels out_channels : nat) : Tiling :=
  {| Tiling_size := size;
     Tiling_encode := conv_block tile_encode in_channels out_channels 3 1 1 |}.

Definition Tiling_forward (self : Tiling) (x : Tensor) : result Tensor :=
  rbind (repeat_spatial (Tiling_size self) x) (apply_block (Tiling_encode self)).

Definition IlluminationSwapNetSplitter_forward (weighted_pool : WeightedPooling)
    (latent : Tensor) : result (option Tensor * Tensor) :=
  rbind (WeightedPooling_forward weighted_pool latent) (fun pred_env_map =>
    let scene_latent := None in
    let light_latent := pred_env_map in
    Ok (scene_latent, light_latent)).

Definition IlluminationSwapNetAssembler_forward (tile : Tiling)
    (scene_latent : option Tensor) (light_latent : Tensor) : result Tensor :=
  Tiling_forward tile light_latent.

(** ** Decoder *)

(** [SkipConnectionReceiver.__init__]: the disabled indices of this
    receiver, relative to its first pop. *)
Definition SkipConnectionReceiver_init (disabled_skip_connections : option (list Z))
    (start : Z) : list Z :=
  match disabled_skip_connections with
  | Some d => map (fun i => i - start)%Z d
  | None => []
  end.

Definition channels_in_layer (disabled : list Z) (layer_number : Z)
    (layer_channels skip_connection_channels : nat) : nat :=
  if existsb (Z.eqb layer_number) disabled
  then layer_channels
  else layer_channels + skip_connection_channels.

Definition channel_concat (x y : Tensor) : result Tensor := torch_cat x y 1.

Local Open Scope py_scope.

Record DecBottleneckConv := {
  DecBottleneckConv_depth : Z;
  DecBottleneckConv_encode : Block;
  initial_conv : Block;
  convs : list Block;
  out_conv : Block
}.

Definition DecBottleneckConv_init (in_channels envmap_h envmap_w : nat) (depth : Z)
    (disabled_skip_connections : option (list Z)) : result DecBottleneckConv :=
  let expected_channels := envmap_h * envmap_w in
  if negb (2 <=? depth)%Z
  then Raise (AssertionError "Depth should be not smaller than 3")
  else if negb (bool_decide (in_channels = expected_channels))
  then Raise (AssertionError "UpBottleneck input has unexpected channels")
  else
    let disabled := SkipConnectionReceiver_init disabled_skip_connections 0 in
    let half_in_channels := in_channels / 2 in
    let initial_in_channels := channels_in_layer disabled 0 half_in_channels in_channels in
    let out_conv_in_channels :=
      channels_in_layer disabled (depth - 2) in_channels in_channels in
    Ok {| DecBottleneckConv_depth := depth;
          DecBottleneckConv_encode :=
            conv_block dec_bottleneck_encode in_channels half_in_channels 3 1 1;
          initial_conv :=
            conv_block dec_bottleneck_initial_conv initial_in_channels in_channels 3 1 1;
          convs :=
            map (fun i =>
                   let conv_in_channels :=
                     channels_in_layer disabled (Z.of_nat i + 1) in_channels in_channels in
                   conv_block (dec_bottleneck_convs i) conv_in_channels in_channels 3 1 1)
                (range (depth - 3));
          out_conv :=
            up_conv_block dec_bottleneck_out_conv out_conv_in_channels half_in_channels 3 1 1 |}.

(** [conv(self.channel_concat(x, skip_connections.pop()))] *)
Definition pop_concat_apply (conv : Block) (x : Tensor) : M (list Tensor) Tensor :=
  skip <- list_pop ;;
  c <- lift (channel_concat x skip) ;;
  lift (apply_block conv c).

Definition DecBottleneckConv_forward (self : DecBottleneckConv) (x : Tensor)
  : M (list Tensor) Tensor :=
  x <- lift (apply_block (DecBottleneckConv_encode self) x) ;;
  x <- pop_concat_apply (initial_conv self) x ;;
  x <- foldM (fun x conv => pop_concat_apply conv x) (convs self) x ;;
  pop_concat_apply (out_conv self) x.

Record DecDoubleConv := {
  DecDoubleConv_conv1 : Block;
  DecDoubleConv_conv2 : Block
}.

Definition DecDoubleConv_init (i in_channels out_channels : nat)
    (disabled_skip_connections : option (list Z)) (start : Z) : DecDoubleConv :=
  let disabled := SkipConnectionReceiver_init disabled_skip_connections start in
  let conv1_in_channels := channels_in_layer disabled 0 in_channels in_channels in
  let conv2_in_channels := channels_in_layer disabled 1 in_channels in_channels in
  {| DecDoubleConv_conv1 :=
       conv_block (dec_double_conv1 i) conv1_in_channels in_channels 3 1 1;
     DecDoubleConv_conv2 :=
       up_conv_block (dec_double_conv2 i) conv2_in_channels out_channels 3 1 1 |}.

Definition DecDoubleConv_forward (self : DecDoubleConv) (x : Tensor)
  : M (list Tensor) Tensor :=
  x <- pop_concat_apply (DecDoubleConv_conv1 self) x ;;
  pop_concat_apply (DecDoubleConv_conv2 self) x.

Record Output := {
  Output_block : Block
}.

Definition Output_init (in_channels out_channels kernel_size : nat)
    (disabled_skip_connections : option (list Z)) (start : Z) : Output :=
  let disabled := SkipConnectionReceiver_init disabled_skip_connections start in
  let output_in_channels := channels_in_layer disabled 0 in_channels in_channels in
  {| Output_block :=
       conv_block output_block output_in_channels out_channels kernel_size 1
                  (kernel_size / 2) |}.

Definition Output_forward (self : Output) (x encoded_img : Tensor) : result Tensor :=
  rbind (channel_concat x encoded_img) (apply_block (Output_block self)).

Record Decoder := {
  Decoder_bottleneck : DecBottleneckConv;
  Decoder_double_convolutions : list DecDoubleConv;
  Decoder_output : Output
}.

Definition build_decoder_convolutions_block (n : Z)
    (disabled_skip_connections : option (list Z)) (start : Z) : list DecDoubleConv :=
  map (fun i => DecDoubleConv_init i (256 / 2 ^ i) (256 / 2 ^ (i + 1))
                  disabled_skip_connections (start + 2 * Z.of_nat i)%Z)
      (range n).

Definition Decoder_init (n_double_conv bottleneck_depth : Z) (last_kernel_size : nat)
    (disabled_skip_connections : option (list Z)) : result Decoder :=
  rbind (DecBottleneckConv_init 512 16 32 bottleneck_depth disabled_skip_connections)
        (fun bottleneck =>
  let double_convs_start := (bottleneck_depth - 1)%Z in
  let double_convolutions :=
    build_decoder_convolutions_block n_double_conv disabled_skip_connections
                                     double_convs_start in
  let output_start := (double_convs_start + n_double_conv * 2)%Z in
  Ok {| Decoder_bottleneck := bottleneck;
        Decoder_double_convolutions := double_convolutions;
        Decoder_output :=
          Output_init 32 3 last_kernel_size disabled_skip_connections output_start |}).

(** The state is the list object passed as [skip_connections]. *)
Definition Decoder_forward (self : Decoder) (latent : Tensor)
  : M (list Tensor) Tensor :=
  x <- DecBottleneckConv_forward (Decoder_bottleneck self) latent ;;
  x <- foldM (fun x double_conv => DecDoubleConv_forward double_conv x)
             (Decoder_double_convolutions self) x ;;
  encoded_img <- list_pop ;;
  lift (Output_forward (Decoder_output self) x encoded_img).

(** The blocks of a decoder that consume a skip connection, in the order
    in which [Decoder_forward] reaches them. *)
Definition Decoder_layers (self : Decoder) : list Block :=
  [initial_conv (Decoder_bottleneck self)]
  ++ convs (Decoder_bottleneck self)
  ++ [out_conv (Decoder_bottleneck self)]
  ++ concat (map (fun dc => [DecDoubleConv_conv1 dc; DecDoubleConv_conv2 dc])
                 (Decoder_double_convolutions self))
  ++ [Output_block (Decoder_output self)].

(** ** SwapNet *)

(** The two-operation capability set of a latent codec. *)
Record Codec := {
  split : Tensor -> result (option Tensor * Tensor);
  assemble : option Tensor -> Tensor -> result Tensor
}.

Definition AnOtherSwapNet_codec : Codec :=
  {| split := AnOtherSwapNetSplitter_forward;
     assemble := AnOtherSwapNetAssembler_forward |}.

Definition IlluminationSwapNet_codec : result Codec :=
  rbind (WeightedPooling_init 512 16 32) (fun weighted_pool =>
    Ok {| split := IlluminationSwapNetSplitter_forward weighted_pool;
          assemble := IlluminationSwapNetAssembler_forward (Tiling_init 16 1536 512) |}).

Record SwapNet := {
  encode : Encoder;
  codec : Codec;
  decode : Decoder
}.

Definition SwapNet_init (c : Codec) (n_double_conv bottleneck_depth : Z)
    (last_kernel_size : nat) (disabled_skip_connections : option (list Z))
  : result SwapNet :=
  let disabled_skip_connections := default [] disabled_skip_connections in
  let encode := Encoder_init n_double_conv bottleneck_depth (Some disabled_skip_connections) in
  let n := Encoder_get_number_of_possible_skip_connections encode in
  let decoder_disabled_skip_connections :=
    map (fun i => (n - 1) - i)%Z disabled_skip_connections in
  rbind (Decoder_init n_double_conv bottleneck_depth last_kernel_size
                      (Some decoder_disabled_skip_connections))
        (fun decode => Ok {| encode := encode; codec := c; decode := decode |}).

Definition SwapNet_forward (self : SwapNet) (image target groundtruth : Tensor)
  : M World (Tensor * Tensor * Tensor * Tensor
             * option Tensor * option Tensor * option Tensor) :=
  image_latent <- Encoder_forward (encode self) image ;;
  image_skip_connections <- Encoder_get_skip_connections (encode self) ;;
  target_latent <- Encoder_forward (encode self) target ;;
  groundtruth_latent <- Encoder_forward (encode self) groundtruth ;;
  image_parts <- lift (split (codec self) image_latent) ;;
  let '(image_scene_latent, image_light_latent) := image_parts in
  target_parts <- lift (split (codec self) target_latent) ;;
  let '(target_scene_latent, target_light_latent) := target_parts in
  groundtruth_parts <- lift (split (codec self) groundtruth_latent) ;;
  let '(groundtruth_scene_latent, groundtruth_light_latent) := groundtruth_parts in
  swapped_latent <- lift (assemble (codec self) image_scene_latent target_light_latent) ;;
  relit_image <- with_list image_skip_connections
                           (Decoder_forward (decode self) swapped_latent) ;;
  ret (relit_image,
       image_light_latent, target_light_latent, groundtruth_light_latent,
       image_scene_latent, target_scene_latent, groundtruth_scene_latent).

Definition AnOtherSwapNet_init (last_kernel_size : nat)
    (disabled_skip_connections : option (list Z)) : result SwapNet :=
  SwapNet_init AnOtherSwapNet_codec 3 4 last_kernel_size disabled_skip_connections.

Definition GroundtruthEnvmapSwapNet_init (disabled_skip_connections : option (list Z))
  : result SwapNet :=
  rbind IlluminationSwapNet_codec (fun c =>
    SwapNet_init c 3 4 3 disabled_skip_connections).

Definition GroundtruthEnvmapSwapNet_forward (self : SwapNet)
    (image target groundtruth : Tensor) : M World (Tensor * Tensor * Tensor) :=
  image_latent <- Encoder_forward (encode self) image ;;
  image_skip_connections <- Encoder_get_skip_connections (encode self) ;;
  image_parts <- lift (split (codec self) image_latent) ;;
  let '(_, predicted_image_envmap) := image_parts in
  target_latent <- Encoder_forward (encode self) target ;;
  target_parts <- lift (split (codec self) target_latent) ;;
  let '(_, predicted_target_envmap) := target_parts in
  swapped_latent <- lift (assemble (codec self) None predicted_target_envmap) ;;
  relit_image <- with_list image_skip_connections
                           (Decoder_forward (decode self) swapped_latent) ;;
  ret (relit_image, predicted_image_envmap, predicted_target_envmap).

(** ** Reference readings

    Definitions that follow the wording of the specification, to compare the
    code with. *)

(** Apply one function [k] times, pushing the current input onto [stack]
    before each application. *)
Fixpoint iterate_pushing (f : Tensor -> result Tensor) (k : nat) (x : Tensor)
    (stack : list Tensor) : result Tensor * list Tensor :=
  match k with
  | O => (Ok x, stack)
  | S k' =>
      match f x with
      | Ok y => iterate_pushing f k' y (stack ++ [x])
      | Raise e => (Raise e, stack ++ [x])
      end
  end.

(** Run [m] on a list value [stack] taken earlier, and store what is left
    of it in the list object [r]. *)
Definition decode_snapshot {A} (r : loc) (stack : list Tensor)
    (m : M (list Tensor) A) : M World A :=
  fun st => let '(a, rest) := m stack in (a, set_heap st r rest).

(** The orchestrator as the specification words it: the image's skip stack
    is taken once, right after the image is encoded, and it alone is used by
    the one decoding step, whatever the later encoder passes do. *)
Definition SwapNet_reading (self : SwapNet) (image target groundtruth : Tensor)
  : M World (Tensor * Tensor * Tensor * Tensor
             * option Tensor * option Tensor * option Tensor) :=
  image_latent <- Encoder_forward (encode self) image ;;
  r <- Encoder_get_skip_connections (encode self) ;;
  image_skip_stack <- read_list r ;;
  target_latent <- Encoder_forward (encode self) target ;;
  groundtruth_latent <- Encoder_forward (encode self) groundtruth ;;
  image_parts <- lift (split (codec self) image_latent) ;;
  target_parts <- lift (split (codec self) target_latent) ;;
  groundtruth_parts <- lift (split (codec self) groundtruth_latent) ;;
  swapped_latent <- lift (assemble (codec self) image_parts.1 target_parts.2) ;;
  relit_image <- decode_snapshot r image_skip_stack
                                 (Decoder_forward (decode self) swapped_latent) ;;
  ret (relit_image,
       image_parts.2, target_parts.2, groundtruth_parts.2,
       image_parts.1, target_parts.1, groundtruth_parts.1).

(** The ground-truth-envmap variant as the specification words it: only
    the image and the target are encoded, the swapped latent is assembled
    from (None, target light) and decoded against the image's skip stack.
    There is no ground-truth argument. *)
Definition GroundtruthEnvmapSwapNet_reading (self : SwapNet) (image target : Tensor)
  : M World (Tensor * Tensor * Tensor) :=
  image_latent <- Encoder_forward (encode self) image ;;
  r <- Encoder_get_skip_connections (encode self) ;;
  image_skip_stack <- read_list r ;;
  image_parts <- lift (split (codec self) image_latent) ;;
  target_latent <- Encoder_forward (encode self) target ;;
  target_parts <- lift (split (codec self) target_latent) ;;
  swapped_latent <- lift (assemble (codec self) None target_parts.2) ;;
  relit_image <- decode_snapshot r image_skip_stack
                                 (Decoder_forward (decode self) swapped_latent) ;;
  ret (relit_image, image_parts.2, target_parts.2).

(** The [(layer_channels, skip_connection_channels)] arguments of the calls
    of [channels_in_layer] made by the constructors of a decoder, in the
    order in which the forward pass reaches the layers. *)
Definition Decoder_layer_channels (n_double_conv depth : Z) : list (nat * nat) :=
  [(256, 512)]
  ++ repeat (512, 512) (Z.to_nat (depth - 3))
  ++ [(512, 512)]
  ++ concat (map (fun j => [(256 / 2 ^ j, 256 / 2 ^ j); (256 / 2 ^ j, 256 / 2 ^ j)])
                 (range n_double_conv))
  ++ [(32, 32)].

(** Input channel counts along a table of layers, the [k]-th layer (counted
    from [from]) having [ch k layer_channels skip_connection_channels]. *)
Fixpoint channel_law (ch : Z -> nat -> nat -> nat) (from : Z)
    (table : list (nat * nat)) : list nat :=
  match table with
  | [] => []
  | (c, s) :: table' => ch from c s :: channel_law ch (from + 1)%Z table'
  end.

(** The layer that pops position [n - 1 - k] of a stack of [n] tensors takes
    the un-augmented channel count when that position is disabled. *)
Definition skip_channels (n : Z) (disabled : list Z) (k : Z) (c s : nat) : nat :=
  if bool_decide ((n - 1 - k)%Z ∈ disabled) then c else c + s.

(** The stack with the placeholder at every disabled position. *)
Definition with_placeholders (stack : list Tensor) (disabled : list Z) : list Tensor :=
  foldl (fun l i => <[Z.to_nat i := EMPTY_TENSOR]> l) stack disabled.

(** The decoder up to its [k]-th popping layer: the value that leaves that
    layer, and the list as the layer leaves it.  With every layer, this is
    [Decoder_forward]. *)
Definition Decoder_prefix (self : Decoder) (k : nat) (latent : Tensor)
  : M (list Tensor) Tensor :=
  x <- lift (apply_block (DecBottleneckConv_encode (Decoder_bottleneck self)) latent) ;;
  foldM (fun x conv => pop_concat_apply conv x) (take k (Decoder_layers self)) x.

(** A block but for its input channel count. *)
Definition without_in_channels (b : Block) : Block :=
  {| name := name b; in_channels := 0; out_channels := out_channels b;
     kernel_size := kernel_size b; stride := stride b; padding := padding b;
     upsample := upsample b |}.

(** ** Invariants *)

(** A decoder computation that never looks below the tensors it pops. *)
Definition framed {A} (m : M (list Tensor) A) : Prop :=
  forall stack a rest extra,
    m stack = (Ok a, rest) -> m (extra ++ stack) = (Ok a, extra ++ rest).

(** [self.skip_connections = L] on a provider, [L] a new list object. *)
Definition rebound (p : Provider) (L : list Tensor) (st : World) : World :=
  {| skip_connections := <[p := next_loc st]> (skip_connections st);
     heap := <[next_loc st := L]> (heap st);
     next_loc := S (next_loc st) |}.

(** The list objects that existed in [st] are still there, untouched. *)
Definition extends (st st' : World) : Prop :=
  next_loc st <= next_loc st'
  /\ forall r, r < next_loc st -> heap st' !! r = heap st !! r.

(** What holds all along an encoder pass started when [b] was the next free
    location and [H0] the heap: older list objects are untouched, and the
    encoder's own stack is a list object created during the pass. *)
Definition encoding_inv (b : loc) (H0 : gmap loc (list Tensor)) (st : World) : Prop :=
  b <= next_loc st
  /\ (forall r, r < b -> heap st !! r = H0 !! r)
  /\ exists r, skip_connections st !! the_encoder = Some r
               /\ b <= r < next_loc st
               /\ is_Some (heap st !! r).

Definition maintains {A} (I : World -> Prop) (m : M World A) : Prop :=
  forall st res st', I st -> m st = (res, st') -> I st'.

(** ** The encoder as a function of the image

    What each stage returns together with the tensors it pushes, and the
    stack [Encoder.forward] has built when it returns or raises: a stage
    that raises contributes nothing, since its list is appended only after
    it has returned. *)

Definition ImageEncoding_stage (self : ImageEncoding) (image : Tensor)
  : result (Tensor * list Tensor) :=
  rbind (apply_block (ImageEncoding_conv1 self) image) (fun x =>
  rbind (torch_cat x image 1) (fun encoded_image =>
  rbind (apply_block (ImageEncoding_conv2 self) encoded_image) (fun y =>
  Ok (y, [encoded_image])))).

Definition EncDoubleConv_stage (self : EncDoubleConv) (x : Tensor)
  : result (Tensor * list Tensor) :=
  rbind (apply_block (EncDoubleConv_conv1 self) x) (fun x1 =>
  rbind (apply_block (EncDoubleConv_conv2 self) x1) (fun y =>
  Ok (y, [x; x1]))).

Fixpoint bottleneck_stage (modules : list Block) (x : Tensor) (pushed : list Tensor)
  : result (Tensor * list Tensor) :=
  match modules with
  | [] => Ok (x, pushed)
  | module :: modules' =>
      rbind (apply_block module x) (fun y => bottleneck_stage modules' y (pushed ++ [x]))
  end.

Definition EncBottleneckConv_stage (self : EncBottleneckConv) (x : Tensor)
  : result (Tensor * list Tensor) :=
  bottleneck_stage (convolutions self) x [].

Fixpoint double_convolutions_trace (double_convolutions : list EncDoubleConv)
    (x : Tensor) (stack : list Tensor) : result Tensor * list Tensor :=
  match double_convolutions with
  | [] => (Ok x, stack)
  | double_conv :: rest =>
      match EncDoubleConv_stage double_conv x with
      | Ok (y, pushed) => double_convolutions_trace rest y (stack ++ pushed)
      | Raise e => (Raise e, stack)
      end
  end.

Definition Encoder_trace (self : Encoder) (image : Tensor)
  : result Tensor * list Tensor :=
  match ImageEncoding_stage (image_encoder self) image with
  | Raise e => (Raise e, [])
  | Ok (x, pushed) =>
      match double_convolutions_trace (Encoder_double_convolutions self) x pushed with
      | (Raise e, stack) => (Raise e, stack)
      | (Ok x, stack) =>
          match EncBottleneckConv_stage (Encoder_bottleneck self) x with
          | Ok (y, pushed) => (Ok y, stack ++ pushed)
          | Raise e => (Raise e, stack)
          end
      end
  end.

(** The encoder's own stack is the list object [r] with content [stack]. *)
Definition encoder_stack (st : World) (r : loc) (stack : list Tensor) : Prop :=
  skip_connections st !! the_encoder = Some r
  /\ heap st !! r = Some stack
  /\ r < next_loc st.

(** The sizes of the ten tensors the default encoder pushes for a batch of
    [n] images of [16*a] by [16*b] pixels, in the order of the pushes. *)
Definition default_skip_sizes (n a b : nat) : list (list nat) :=
  let sz c h w := [n; c; h; w] in
  [sz 32 (2 * (2 * (2 * (2 * a)))) (2 * (2 * (2 * (2 * b))));
   sz 64 (2 * (2 * (2 * a))) (2 * (2 * (2 * b)));
   sz 64 (2 * (2 * (2 * a))) (2 * (2 * (2 * b)));
   sz 128 (2 * (2 * a)) (2 * (2 * b)); sz 128 (2 * (2 * a)) (2 * (2 * b));
   sz 256 (2 * a) (2 * b); sz 256 (2 * a) (2 * b);
   sz 512 a b; sz 512 a b; sz 512 a b].

(** [l[i]] for a list of [n] elements: a negative index counts from the
    end. *)
Definition wrap_index (n : nat) (i : Z) : Z :=
  if (i <? 0)%Z then (i + Z.of_nat n)%Z else i.

(** ** [IlluminationSwapNet] *)

(** [t.view(shape)] on contiguous storage: at most one extent may be [-1]
    and is then inferred from the number of elements; the storage is
    shared. *)
Definition tensor_view (t : Tensor) (shape : list Z) : result Tensor :=
  let total := numel (size t) in
  let known := Z.to_nat (foldr Z.mul 1%Z (filter (fun d => d <> (-1)%Z) shape)) in
  if existsb (fun d => (d <? -1)%Z) shape then Raise RuntimeError
  else
    match length (filter (fun d => d = (-1)%Z) shape) with
    | 0 =>
        if bool_decide (known = total)
        then Ok {| size := map Z.to_nat shape; data := data t |}
        else Raise RuntimeError
    | 1 =>
        if bool_decide (known = 0) then Raise RuntimeError
        else if bool_decide (total mod known = 0)
        then Ok {| size := map (fun d => if bool_decide (d = (-1)%Z)
                                         then total / known else Z.to_nat d) shape;
                   data := data t |}
        else Raise RuntimeError
    | _ => Raise RuntimeError
    end.

Definition IlluminationSwapNet_init (last_kernel_size : nat)
    (disabled_skip_connections : option (list Z)) : result SwapNet :=
  rbind IlluminationSwapNet_codec (fun c =>
    SwapNet_init c 3 4 last_kernel_size disabled_skip_connections).

Definition IlluminationSwapNet_forward (self : SwapNet)
    (image target ground_truth : Tensor)
  : M World (Tensor * Tensor * Tensor * Tensor
             * option Tensor * option Tensor * option Tensor) :=
  out <- SwapNet_forward self image target ground_truth ;;
  let '(relit_image, image_light_latent, target_light_latent, groundtruth_light_latent,
        image_scene_latent, target_scene_latent, groundtruth_scene_latent) := out in
  image_envmap <- lift (tensor_view image_light_latent [-1; 3; 16; 32]%Z) ;;
  target_envmap <- lift (tensor_view target_light_latent [-1; 3; 16; 32]%Z) ;;
  groundtruth_envmap <- lift (tensor_view groundtruth_light_latent [-1; 3; 16; 32]%Z) ;;
  ret (relit_image, image_envmap, target_envmap, groundtruth_envmap,
       image_scene_latent, target_scene_latent, groundtruth_scene_latent).


End Model.

(** * A concrete instance

    Integers stand for the scalars, and every block fills its output with
    a checksum of its input, so that any change of an input is visible in
    all outputs downstream. *)

Definition checksum_kernel (b : Block) (sz : list nat) (d : list Z) : list Z :=
  match sz with
  | [n; _; h; w] =>
      repeat ((1 + foldr Z.add 0 d) mod 1009)%Z
             (n * out_channels b
              * conv_out (block_in_extent b h) (kernel_size b) (stride b) (padding b)
              * conv_out (block_in_extent b w) (kernel_size b) (stride b) (padding b))
  | _ => []
  end.

Definition checksum_numerics : Numerics :=
  {| elt := Z; ezero := 0%Z; eadd := Z.add; emul := Z.mul; kernel := checksum_kernel |}.

Definition const_image (n h w : nat) (v : Z) : @Tensor checksum_numerics :=
  @Build_Tensor checksum_numerics [n; 3; h; w] (repeat v (n * 3 * h * w)).

Definition empty_world : @World checksum_numerics :=
  @Build_World checksum_numerics ∅ ∅ 0.

(** Encode an image in the empty world, retrieve the skip stack and read
    the list object it refers to. *)
Definition encode_image (enc : Encoder)
    (image : @Tensor checksum_numerics)
  : result (@Tensor checksum_numerics * list (@Tensor checksum_numerics)) :=
  fst (bind (Encoder_forward enc image) (fun latent =>
       bind (Encoder_get_skip_connections enc) (fun r =>
       bind (read_list r) (fun stack => ret (latent, stack)))) empty_world).

Definition all_indices (n : nat) : list Z := map Z.of_nat (seq 0 n).

Definition error_of {A} (r : result A) : option exn :=
  match r with Ok _ => None | Raise e => Some e end.

(** The relit image of the 7-tuple returned by [SwapNet_forward]. *)
Definition relit_of {T L1 L2 L3 S1 S2 S3}
    (out : T * L1 * L2 * L3 * S1 * S2 * S3) : T :=
  out.1.1.1.1.1.1.

(** A matching encoder/decoder pair of bottleneck depth 2, run on one
    image: pushes, layers that pop, outcome, tensors left. *)
Definition depth2_run (disabled : option (list Z)) (h : nat)
  : option (Z * nat * nat * option exn * nat) :=
  match SwapNet_init (@AnOtherSwapNet_codec checksum_numerics) 3 2 3 disabled with
  | Ok net =>
      match encode_image (encode net) (const_image 1 h h 1) with
      | Ok (latent, stack) =>
          let '(res, rest) := Decoder_forward (decode net) latent stack in
          Some (Encoder_get_number_of_possible_skip_connections (encode net),
                length stack, length (Decoder_layers (decode net)),
                error_of res, length rest)
      | Raise _ => None
      end
  | Raise _ => None
  end.

(** An encoder of bottleneck depth 5 against a decoder of depth 4, every
    skip connection disabled on both sides. *)
Definition depth_mismatch_run : option (nat * nat * option exn * nat) :=
  match @Decoder_init 3 4 3 (Some (all_indices 10)) with
  | Ok dec =>
      match encode_image (Encoder_init 3 5 (Some (all_indices 11)))
                         (const_image 1 1 1 1) with
      | Ok (latent, stack) =>
          let '(res, rest) := Decoder_forward dec latent stack in
          Some (length stack, length (Decoder_layers dec), error_of res, length rest)
      | Raise _ => None
      end
  | Raise _ => None
  end.

(** The default channel-split network on three 16x16 images, once with
    the last bottleneck skip connection (index 9) disabled and once with
    all of them enabled: whether the two output layers are the same block,
    and the first value of each relit image. *)
Definition disabled9_vs_enabled : option (bool * option Z * option Z) :=
  match @AnOtherSwapNet_init checksum_numerics 3 (Some [9%Z]),
        @AnOtherSwapNet_init checksum_numerics 3 None with
  | Ok net, Ok net' =>
      match SwapNet_forward net (const_image 1 16 16 1) (const_image 1 16 16 2)
                            (const_image 1 16 16 3) empty_world,
            SwapNet_forward net' (const_image 1 16 16 1) (const_image 1 16 16 2)
                            (const_image 1 16 16 3) empty_world with
      | (Ok out, _), (Ok out', _) =>
          Some (bool_decide (Output_block (Decoder_output (decode net))
                             = Output_block (Decoder_output (decode net'))),
                data (relit_of out) !! 0, data (relit_of out') !! 0)
      | _, _ => None
      end
  | _, _ => None
  end.

(** The encoder of the default network run on a 1x1 image, and its skip
    stack retrieved. *)
Definition image_pass_ok : bool :=
  match @AnOtherSwapNet_init checksum_numerics 3 None with
  | Ok net =>
      match Encoder_forward (encode net) (const_image 1 1 1 1) empty_world with
      | (Ok _, st1) =>
          match Encoder_get_skip_connections (encode net) st1 with
          | (Ok _, _) => true
          | (Raise _, _) => false
          end
      | (Raise _, _) => false
      end
  | Raise _ => false
  end.

(** The default channel-split network run on three 16x16 images in the
    empty world. *)
Definition swap_pass_ok : bool :=
  match @AnOtherSwapNet_init checksum_numerics 3 None with
  | Ok net =>
      match SwapNet_forward net (const_image 1 16 16 1) (const_image 1 16 16 2)
                            (const_image 1 16 16 3) empty_world with
      | (Ok _, _) => true
      | (Raise _, _) => false
      end
  | Raise _ => false
  end.

(** A world where the encoder's attribute refers to a list of two
    tensors. *)
Definition two_tensor_world : @World checksum_numerics :=
  @Build_World checksum_numerics
    {[ the_encoder := 0 ]}
    {[ 0 := [const_image 1 1 1 1; const_image 1 1 1 2] ]}
    1.


(** A decoder with every skip connection disabled, run on a latent of two
    images against nine placeholders, one fewer than it has layers:
    outcome, tensors left. *)
Definition underflow_latent : @Tensor checksum_numerics :=
  @Build_Tensor checksum_numerics [2; 512; 1; 1] (repeat 1%Z 1024).

Definition underflow_run : option (option exn * nat) :=
  match @Decoder_init 3 4 3 (Some (all_indices 10)) with
  | Ok dec =>
      let '(res, rest) := Decoder_forward dec underflow_latent
                                          (repeat EMPTY_TENSOR 9) in
      Some (error_of res, length rest)
  | Raise _ => None
  end.


(** * Properties *)

Section Storage.
Context {A : Type}.
Implicit Types (l : list A) (ls : list (list A)).

Lemma blocks_length k n l : length (blocks k n l) = k.
Proof. revert l; induction k as [|k IH]; intros l; simpl; [done|]. by rewrite IH. Qed.

Lemma concat_blocks k n l : length l = k * n -> concat (blocks k n l) = l.
Proof.
  revert l; induction k as [|k IH]; intros l Hl; simpl in *.
  - by destruct l.
  - rewrite IH; [apply take_drop|]. rewrite length_drop. lia.
Qed.

Lemma blocks_concat k n ls :
  length ls = k -> Forall (fun b => length b = n) ls -> blocks k n (concat ls) = ls.
Proof.
  revert k; induction ls as [|b ls IH]; intros k Hk Hall; simpl in *; subst k; [done|].
  inversion Hall as [|? ? Hb Hls]; subst. simpl.
  rewrite take_app_length, drop_app_length. f_equal. by apply IH.
Qed.

Lemma blocks_Forall_length k n l :
  length l = k * n -> Forall (fun b => length b = n) (blocks k n l).
Proof.
  revert l; induction k as [|k IH]; intros l Hl; simpl in *; constructor.
  - rewrite length_take. lia.
  - apply IH. rewrite length_drop. lia.
Qed.

Lemma zip_with_app_take_drop a b ls :
  Forall (fun blk => length blk = a + b) ls ->
  zip_with app (map (fun blk => take a (drop 0 blk)) ls)
               (map (fun blk => take b (drop a blk)) ls) = ls.
Proof.
  induction 1 as [|blk ls Hb _ IH]; simpl; [done|]. rewrite IH. f_equal.
  rewrite drop_0. rewrite (take_ge (drop a blk)); [apply take_drop|].
  rewrite length_drop. lia.
Qed.

End Storage.

Section Theorems.
Context {NUM : Numerics}.
Implicit Types (t x y : Tensor) (st : World).

(** ** Dimensions, [narrow] and [size_splits] *)

Lemma wrap_dim_lt ndim z d : wrap_dim ndim z = Ok d -> d < ndim.
Proof.
  unfold wrap_dim. destruct (_ && _) eqn:E; [|done]. intros [= <-].
  apply andb_prop in E as [E1 E2].
  apply Z.leb_le in E1. apply Z.ltb_lt in E2.
  destruct (Z.ltb_spec z 0); lia.
Qed.

Lemma tensor_size_inv t dim n :
  tensor_size t dim = Ok n ->
  exists d, wrap_dim (length (size t)) dim = Ok d /\ size t !!! d = n.
Proof.
  unfold tensor_size. destruct (wrap_dim _ _) as [d|] eqn:E; simpl; [|done].
  intros [= <-]. eauto.
Qed.

Lemma torch_narrow_ok t dim d start len :
  wrap_dim (length (size t)) dim = Ok d ->
  (0 <= start)%Z -> (0 <= len)%Z -> (start + len <= Z.of_nat (size t !!! d))%Z ->
  exists c, torch_narrow t dim start len = Ok c
            /\ size c = <[d := Z.to_nat len]> (size t).
Proof.
  intros Hd Hs Hl Hle. unfold torch_narrow. rewrite Hd. simpl.
  destruct (Z.ltb_spec start 0); [lia|].
  destruct (Z.ltb_spec len 0); [lia|].
  destruct (Z.ltb_spec (Z.of_nat (size t !!! d)) (start + len)); [lia|].
  simpl. eauto.
Qed.

Lemma size_splits_chunks t dim d n sizes acc :
  wrap_dim (length (size t)) dim = Ok d -> size t !!! d = n ->
  (0 <= acc)%Z -> Forall (fun s => 0 <= s)%Z sizes ->
  (acc + sumZ sizes <= Z.of_nat n)%Z ->
  exists chunks,
    rmap (fun '(start, length) => torch_narrow t dim start length)
         (zip (cumsum_from acc sizes) sizes) = Ok chunks
    /\ length chunks = length sizes
    /\ forall k len, sizes !! k = Some len ->
         exists c, chunks !! k = Some c
                   /\ torch_narrow t dim (acc + sumZ (take k sizes)) len = Ok c.
Proof.
  intros Hd Hn. revert acc.
  induction sizes as [|s sizes IH]; intros acc Hacc Hall Hsum; simpl in *.
  - exists []. split; [done|]. split; [done|]. intros k len. by rewrite lookup_nil.
  - inversion Hall as [|? ? Hs Hrest]; subst.
    assert (0 <= sumZ sizes)%Z as Hnn.
    { clear -Hrest. induction Hrest; simpl; lia. }
    destruct (torch_narrow_ok t dim d acc s Hd) as (c & Hc & _); [lia..|].
    destruct (IH (acc + s)%Z) as (chunks & Hchunks & Hlen & Hnth); [lia|done|lia|].
    exists (c :: chunks). rewrite Hc. simpl. rewrite Hchunks. simpl.
    split; [done|]. split; [by rewrite Hlen|].
    intros [|k] len Hk; simpl in *.
    + injection Hk as <-. exists c. split; [done|]. by rewrite Z.add_0_r.
    + destruct (Hnth k len Hk) as (c' & Hc' & Hn'). exists c'. split; [done|].
      by rewrite Z.add_assoc.
Qed.

(** C8 (amended).  As long as the extent [n] of the tensor along the split
    dimension and the sum of the magnitudes of the sizes do not exceed
    [2^24] (so that the float32 sums of the source are exact):
    [size_splits] refuses, with its [KeyError], every list of sizes whose
    sum differs from [n]; and when the sizes are non-negative and sum to [n]
    exactly it returns one chunk per size, in order, the [k]-th chunk being
    the narrow window that starts where the [k-1]-th ended and having
    exactly the requested extent. *)
Theorem size_splits_checked t (split_sizes : list Z) (dim : Z) (n : nat) :
  let dim' := (if dim <? 0 then dim + Z.of_nat (length (size t)) else dim)%Z in
  tensor_size t dim' = Ok n ->
  (Z.of_nat n <= 2 ^ 24)%Z ->
  (sumZ (map Z.abs split_sizes) <= 2 ^ 24)%Z ->
  (Z.of_nat n <> sumZ split_sizes ->
     size_splits t split_sizes dim
     = Raise (KeyError "Sum of split sizes exceeds tensor dim"))
  /\ (Z.of_nat n = sumZ split_sizes ->
      Forall (fun s => 0 <= s)%Z split_sizes ->
      exists chunks,
        size_splits t split_sizes dim = Ok chunks
        /\ length chunks = length split_sizes
        /\ forall k len, split_sizes !! k = Some len ->
             exists c, chunks !! k = Some c
                       /\ torch_narrow t dim' (sumZ (take k split_sizes)) len = Ok c
                       /\ tensor_size c dim' = Ok (Z.to_nat len)).
Proof.
  intros dim' Hsize _ _. unfold size_splits. fold dim'. rewrite Hsize. simpl.
  split.
  - intros Hne. destruct (Z.eqb_spec (Z.of_nat n) (sumZ split_sizes)); done.
  - intros Heq Hall. rewrite Heq, Z.eqb_refl. simpl.
    apply tensor_size_inv in Hsize as (d & Hd & Hn).
    destruct (size_splits_chunks t dim' d n split_sizes 0 Hd Hn) as
      (chunks & Hchunks & Hlen & Hnth); [lia|done|lia|].
    exists chunks. split; [done|]. split; [done|].
    intros k len Hk. destruct (Hnth k len Hk) as (c & Hc & Hnar).
    exists c. rewrite Z.add_0_l in Hnar. split; [done|]. split; [done|].
    assert (0 <= len)%Z as Hlen0.
    { rewrite Forall_forall in Hall. apply Hall. by eapply list_elem_of_lookup_2. }
    pose proof (wrap_dim_lt _ _ _ Hd) as Hlt.
    unfold torch_narrow in Hnar. rewrite Hd in Hnar. simpl in Hnar.
    destruct (_ || _); [done|]. injection Hnar as <-.
    unfold tensor_size. simpl. rewrite length_insert, Hd. simpl.
    f_equal. by apply list_lookup_total_insert_eq.
Qed.

(** ** The channel-split codec *)

Lemma narrow_cat_channels x n h w (a b : nat) :
  size x = [n; a + b; h; w] -> contiguous x ->
  exists light scene,
    torch_narrow x 1 0 (Z.of_nat a) = Ok light
    /\ torch_narrow x 1 (Z.of_nat a) (Z.of_nat b) = Ok scene
    /\ size light = [n; a; h; w]
    /\ size scene = [n; b; h; w]
    /\ torch_cat light scene 1 = Ok x.
Proof.
  intros Hsz Hc. destruct x as [sz d]. unfold contiguous in Hc. simpl in *. subst sz.
  unfold torch_narrow. cbn [size data length].
  change (wrap_dim 4 1) with (Ok (A:=nat) 1). cbn [rbind].
  change ([n; a + b; h; w] !!! 1) with (a + b).
  destruct (Z.ltb_spec 0 0) as [|_]; [lia|].
  destruct (Z.ltb_spec (Z.of_nat a) 0) as [|_]; [lia|].
  destruct (Z.ltb_spec (Z.of_nat b) 0) as [|_]; [lia|].
  destruct (Z.ltb_spec (Z.of_nat (a + b)) (0 + Z.of_nat a)) as [|_]; [lia|].
  destruct (Z.ltb_spec (Z.of_nat (a + b)) (Z.of_nat a + Z.of_nat b)) as [|_]; [lia|].
  cbn [orb]. rewrite !Nat2Z.id.
  change (Z.to_nat 0) with 0.
  change (<[1:=a]> [n; a + b; h; w]) with [n; a; h; w].
  change (<[1:=b]> [n; a + b; h; w]) with [n; b; h; w].
  set (i := inner [n; a + b; h; w] 1).
  set (o := outer [n; a + b; h; w] 1).
  set (bs := blocks o ((a + b) * i) d).
  assert (length d = o * ((a + b) * i)) as Hlen.
  { rewrite Hc. unfold o, i, outer, inner, numel. simpl. lia. }
  assert (Forall (fun blk => length blk = a * i + b * i) bs) as Hbs.
  { replace (a * i + b * i) with ((a + b) * i) by lia.
    by apply blocks_Forall_length. }
  eexists _, _. split; [reflexivity|]. split; [reflexivity|].
  split; [reflexivity|]. split; [reflexivity|].
  unfold torch_cat, legacy_empty. cbn [size data length].
  rewrite !bool_decide_eq_false_2 by discriminate.
  change (wrap_dim 4 1) with (Ok (A:=nat) 1). cbn [rbind].
  unfold same_except. cbn [size data].
  change (<[1:=0]> [n; a; h; w]) with [n; 0; h; w].
  change (<[1:=0]> [n; b; h; w]) with [n; 0; h; w].
  rewrite bool_decide_eq_true_2 by done.
  change ([n; a; h; w] !!! 1) with a. change ([n; b; h; w] !!! 1) with b.
  change (<[1:=a + b]> [n; a; h; w]) with [n; a + b; h; w].
  change (inner [n; a; h; w] 1) with i. change (outer [n; a; h; w] 1) with o.
  do 2 f_equal.
  rewrite !blocks_concat.
  - change (0 * i) with 0.
    rewrite zip_with_app_take_drop by done. by apply concat_blocks.
  - rewrite length_map. apply blocks_length.
  - apply Forall_map. eapply Forall_impl; [exact Hbs|]. simpl.
    intros blk Hblk. rewrite length_take, length_drop. lia.
  - rewrite length_map. apply blocks_length.
  - apply Forall_map. eapply Forall_impl; [exact Hbs|]. simpl.
    intros blk Hblk. rewrite length_take, length_drop. lia.
Qed.

(** C4.  On a contiguous latent of shape [[N,512,H,W]] the channel-split
    splitter returns the light factor (channels [0,3), shape [[N,3,H,W]])
    and the scene factor (channels [3,512), shape [[N,509,H,W]]), and the
    assembler, concatenating (light, scene) in that order, gives the latent
    back exactly. *)
Theorem AnOtherSwapNet_assemble_split x n h w :
  size x = [n; 512; h; w] -> contiguous x ->
  exists light scene,
    AnOtherSwapNetSplitter_forward x = Ok (Some scene, light)
    /\ torch_narrow x 1 0 3 = Ok light
    /\ torch_narrow x 1 3 509 = Ok scene
    /\ size light = [n; 3; h; w]
    /\ size scene = [n; 509; h; w]
    /\ AnOtherSwapNetAssembler_forward (Some scene) light = Ok x.
Proof.
  intros Hsz Hc.
  destruct (narrow_cat_channels x n h w 3 509 Hsz Hc)
    as (light & scene & Hl & Hs & Hsl & Hss & Hcat).
  exists light, scene.
  change (Z.of_nat 3) with 3%Z in *. change (Z.of_nat 509) with 509%Z in *.
  split; [|done].
  unfold AnOtherSwapNetSplitter_forward, size_splits, tensor_size.
  rewrite Hsz. cbn [length].
  change (wrap_dim 4 _) with (Ok (A:=nat) 1). cbn [rbind].
  change ([n; 512; h; w] !!! 1) with 512.
  change (negb (Z.of_nat 512 =? sumZ [3; 509])%Z) with false. cbv iota.
  change (1 <? 0)%Z with false. cbv iota.
  cbn [cumsum_from zip zip_with rmap]. change (0 + 3)%Z with 3%Z.
  by rewrite Hl, Hs.
Qed.

(** ** The encoder *)

(** C7.  The number of possible skip connections of an encoder is
    [1 + 2*n_double_conv + (bottleneck_depth - 1)], whatever the set of
    disabled skip connections. *)
Theorem Encoder_number_of_possible_skip_connections
    (n_double_conv bottleneck_depth : Z) (disabled : option (list Z)) :
  Encoder_get_number_of_possible_skip_connections
    (Encoder_init n_double_conv bottleneck_depth disabled)
  = (1 + 2 * n_double_conv + (bottleneck_depth - 1))%Z.
Proof.
  unfold Encoder_get_number_of_possible_skip_connections, Encoder_init. simpl. lia.
Qed.

Lemma set_heap_id st r l : heap st !! r = Some l -> set_heap st r l = st.
Proof. intros H. destruct st. unfold set_heap. simpl in *. by rewrite insert_id. Qed.

Lemma set_heap_twice st r l l' : set_heap (set_heap st r l) r l' = set_heap st r l'.
Proof. unfold set_heap. simpl. by rewrite insert_insert_eq. Qed.

Lemma push_skip_run st p r l x :
  skip_connections st !! p = Some r -> heap st !! r = Some l ->
  push_skip p x st = (Ok tt, set_heap st r (l ++ [x])).
Proof.
  intros Hp Hr. unfold push_skip, list_append, bind, get_attr, read_list, write_list.
  by rewrite Hp, Hr.
Qed.

Lemma bottleneck_loop_run (single : Block) k : forall x st r stack,
  skip_connections st !! the_bottleneck = Some r -> heap st !! r = Some stack ->
  foldM (fun x module =>
           bind (push_skip the_bottleneck x)
                (fun _ => lift (apply_block module x)))
        (repeat single k) x st
  = let '(res, stack') := iterate_pushing (apply_block single) k x stack in
    (res, set_heap st r stack').
Proof.
  induction k as [|k IH]; intros x st r stack Hp Hr; simpl.
  - unfold ret. by rewrite set_heap_id.
  - unfold bind at 1. unfold bind at 1.
    rewrite (push_skip_run st _ r stack x Hp Hr). unfold lift at 1.
    destruct (apply_block single x) as [y|e].
    + rewrite (IH y (set_heap st r (stack ++ [x])) r (stack ++ [x])).
      * destruct (iterate_pushing _ _ _ _). by rewrite set_heap_twice.
      * done.
      * simpl. apply lookup_insert_eq.
    + done.
Qed.

Lemma EncBottleneckConv_forward_run (in_channels : nat) (depth : Z) x st :
  EncBottleneckConv_forward (EncBottleneckConv_init in_channels depth) x st
  = let '(res, stack) :=
      iterate_pushing
        (apply_block (conv_block enc_bottleneck_single_conv in_channels in_channels 3 1 1))
        (Z.to_nat (depth - 1)) x [] in
    (res, {| skip_connections := <[the_bottleneck := next_loc st]> (skip_connections st);
             heap := <[next_loc st := stack]> (heap st);
             next_loc := S (next_loc st) |}).
Proof.
  unfold EncBottleneckConv_forward, EncBottleneckConv_init,
    build_bottleneck_convolutions. cbn [convolutions].
  unfold bind at 1. unfold reset_skip_connections, bind at 1, new_list, set_attr.
  rewrite (bottleneck_loop_run _ _ x _ (next_loc st) []).
  - destruct (iterate_pushing _ _ _ _). unfold set_heap. simpl.
    by rewrite insert_insert_eq.
  - simpl. apply lookup_insert_eq.
  - simpl. apply lookup_insert_eq.
Qed.

(** C10.  The bottleneck's module list is [depth - 1] references to one
    conv/batchnorm/PReLU module, and its forward pass is the iteration of
    that one shared function [depth - 1] times, each input being pushed on
    the (freshly rebound) skip stack before the function is applied. *)
Theorem EncBottleneckConv_shared_iteration (in_channels : nat) (depth : Z) x st :
  let single := conv_block enc_bottleneck_single_conv in_channels in_channels 3 1 1 in
  let self := EncBottleneckConv_init in_channels depth in
  convolutions self = repeat single (Z.to_nat (depth - 1))
  /\ (forall module, module ∈ convolutions self -> module = single)
  /\ EncBottleneckConv_forward self x st
     = let '(res, stack) :=
         iterate_pushing (apply_block single) (Z.to_nat (depth - 1)) x [] in
       (res, {| skip_connections := <[the_bottleneck := next_loc st]> (skip_connections st);
                heap := <[next_loc st := stack]> (heap st);
                next_loc := S (next_loc st) |}).
Proof.
  intros single self. split; [reflexivity|]. split.
  - intros module Hin. apply list_elem_of_In, repeat_spec in Hin. exact Hin.
  - apply EncBottleneckConv_forward_run.
Qed.

(** *** Shapes through the default encoder *)

Lemma conv_out_same3 h : 1 <= h -> conv_out h 3 1 1 = h.
Proof. intros H. unfold conv_out. rewrite Nat.div_1_r. lia. Qed.

Lemma conv_out_same7 h : 1 <= h -> conv_out h 7 1 3 = h.
Proof. intros H. unfold conv_out. rewrite Nat.div_1_r. lia. Qed.

Lemma conv_out_halve_pos h : 1 <= conv_out h 3 2 1.
Proof. unfold conv_out. lia. Qed.


Lemma conv_out_halve4 h :
  1 <= h ->
  conv_out (conv_out (conv_out (conv_out h 3 2 1) 3 2 1) 3 2 1) 3 2 1 = (h + 15) / 16.
Proof.
  intros H. unfold conv_out.
  replace (h + 2 * 1 - 3) with (h - 1) by lia.
  set (a := (h - 1) / 2).
  replace (a + 1 + 2 * 1 - 3) with a by lia.
  set (b := a / 2). replace (b + 1 + 2 * 1 - 3) with b by lia.
  set (c := b / 2). replace (c + 1 + 2 * 1 - 3) with c by lia.
  subst c b a. rewrite !Nat.Div0.div_div. change (2 * (2 * (2 * 2))) with 16.
  replace (h + 15) with ((h - 1) + 1 * 16) by lia.
  rewrite Nat.div_add by lia. lia.
Qed.

Lemma apply_block_ok b x n c h w :
  size x = [n; c; h; w] -> c = in_channels b -> upsample b = false ->
  kernel_size b <= h + 2 * padding b -> kernel_size b <= w + 2 * padding b ->
  exists y, apply_block b x = Ok y
            /\ size y = [n; out_channels b;
                         conv_out h (kernel_size b) (stride b) (padding b);
                         conv_out w (kernel_size b) (stride b) (padding b)].
Proof.
  intros Hsz Hc Hup Hh Hw. unfold apply_block, block_in_extent. rewrite Hsz, Hup.
  rewrite !bool_decide_eq_true_2 by done. simpl. eauto.
Qed.

Lemma channel_cat_ok x y n a b h w :
  size x = [n; a; h; w] -> size y = [n; b; h; w] ->
  exists z, torch_cat x y 1 = Ok z /\ size z = [n; a + b; h; w].
Proof.
  intros Hx Hy. unfold torch_cat, legacy_empty. rewrite Hx, Hy.
  rewrite !bool_decide_eq_false_2 by discriminate. cbn [length].
  change (wrap_dim 4 1) with (Ok (A:=nat) 1). cbn [rbind]. unfold same_except.
  change (<[1:=0]> [n; a; h; w]) with [n; 0; h; w].
  change (<[1:=0]> [n; b; h; w]) with [n; 0; h; w].
  rewrite bool_decide_eq_true_2 by done. eauto.
Qed.

Lemma bind_ok {S A B} (m : M S A) (k : A -> M S B) s a s' :
  m s = (Ok a, s') -> bind m k s = k a s'.
Proof. intros H. unfold bind. by rewrite H. Qed.

Lemma bind_assoc {S A B C} (m : M S A) (k : A -> M S B) (k' : B -> M S C) s :
  bind (bind m k) k' s = bind m (fun a => bind (k a) k') s.
Proof. unfold bind. destruct (m s) as [[a|e] s']; reflexivity. Qed.

Lemma bind_ret {S A B} (a : A) (k : A -> M S B) s : bind (ret a) k s = k a s.
Proof. reflexivity. Qed.

Lemma ImageEncoding_forward_ok image st n h w :
  size image = [n; 3; h; w] -> 1 <= h -> 1 <= w ->
  exists x e,
    ImageEncoding_forward (ImageEncoding_init 3 32 64) image st
    = (Ok x, {| skip_connections := <[the_image_encoder := next_loc st]> (skip_connections st);
                heap := <[next_loc st := [e]]> (heap st);
                next_loc := S (next_loc st) |})
    /\ size x = [n; 64; conv_out h 3 2 1; conv_out w 3 2 1]
    /\ size e = [n; 32; h; w].
Proof.
  intros Hsz Hh Hw. unfold ImageEncoding_forward, ImageEncoding_init.
  cbn [ImageEncoding_conv1 ImageEncoding_conv2].
  destruct (apply_block_ok (conv_block image_encoder_conv1 3 (32 - 3) 7 1 3)
              image n 3 h w) as (x1 & Hx1 & Hs1); [done|done|done|simpl; lia..|].
  cbn [conv_block out_channels kernel_size stride padding] in Hs1.
  rewrite !conv_out_same7 in Hs1 by done.
  destruct (channel_cat_ok x1 image n (32 - 3) 3 h w Hs1 Hsz) as (e & He & Hse).
  change (32 - 3 + 3) with 32 in Hse.
  destruct (apply_block_ok (conv_block image_encoder_conv2 32 64 3 2 1)
              e n 32 h w) as (x & Hx & Hsx); [done|done|done|simpl; lia..|].
  exists x, e. unfold bind, lift, new_list, set_attr. rewrite Hx1, He, Hx. done.
Qed.

Lemma EncDoubleConv_forward_ok i cin cout x st n h w :
  size x = [n; cin; h; w] -> 1 <= h -> 1 <= w ->
  exists y x1,
    EncDoubleConv_forward (EncDoubleConv_init i cin cout) x st
    = (Ok y, {| skip_connections := <[the_double_conv i := next_loc st]> (skip_connections st);
                heap := <[next_loc st := [x; x1]]> (heap st);
                next_loc := S (next_loc st) |})
    /\ size y = [n; cout; conv_out h 3 2 1; conv_out w 3 2 1].
Proof.
  intros Hsz Hh Hw. unfold EncDoubleConv_forward, EncDoubleConv_init.
  cbn [EncDoubleConv_index EncDoubleConv_conv1 EncDoubleConv_conv2].
  destruct (apply_block_ok (conv_block (enc_double_conv1 i) cin cin 3 1 1)
              x n cin h w) as (x1 & Hx1 & Hs1); [done|done|done|simpl; lia..|].
  cbn [conv_block out_channels kernel_size stride padding] in Hs1.
  rewrite !conv_out_same3 in Hs1 by done.
  destruct (apply_block_ok (conv_block (enc_double_conv2 i) cin cout 3 2 1)
              x1 n cin h w) as (y & Hy & Hsy); [done|done|done|simpl; lia..|].
  exists y, x1. split; [|done].
  unfold bind at 1. unfold reset_skip_connections, bind at 1, new_list, set_attr.
  erewrite bind_ok; [|apply push_skip_run; simpl; apply lookup_insert_eq].
  unfold bind at 1, lift at 1. rewrite Hx1.
  erewrite bind_ok; [|apply push_skip_run; simpl; apply lookup_insert_eq].
  unfold lift. rewrite Hy. unfold set_heap. simpl.
  by rewrite !insert_insert_eq.
Qed.

Lemma extend_skip_run st p q r r' l l' :
  skip_connections st !! p = Some r -> skip_connections st !! q = Some r' ->
  heap st !! r = Some l -> heap st !! r' = Some l' ->
  extend_skip p q st
  = (Ok tt, {| skip_connections := <[p := r]> (skip_connections st);
               heap := <[r := l ++ l']> (heap st);
               next_loc := next_loc st |}).
Proof.
  intros Hp Hq Hr Hr'.
  unfold extend_skip, get_skip_connections, list_iadd, bind, get_attr, read_list,
    write_list, set_attr.
  by rewrite Hp, Hq, Hr, Hr'.
Qed.

Lemma reset_skip_connections_run p st :
  reset_skip_connections p st
  = (Ok tt, {| skip_connections := <[p := next_loc st]> (skip_connections st);
               heap := <[next_loc st := []]> (heap st);
               next_loc := S (next_loc st) |}).
Proof. reflexivity. Qed.

Tactic Notation "norm_world" :=
  cbv beta; cbn [skip_connections heap next_loc].
Tactic Notation "norm_world" "in" hyp(H) :=
  cbv beta in H; cbn [skip_connections heap next_loc] in H.

Ltac solve_lookup :=
  norm_world;
  repeat first [ rewrite lookup_insert_eq
               | rewrite lookup_insert_ne by (discriminate || lia) ];
  reflexivity.

Ltac run_extend :=
  eapply extend_skip_run; [solve_lookup | solve_lookup | solve_lookup | solve_lookup].

Lemma Encoder_forward_default_shape image st n h w :
  size image = [n; 3; h; w] -> 1 <= h -> 1 <= w ->
  exists latent st',
    Encoder_forward (Encoder_init 3 4 None) image st = (Ok latent, st')
    /\ size latent = [n; 512; (h + 15) / 16; (w + 15) / 16].
Proof.
  intros Hsz Hh Hw. unfold Encoder_forward, Encoder_init.
  cbn [image_encoder Encoder_double_convolutions Encoder_bottleneck].
  change (build_encoder_convolutions_block 3)
    with [EncDoubleConv_init 0 64 128; EncDoubleConv_init 1 128 256;
          EncDoubleConv_init 2 256 512].
  rewrite (bind_ok _ _ _ _ _ (reset_skip_connections_run _ _)). norm_world.
  match goal with |- context [bind _ _ ?s] =>
    destruct (ImageEncoding_forward_ok image s n h w Hsz Hh Hw) as (x0 & e & Hrun & Hx0 & He)
  end.
  erewrite bind_ok by exact Hrun. clear Hrun. norm_world.
  erewrite bind_ok; [|run_extend]. norm_world.
  cbn [foldM].
  pose proof (conv_out_halve_pos h) as Hh1. pose proof (conv_out_halve_pos w) as Hw1.
  match goal with |- context [bind _ _ ?s] =>
    destruct (EncDoubleConv_forward_ok 0 64 128 x0 s _ _ _ Hx0 Hh1 Hw1)
      as (x1 & m1 & Hrun & Hx1)
  end.
  rewrite !bind_assoc. erewrite bind_ok by exact Hrun. clear Hrun. norm_world.
  cbn [EncDoubleConv_index EncDoubleConv_init].
  rewrite !bind_assoc. erewrite bind_ok; [|run_extend]. norm_world.
  rewrite bind_ret. norm_world.
  pose proof (conv_out_halve_pos (conv_out h 3 2 1)) as Hh2.
  pose proof (conv_out_halve_pos (conv_out w 3 2 1)) as Hw2.
  match goal with |- context [bind _ _ ?s] =>
    destruct (EncDoubleConv_forward_ok 1 128 256 x1 s _ _ _ Hx1 Hh2 Hw2)
      as (x2 & m2 & Hrun & Hx2)
  end.
  rewrite !bind_assoc. erewrite bind_ok by exact Hrun. clear Hrun. norm_world.
  cbn [EncDoubleConv_index EncDoubleConv_init].
  rewrite !bind_assoc. erewrite bind_ok; [|run_extend]. norm_world.
  rewrite bind_ret. norm_world.
  pose proof (conv_out_halve_pos (conv_out (conv_out h 3 2 1) 3 2 1)) as Hh3.
  pose proof (conv_out_halve_pos (conv_out (conv_out w 3 2 1) 3 2 1)) as Hw3.
  match goal with |- context [bind _ _ ?s] =>
    destruct (EncDoubleConv_forward_ok 2 256 512 x2 s _ _ _ Hx2 Hh3 Hw3)
      as (x3 & m3 & Hrun & Hx3)
  end.
  rewrite !bind_assoc. erewrite bind_ok by exact Hrun. clear Hrun. norm_world.
  cbn [EncDoubleConv_index EncDoubleConv_init].
  rewrite !bind_assoc. erewrite bind_ok; [|run_extend]. norm_world.
  rewrite bind_ret. norm_world.
  rewrite conv_out_halve4 in Hx3 by done.
  rewrite (conv_out_halve4 w) in Hx3 by done.
  assert (1 <= (h + 15) / 16) as Hh4.
  { rewrite <- conv_out_halve4 by done. apply conv_out_halve_pos. }
  assert (1 <= (w + 15) / 16) as Hw4.
  { rewrite <- conv_out_halve4 by done. apply conv_out_halve_pos. }
  set (single := conv_block enc_bottleneck_single_conv 512 512 3 1 1).
  assert (forall y, size y = [n; 512; (h + 15) / 16; (w + 15) / 16] ->
            exists z, apply_block single y = Ok z
                      /\ size z = [n; 512; (h + 15) / 16; (w + 15) / 16]) as Hstep.
  { intros y Hy.
    destruct (apply_block_ok single y _ _ _ _ Hy) as (z & Hz & Hsz');
      [done|done|unfold single; cbn [conv_block kernel_size padding]; lia..|].
    exists z. split; [done|]. rewrite Hsz'. unfold single.
    cbn [conv_block out_channels kernel_size stride padding].
    by rewrite !conv_out_same3. }
  destruct (Hstep x3 Hx3) as (y1 & Hy1 & Hs1).
  destruct (Hstep y1 Hs1) as (y2 & Hy2 & Hs2).
  destruct (Hstep y2 Hs2) as (y3 & Hy3 & Hs3).
  rewrite bind_ret. norm_world.
  match goal with |- context [bind _ _ ?s] =>
    pose proof (EncBottleneckConv_forward_run 512 4 x3 s) as Hrun
  end.
  change (Z.to_nat (4 - 1)) with 3 in Hrun. cbn [iterate_pushing] in Hrun.
  fold single in Hrun. rewrite Hy1, Hy2, Hy3 in Hrun. norm_world in Hrun.
  erewrite bind_ok by exact Hrun. clear Hrun. norm_world.
  erewrite bind_ok; [|run_extend]. norm_world.
  unfold ret. eauto.
Qed.

(** C1 (amended).  The default encoder (3 double-conv stages, bottleneck
    depth 4) maps every image tensor of shape [[N,3,H,W]] whose latent
    holds more than one value per channel
    ([N * ceil(H/16) * ceil(W/16) >= 2], which is what the batch
    normalisations of the encoder require of their inputs in training
    mode, the latent being the smallest of them) to a latent of shape
    [[N,512,ceil(H/16),ceil(W/16)]], which is [[N,512,H/16,W/16]] when 16
    divides [H] and [W]: the resolution is halved four times, not five. *)
Theorem Encoder_forward_latent_shape image st n h w :
  size image = [n; 3; h; w] ->
  2 <= n * ((h + 15) / 16) * ((w + 15) / 16) ->
  exists latent st',
    Encoder_forward (Encoder_init 3 4 None) image st = (Ok latent, st')
    /\ size latent = [n; 512; (h + 15) / 16; (w + 15) / 16]
    /\ (h mod 16 = 0 -> w mod 16 = 0 -> size latent = [n; 512; h / 16; w / 16]).
Proof.
  intros Hsz Hbn.
  assert (1 <= h /\ 1 <= w) as [Hh Hw].
  { split.
    - destruct h; [|lia]. change ((0 + 15) / 16) with 0 in Hbn. lia.
    - destruct w; [|lia]. change ((0 + 15) / 16) with 0 in Hbn. lia. }
  destruct (Encoder_forward_default_shape image st n h w Hsz Hh Hw)
    as (latent & st' & Hrun & Hl).
  exists latent, st'. split; [done|]. split; [done|].
  assert (forall m, m mod 16 = 0 -> (m + 15) / 16 = m / 16) as Hexact.
  { intros m Hm. apply Nat.Div0.div_exact in Hm.
    symmetry. apply (Nat.div_unique (m + 15) 16 (m / 16) 15); lia. }
  intros Hh16 Hw16. by rewrite Hl, !Hexact.
Qed.

(** ** The decoder *)

Lemma bind_ext {S A B} (m : M S A) (k k' : A -> M S B) s :
  (forall a s', k a s' = k' a s') -> bind m k s = bind m k' s.
Proof. intros H. unfold bind. destruct (m s) as [[a|e] s']; [apply H|done]. Qed.

Lemma foldM_app {S A B} (f : A -> B -> M S A) l1 l2 a s :
  foldM f (l1 ++ l2) a s = bind (foldM f l1 a) (foldM f l2) s.
Proof.
  revert a s. induction l1 as [|b l1 IH]; intros a s; simpl; [done|].
  rewrite bind_assoc. apply bind_ext. intros a' s'. apply IH.
Qed.

(** Every layer of [Decoder_layers] pops exactly once, in order. *)
Lemma Decoder_forward_layers (self : Decoder) latent stack :
  Decoder_forward self latent stack
  = bind (lift (apply_block (DecBottleneckConv_encode (Decoder_bottleneck self)) latent))
         (foldM (fun x conv => pop_concat_apply conv x) (Decoder_layers self))
         stack.
Proof.
  unfold Decoder_forward, DecBottleneckConv_forward, Decoder_layers.
  rewrite !bind_assoc. apply bind_ext. intros x s. clear latent stack.
  change ([initial_conv (Decoder_bottleneck self)] ++ ?l)
    with (initial_conv (Decoder_bottleneck self) :: l).
  cbn [foldM]. rewrite !bind_assoc. apply bind_ext. intros x1 s1. clear x s.
  rewrite foldM_app, !bind_assoc. apply bind_ext. intros x2 s2. clear x1 s1.
  change ([out_conv (Decoder_bottleneck self)] ++ ?l)
    with (out_conv (Decoder_bottleneck self) :: l).
  cbn [foldM]. apply bind_ext. intros x3 s3. clear x2 s2.
  rewrite foldM_app.
  assert (forall dcs x s,
            foldM (fun x dc => DecDoubleConv_forward dc x) dcs x s
            = foldM (fun x conv => pop_concat_apply conv x)
                (concat (map (fun dc => [DecDoubleConv_conv1 dc; DecDoubleConv_conv2 dc])
                             dcs)) x s) as Hdc.
  { induction dcs as [|dc dcs IH]; intros x s; simpl; [done|].
    unfold DecDoubleConv_forward at 1. rewrite !bind_assoc.
    apply bind_ext. intros x' s'. apply bind_ext. intros x'' s''. apply IH. }
  unfold bind at 1 3. rewrite Hdc.
  destruct (foldM _ _ x3 s3) as [[x4|e] s4]; [|done].
  cbn [foldM]. unfold pop_concat_apply, Output_forward, bind, ret, list_pop, lift.
  destruct (last s4); [|done]. simpl.
  destruct (channel_concat x4 t); simpl; [|done].
  by destruct (apply_block _ _).
Qed.

Lemma list_pop_inv stack x rest :
  list_pop stack = (Ok x, rest) -> stack = rest ++ [x].
Proof.
  unfold list_pop. destruct stack as [|t stack] using rev_ind.
  - done.
  - rewrite last_snoc, removelast_last. by intros [= <- <-].
Qed.

Lemma list_pop_snoc stack x : list_pop (stack ++ [x]) = (Ok x, stack).
Proof. unfold list_pop. by rewrite last_snoc, removelast_last. Qed.

Lemma pop_concat_apply_inv conv x stack y rest :
  pop_concat_apply conv x stack = (Ok y, rest) ->
  exists skip, stack = rest ++ [skip]
               /\ rbind (channel_concat x skip) (apply_block conv) = Ok y.
Proof.
  unfold pop_concat_apply, bind at 1. destruct (list_pop stack) as [[skip|e] s'] eqn:E; [|done].
  apply list_pop_inv in E as ->. unfold bind, lift.
  destruct (channel_concat x skip) as [c|] eqn:Ec; simpl; [|done].
  destruct (apply_block conv c) eqn:Ea; [|done]. intros [= <- <-].
  exists skip. split; [done|]. by rewrite Ec.
Qed.

(** A run of layers that succeeds has popped one tensor per layer. *)
Lemma layers_pop_count layers : forall x stack y rest,
  foldM (fun x conv => pop_concat_apply conv x) layers x stack = (Ok y, rest) ->
  exists popped, stack = rest ++ popped /\ length popped = length layers.
Proof.
  induction layers as [|conv layers IH]; intros x stack y rest; simpl.
  - intros [= <- <-]. exists []. by rewrite app_nil_r.
  - unfold bind. destruct (pop_concat_apply conv x stack) as [[x'|e] s'] eqn:E; [|done].
    intros Hrest. apply pop_concat_apply_inv in E as (skip & -> & _).
    apply IH in Hrest as (popped & -> & Hlen).
    exists (popped ++ [skip]). rewrite length_app, <- app_assoc. simpl. split; [done|lia].
Qed.

Lemma Decoder_forward_pop_count (self : Decoder) latent stack relit rest :
  Decoder_forward self latent stack = (Ok relit, rest) ->
  exists popped, stack = rest ++ popped
                 /\ length popped = length (Decoder_layers self).
Proof.
  rewrite Decoder_forward_layers. unfold bind at 1, lift.
  destruct (apply_block _ latent); [|done]. apply layers_pop_count.
Qed.

(** *** Tensors below the ones a decoder pops are never looked at *)

Lemma framed_lift {A} (r : result A) : framed (lift r).
Proof. intros stack a rest extra. unfold lift. by intros [= -> <-]. Qed.

Lemma framed_ret {A} (a : A) : framed (ret a).
Proof. intros stack a' rest extra. unfold ret. by intros [= <- <-]. Qed.

Lemma framed_bind {A B} (m : M (list Tensor) A) (k : A -> M (list Tensor) B) :
  framed m -> (forall a, framed (k a)) -> framed (bind m k).
Proof.
  intros Hm Hk stack b rest extra. unfold bind.
  destruct (m stack) as [[a|e] s'] eqn:E; [|done].
  intros Hrun. rewrite (Hm _ _ _ extra E). by apply Hk.
Qed.

Lemma framed_pop : framed list_pop.
Proof.
  intros stack x rest extra Hpop. apply list_pop_inv in Hpop as ->.
  rewrite app_assoc. apply list_pop_snoc.
Qed.

Lemma framed_foldM {A B} (f : A -> B -> M (list Tensor) A) l :
  (forall a b, framed (f a b)) -> forall a, framed (foldM f l a).
Proof.
  intros Hf. induction l as [|b l IH]; intros a; simpl.
  - apply framed_ret.
  - apply framed_bind; [apply Hf|apply IH].
Qed.

Lemma framed_pop_concat_apply conv x : framed (pop_concat_apply conv x).
Proof.
  unfold pop_concat_apply. apply framed_bind; [apply framed_pop|].
  intros skip. apply framed_bind; intros; apply framed_lift.
Qed.

(** C5 (amended).  [Decoder.forward] never checks that the stack is
    drained: a pass that succeeds on a stack succeeds in the same way, with
    the same image and without any error, on that stack with surplus
    tensors beneath it, and the surplus is left on the stack. *)
Theorem Decoder_forward_leaves_surplus (self : Decoder) latent stack extra relit rest :
  Decoder_forward self latent stack = (Ok relit, rest) ->
  Decoder_forward self latent (extra ++ stack) = (Ok relit, extra ++ rest).
Proof.
  revert stack relit rest extra. change (framed (Decoder_forward self latent)).
  unfold Decoder_forward, DecBottleneckConv_forward, DecDoubleConv_forward.
  repeat first
    [ apply framed_bind; [|intros ?]
    | apply framed_foldM; intros ? ?
    | apply framed_pop_concat_apply
    | apply framed_pop
    | apply framed_lift ].
Qed.

(** ** No leakage between encoder passes *)

Lemma maintains_ret {A} I (a : A) : maintains I (ret a).
Proof. intros st res st' HI. unfold ret. by intros [= _ <-]. Qed.

Lemma maintains_lift {A} I (r : result A) : maintains I (lift r).
Proof. intros st res st' HI. unfold lift. by intros [= _ <-]. Qed.

Lemma maintains_bind {A B} I (m : M World A) (k : A -> M World B) :
  maintains I m -> (forall a, maintains I (k a)) -> maintains I (bind m k).
Proof.
  intros Hm Hk st res st' HI. unfold bind.
  destruct (m st) as [[a|e] s1] eqn:E.
  - apply (Hk a). by eapply Hm.
  - intros [= _ <-]. by eapply Hm.
Qed.

Lemma maintains_foldM {A B} I (f : A -> B -> M World A) l :
  (forall a b, maintains I (f a b)) -> forall a, maintains I (foldM f l a).
Proof.
  intros Hf. induction l as [|b l IH]; intros a; simpl.
  - apply maintains_ret.
  - apply maintains_bind; [apply Hf|apply IH].
Qed.

Lemma encoding_inv_rebound b H0 p L st :
  p <> the_encoder -> encoding_inv b H0 st -> encoding_inv b H0 (rebound p L st).
Proof.
  intros Hp (Hb & Hold & r & Hr & Hrange & Hsome). unfold rebound.
  split; [simpl; lia|]. split.
  - intros r' Hr'. simpl. rewrite lookup_insert_ne by lia. by apply Hold.
  - exists r. simpl. rewrite lookup_insert_ne by done.
    split; [done|]. split; [lia|]. rewrite lookup_insert_ne by lia. done.
Qed.

Lemma encoding_inv_set_heap b H0 r L st :
  skip_connections st !! the_encoder = Some r ->
  encoding_inv b H0 st -> encoding_inv b H0 (set_heap st r L).
Proof.
  intros Hr (Hb & Hold & r' & Hr' & Hrange & Hsome).
  assert (r' = r) as -> by congruence.
  split; [done|]. split.
  - intros r0 Hr0. simpl. rewrite lookup_insert_ne by lia. by apply Hold.
  - exists r. simpl. split; [done|]. split; [done|]. rewrite lookup_insert_eq. eauto.
Qed.

Lemma ImageEncoding_forward_state self image st res st' :
  ImageEncoding_forward self image st = (res, st') ->
  st' = st \/ exists L, st' = rebound the_image_encoder L st.
Proof.
  unfold ImageEncoding_forward, bind, lift, new_list, set_attr.
  destruct (apply_block _ image) as [x|]; [|intros [= _ <-]; by left].
  destruct (torch_cat x image 1) as [e|]; [|intros [= _ <-]; by left].
  intros [= _ <-]. right. by eexists.
Qed.

Lemma sub_loop_state (p : Provider) (body : Tensor -> Block -> result Tensor) l :
  forall x st r stack res st',
    skip_connections st !! p = Some r -> heap st !! r = Some stack ->
    foldM (fun x module => bind (push_skip p x) (fun _ => lift (body x module))) l x st
    = (res, st') ->
    exists L, st' = set_heap st r L.
Proof.
  induction l as [|module l IH]; intros x st r stack res st' Hp Hr; simpl.
  - unfold ret. intros [= _ <-]. exists stack. by rewrite set_heap_id.
  - unfold bind at 1. unfold bind at 1.
    rewrite (push_skip_run st _ r stack x Hp Hr). unfold lift at 1.
    destruct (body x module) as [y|e].
    + intros Hrun.
      apply (IH y _ r (stack ++ [x])) in Hrun as (L & ->);
        [|done|simpl; apply lookup_insert_eq].
      exists L. by rewrite set_heap_twice.
    + intros [= _ <-]. eauto.
Qed.

Lemma EncBottleneckConv_forward_state self x st res st' :
  EncBottleneckConv_forward self x st = (res, st') ->
  exists L, st' = rebound the_bottleneck L st.
Proof.
  unfold EncBottleneckConv_forward. unfold bind at 1.
  rewrite reset_skip_connections_run. intros Hrun.
  apply (sub_loop_state the_bottleneck (fun x module => apply_block module x)
           _ _ _ (next_loc st) []) in Hrun as (L & ->);
    [|simpl; apply lookup_insert_eq..].
  exists L. unfold set_heap, rebound. simpl. by rewrite insert_insert_eq.
Qed.

Lemma EncDoubleConv_forward_state self x st res st' :
  EncDoubleConv_forward self x st = (res, st') ->
  exists L, st' = rebound (the_double_conv (EncDoubleConv_index self)) L st.
Proof.
  unfold EncDoubleConv_forward. unfold bind at 1.
  rewrite reset_skip_connections_run.
  erewrite bind_ok; [|apply push_skip_run; simpl; apply lookup_insert_eq].
  unfold bind at 1, lift at 1.
  destruct (apply_block _ x) as [x1|].
  - erewrite bind_ok; [|apply push_skip_run; simpl; apply lookup_insert_eq].
    unfold lift. intros [= _ <-]. eexists. unfold set_heap, rebound. simpl.
    by rewrite !insert_insert_eq.
  - intros [= _ <-]. eexists. unfold set_heap, rebound. simpl.
    by rewrite !insert_insert_eq.
Qed.

Lemma extend_skip_maintains b H0 q :
  maintains (encoding_inv b H0) (extend_skip the_encoder q).
Proof.
  intros st res st' HI.
  destruct HI as (Hb & Hold & r & Hr & Hrange & Hsome).
  assert (encoding_inv b H0 st) as HI by (split; [done|]; split; [done|]; eauto).
  unfold extend_skip, get_skip_connections, list_iadd, bind, get_attr, read_list,
    write_list, set_attr.
  rewrite Hr. destruct (skip_connections st !! q) as [r'|]; [|by intros [= _ <-]].
  destruct Hsome as [l Hl]. rewrite Hl.
  destruct (heap st !! r') as [l'|]; [|by intros [= _ <-]].
  intros [= _ <-].
  pose proof (encoding_inv_set_heap b H0 r (l ++ l') st Hr HI) as (Hb' & Hold' & Hex).
  split; [done|]. split; [done|].
  exists r. simpl. rewrite lookup_insert_eq. split; [done|]. split; [done|].
  rewrite lookup_insert_eq. eauto.
Qed.

Lemma Encoder_forward_inv self image st res st' :
  Encoder_forward self image st = (res, st') ->
  encoding_inv (next_loc st) (heap st) st'.
Proof.
  unfold Encoder_forward.
  rewrite (bind_ok _ _ _ _ _ (reset_skip_connections_run _ _)). cbv beta.
  set (I := encoding_inv (next_loc st) (heap st)).
  match goal with |- ?m ?s = _ -> _ =>
    cut (maintains I m);
      [intros Hm Hrun; apply (Hm s res st'); [|exact Hrun]|]
  end.
  { split; [simpl; lia|]. split.
    - intros r Hr. simpl. by rewrite lookup_insert_ne by lia.
    - exists (next_loc st). simpl. rewrite !lookup_insert_eq.
      split; [done|]. split; [lia|eauto]. }
  apply maintains_bind.
  { intros s res1 s1 HI Hrun.
    apply ImageEncoding_forward_state in Hrun as [->|[L ->]]; [done|].
    by apply encoding_inv_rebound. }
  intros x. apply maintains_bind; [apply extend_skip_maintains|]. intros _.
  apply maintains_bind.
  { apply maintains_foldM. intros a dc. apply maintains_bind.
    - intros s res1 s1 HI Hrun.
      apply EncDoubleConv_forward_state in Hrun as [L ->].
      by apply encoding_inv_rebound.
    - intros y. apply maintains_bind; [apply extend_skip_maintains|].
      intros _. apply maintains_ret. }
  intros y. apply maintains_bind.
  { intros s res1 s1 HI Hrun.
    apply EncBottleneckConv_forward_state in Hrun as [L ->].
    by apply encoding_inv_rebound. }
  intros z. apply maintains_bind; [apply extend_skip_maintains|].
  intros _. apply maintains_ret.
Qed.

Lemma Encoder_forward_extends self image st res st' :
  Encoder_forward self image st = (res, st') -> extends st st'.
Proof.
  intros Hrun. apply Encoder_forward_inv in Hrun as (Hb & Hold & _). by split.
Qed.

Lemma list_setitem_state r i x st res st' :
  list_setitem r i x st = (res, st') ->
  st' = st \/ exists L, st' = set_heap st r L.
Proof.
  unfold list_setitem, bind, read_list, write_list, raise.
  destruct (heap st !! r) as [l|]; [|intros [= _ <-]; by left].
  destruct (_ && _); intros [= _ <-]; eauto.
Qed.

Lemma disable_loop_state (disabled : list Z) : forall st r l res st',
  skip_connections st !! the_encoder = Some r -> heap st !! r = Some l ->
  forM_ (fun i => bind (get_attr the_encoder) (fun r => list_setitem r i EMPTY_TENSOR))
        disabled st = (res, st') ->
  exists L, st' = set_heap st r L.
Proof.
  induction disabled as [|i disabled IH]; intros st r l res st' Hr Hl; simpl.
  - unfold ret. intros [= _ <-]. exists l. by rewrite set_heap_id.
  - unfold bind at 1. unfold bind at 1, get_attr at 1. rewrite Hr.
    destruct (list_setitem r i EMPTY_TENSOR st) as [[[]|e] s1] eqn:E.
    + apply list_setitem_state in E as [->|[L ->]].
      * by apply (IH st r l).
      * intros Hrun. apply (IH _ r L) in Hrun as [L' ->];
          [|done|simpl; apply lookup_insert_eq].
        exists L'. by rewrite set_heap_twice.
    + intros [= _ <-]. apply list_setitem_state in E as [->|[L ->]]; [|by eauto].
      exists l. by rewrite set_heap_id.
Qed.

(** After an encoder pass, [get_skip_connections] returns the list object
    created by that pass, and changes nothing but the content of that
    object. *)
Lemma Encoder_get_skip_connections_state self b H0 st res st' :
  encoding_inv b H0 st ->
  Encoder_get_skip_connections self st = (res, st') ->
  exists r L, skip_connections st !! the_encoder = Some r
              /\ b <= r < next_loc st
              /\ st' = set_heap st r L
              /\ forall r', res = Ok r' -> r' = r.
Proof.
  intros (Hb & Hold & r & Hr & Hrange & [l Hl]). unfold Encoder_get_skip_connections.
  unfold bind.
  destruct (forM_ _ _ st) as [[[]|e] s1] eqn:E;
    apply (disable_loop_state _ st r l) in E as [L ->]; try done.
  - unfold get_attr. simpl. rewrite Hr. intros [= <- <-].
    exists r, L. repeat split; try done; try lia. by intros r' [= <-].
  - intros [= <- <-]. exists r, L. repeat split; try done; lia.
Qed.

Lemma image_stack_survives self image target groundtruth st il st1 r st2 rt st3 rg st4 :
  Encoder_forward (encode self) image st = (Ok il, st1) ->
  Encoder_get_skip_connections (encode self) st1 = (Ok r, st2) ->
  Encoder_forward (encode self) target st2 = (rt, st3) ->
  Encoder_forward (encode self) groundtruth st3 = (rg, st4) ->
  is_Some (heap st2 !! r)
  /\ heap st3 !! r = heap st2 !! r
  /\ heap st4 !! r = heap st2 !! r.
Proof.
  intros H1 H2 H3 H4.
  apply Encoder_forward_inv in H1.
  destruct (Encoder_get_skip_connections_state _ _ _ _ _ _ H1 H2)
    as (r0 & L & Hr0 & Hrange & -> & Hres).
  rewrite (Hres r eq_refl) in *. clear Hres.
  apply Encoder_forward_extends in H3 as [Hn3 Hold3].
  apply Encoder_forward_extends in H4 as [Hn4 Hold4].
  simpl in *. split; [rewrite lookup_insert_eq; eauto|].
  split.
  - apply Hold3. lia.
  - rewrite Hold4 by lia. apply Hold3. lia.
Qed.

Lemma bind_raise {S A B} (m : M S A) (k : A -> M S B) s e s' :
  m s = (Raise e, s') -> bind m k s = (Raise e, s').
Proof. intros H. unfold bind. by rewrite H. Qed.

Lemma bind_lift {S A B} (r : result A) (k : A -> M S B) s :
  bind (lift r) k s = match r with Ok a => k a s | Raise e => (Raise e, s) end.
Proof. by destruct r. Qed.

Lemma with_list_snapshot {A} r stack (m : M (list Tensor) A) st :
  heap st !! r = Some stack -> with_list r m st = decode_snapshot r stack m st.
Proof. intros H. unfold with_list, decode_snapshot. by rewrite H. Qed.

(** C6.  [SwapNet.forward] is the orchestration the specification words:
    one decoding step, on the latent assembled from (image scene, target
    light) and on the image's skip stack as it was retrieved right after
    the image was encoded; the list object retrieved then is not touched by
    the encoder passes on the target and on the ground truth; and the
    result is the relit image, then the three light components, then the
    three scene components. *)
Theorem SwapNet_forward_decodes_image_stack self image target groundtruth st :
  SwapNet_forward self image target groundtruth st
  = SwapNet_reading self image target groundtruth st
  /\ forall il st1 r st2 rt st3 rg st4,
       Encoder_forward (encode self) image st = (Ok il, st1) ->
       Encoder_get_skip_connections (encode self) st1 = (Ok r, st2) ->
       Encoder_forward (encode self) target st2 = (rt, st3) ->
       Encoder_forward (encode self) groundtruth st3 = (rg, st4) ->
       is_Some (heap st2 !! r)
       /\ heap st3 !! r = heap st2 !! r
       /\ heap st4 !! r = heap st2 !! r.
Proof.
  split; [|intros; by eapply image_stack_survives].
  unfold SwapNet_forward, SwapNet_reading.
  destruct (Encoder_forward (encode self) image st) as [[il|e] st1] eqn:E1;
    [|by rewrite !(bind_raise _ _ _ _ _ E1)].
  rewrite !(bind_ok _ _ _ _ _ E1).
  destruct (Encoder_get_skip_connections (encode self) st1) as [[r|e] st2] eqn:E2;
    [|by rewrite !(bind_raise _ _ _ _ _ E2)].
  rewrite !(bind_ok _ _ _ _ _ E2).
  destruct (Encoder_forward (encode self) target st2) as [rt st3] eqn:E3.
  destruct (Encoder_forward (encode self) groundtruth st3) as [rg st4] eqn:E4.
  destruct (image_stack_survives _ _ _ _ _ _ _ _ _ _ _ _ _ E1 E2 E3 E4)
    as ([stack Hstack] & _ & Hkeep).
  rewrite Hstack in Hkeep.
  assert (read_list r st2 = (Ok stack, st2)) as Hread.
  { unfold read_list. by rewrite Hstack. }
  rewrite (bind_ok (read_list r) _ _ _ _ Hread).
  destruct rt as [tl|e]; [|by rewrite !(bind_raise _ _ _ _ _ E3)].
  rewrite !(bind_ok _ _ _ _ _ E3).
  destruct rg as [gl|e]; [|by rewrite !(bind_raise _ _ _ _ _ E4)].
  rewrite !(bind_ok _ _ _ _ _ E4).
  rewrite !bind_lift.
  destruct (split (codec self) il) as [[image_scene image_light]|]; [|done].
  cbv beta iota. rewrite !bind_lift.
  destruct (split (codec self) tl) as [[target_scene target_light]|]; [|done].
  cbv beta iota. rewrite !bind_lift.
  destruct (split (codec self) gl) as [[groundtruth_scene groundtruth_light]|]; [|done].
  cbv beta iota. rewrite !bind_lift. cbn [fst snd].
  destruct (assemble (codec self) image_scene target_light) as [swapped|]; [|done].
  cbv beta iota. unfold bind. by rewrite (with_list_snapshot _ _ _ _ Hkeep).
Qed.

(** C9.  [GroundtruthEnvmapSwapNet.forward] does not depend on its
    ground-truth argument: any two ground truths give the same results and
    the same final state, namely those of the orchestration that encodes
    only the image and the target, assembles the swapped latent from (None,
    target light) and decodes it against the image's skip stack. *)
Theorem GroundtruthEnvmapSwapNet_ignores_groundtruth self image target
    groundtruth groundtruth' st :
  GroundtruthEnvmapSwapNet_forward self image target groundtruth st
  = GroundtruthEnvmapSwapNet_forward self image target groundtruth' st
  /\ GroundtruthEnvmapSwapNet_forward self image target groundtruth st
     = GroundtruthEnvmapSwapNet_reading self image target st.
Proof.
  split; [reflexivity|].
  unfold GroundtruthEnvmapSwapNet_forward, GroundtruthEnvmapSwapNet_reading.
  destruct (Encoder_forward (encode self) image st) as [[il|e] st1] eqn:E1;
    [|by rewrite !(bind_raise _ _ _ _ _ E1)].
  rewrite !(bind_ok _ _ _ _ _ E1).
  destruct (Encoder_get_skip_connections (encode self) st1) as [[r|e] st2] eqn:E2;
    [|by rewrite !(bind_raise _ _ _ _ _ E2)].
  rewrite !(bind_ok _ _ _ _ _ E2).
  destruct (Encoder_forward (encode self) target st2) as [rt st3] eqn:E3.
  destruct (Encoder_forward (encode self) image st3) as [rg st4] eqn:E4.
  destruct (image_stack_survives _ _ _ _ _ _ _ _ _ _ _ _ _ E1 E2 E3 E4)
    as ([stack Hstack] & Hkeep & _). clear E4.
  rewrite Hstack in Hkeep.
  assert (read_list r st2 = (Ok stack, st2)) as Hread.
  { unfold read_list. by rewrite Hstack. }
  rewrite (bind_ok (read_list r) _ _ _ _ Hread).
  rewrite !bind_lift.
  destruct (split (codec self) il) as [[image_scene image_light]|]; [|done].
  cbv beta iota.
  destruct rt as [tl|e]; [|by rewrite !(bind_raise _ _ _ _ _ E3)].
  rewrite !(bind_ok _ _ _ _ _ E3). rewrite !bind_lift.
  destruct (split (codec self) tl) as [[target_scene target_light]|]; [|done].
  cbv beta iota. rewrite !bind_lift. cbn [fst snd].
  destruct (assemble (codec self) None target_light) as [swapped|]; [|done].
  cbv beta iota. unfold bind. by rewrite (with_list_snapshot _ _ _ _ Hkeep).
Qed.

(** ** Disabled skip connections *)

Lemma list_setitem_run st r l (i : Z) x :
  heap st !! r = Some l -> (0 <= i < Z.of_nat (length l))%Z ->
  list_setitem r i x st = (Ok tt, set_heap st r (<[Z.to_nat i := x]> l)).
Proof.
  intros Hr Hi. unfold list_setitem, bind, read_list. rewrite Hr.
  destruct (Z.ltb_spec i 0); [lia|].
  destruct (Z.leb_spec 0 i); [|lia].
  destruct (Z.ltb_spec i (Z.of_nat (length l))); [|lia]. reflexivity.
Qed.

Lemma with_placeholders_length disabled : forall stack,
  length (with_placeholders stack disabled) = length stack.
Proof.
  induction disabled as [|i disabled IH]; intros stack; simpl; [done|].
  unfold with_placeholders in *. simpl. by rewrite IH, length_insert.
Qed.

Lemma with_placeholders_lookup disabled : forall stack j,
  Forall (fun i => 0 <= i)%Z disabled ->
  j < length stack ->
  with_placeholders stack disabled !! j
  = if bool_decide (Z.of_nat j ∈ disabled) then Some EMPTY_TENSOR else stack !! j.
Proof.
  induction disabled as [|i disabled IH]; intros stack j Hnn Hj.
  - unfold with_placeholders. cbn [foldl].
    rewrite bool_decide_eq_false_2; [done|]. apply not_elem_of_nil.
  - inversion Hnn as [|? ? Hi Hrest]; subst.
    unfold with_placeholders in *. cbn [foldl].
    rewrite IH by (rewrite ?length_insert; done).
    destruct (decide (Z.of_nat j ∈ disabled)) as [Hin|Hnin].
    + rewrite !bool_decide_eq_true_2; [done| |done]. apply elem_of_cons. by right.
    + rewrite (bool_decide_eq_false_2 _ Hnin).
      destruct (decide (Z.of_nat j = i)) as [<-|Hne].
      * rewrite bool_decide_eq_true_2 by (apply elem_of_cons; by left).
        rewrite Nat2Z.id. by apply list_lookup_insert_eq.
      * rewrite bool_decide_eq_false_2.
        -- apply list_lookup_insert_ne. lia.
        -- intros Hin. apply elem_of_cons in Hin as [?|?]; done.
Qed.

Lemma disable_loop_run disabled : forall st r stack,
  skip_connections st !! the_encoder = Some r -> heap st !! r = Some stack ->
  Forall (fun i => 0 <= i < Z.of_nat (length stack))%Z disabled ->
  forM_ (fun i => bind (get_attr the_encoder) (fun r => list_setitem r i EMPTY_TENSOR))
        disabled st
  = (Ok tt, set_heap st r (with_placeholders stack disabled)).
Proof.
  induction disabled as [|i disabled IH]; intros st r stack Hr Hl Hall; simpl.
  - unfold ret. by rewrite set_heap_id.
  - inversion Hall as [|? ? Hi Hrest]; subst.
    unfold bind at 1. unfold bind at 1, get_attr at 1. rewrite Hr.
    rewrite (list_setitem_run st r stack i _ Hl Hi).
    rewrite (IH _ r (<[Z.to_nat i := EMPTY_TENSOR]> stack)).
    + by rewrite set_heap_twice.
    + done.
    + simpl. apply lookup_insert_eq.
    + by rewrite length_insert.
Qed.

Lemma Encoder_get_skip_connections_run self st r stack :
  skip_connections st !! the_encoder = Some r -> heap st !! r = Some stack ->
  Forall (fun i => 0 <= i < Z.of_nat (length stack))%Z
         (Encoder_disabled_skip_connections self) ->
  Encoder_get_skip_connections self st
  = (Ok r, set_heap st r
             (with_placeholders stack (Encoder_disabled_skip_connections self))).
Proof.
  intros Hr Hl Hall. unfold Encoder_get_skip_connections.
  erewrite bind_ok by (by apply disable_loop_run).
  unfold get_attr. simpl. by rewrite Hr.
Qed.

(** *** Channel counts fixed by the decoder's constructor *)

Lemma channels_in_layer_reflected (n : Z) disabled start layer k c s :
  k = (layer + start)%Z ->
  channels_in_layer
    (map (fun i => i - start)%Z (map (fun i => n - 1 - i)%Z disabled))
    layer c s
  = skip_channels n disabled k c s.
Proof.
  intros ->. unfold channels_in_layer, skip_channels.
  destruct (decide ((n - 1 - (layer + start))%Z ∈ disabled)) as [Hin|Hnin].
  - rewrite (bool_decide_eq_true_2 _ Hin).
    replace (existsb _ _) with true; [done|]. symmetry. apply existsb_exists.
    exists layer. split; [|apply Z.eqb_refl].
    apply list_elem_of_In, list_elem_of_fmap. exists (layer + start)%Z. split; [lia|].
    apply list_elem_of_fmap. exists (n - 1 - (layer + start))%Z. split; [lia|done].
  - rewrite (bool_decide_eq_false_2 _ Hnin).
    destruct (existsb _ _) eqn:E; [|done]. exfalso. apply Hnin.
    apply existsb_exists in E as (y & Hy & Heq). apply Z.eqb_eq in Heq as <-.
    apply list_elem_of_In, list_elem_of_fmap in Hy as (z & -> & Hz).
    apply list_elem_of_fmap in Hz as (i & -> & Hi).
    by replace (n - 1 - (n - 1 - i - start + start))%Z with i by lia.
Qed.

Lemma channel_law_app ch k l1 l2 :
  channel_law ch k (l1 ++ l2)
  = channel_law ch k l1 ++ channel_law ch (k + Z.of_nat (length l1))%Z l2.
Proof.
  revert k. induction l1 as [|[c s] l1 IH]; intros k; simpl.
  - by rewrite Z.add_0_r.
  - rewrite IH. do 3 f_equal. lia.
Qed.

Lemma channel_law_length ch k table : length (channel_law ch k table) = length table.
Proof. revert k. induction table as [|[c s] t IH]; intros k; simpl; [done|]. by rewrite IH. Qed.

Lemma channel_law_lookup ch table : forall k j,
  channel_law ch k table !! j
  = (fun cs => ch (k + Z.of_nat j)%Z cs.1 cs.2) <$> table !! j.
Proof.
  induction table as [|[c s] t IH]; intros k [|j]; simpl; try done.
  - by rewrite Z.add_0_r.
  - rewrite IH. destruct (t !! j); simpl; [|done]. do 2 f_equal. lia.
Qed.

Lemma channel_law_repeat ch c s m : forall a k,
  channel_law ch (k + Z.of_nat a)%Z (repeat (c, s) m)
  = map (fun i => ch (k + Z.of_nat i)%Z c s) (seq a m).
Proof.
  induction m as [|m IH]; intros a k; simpl; [done|]. f_equal.
  rewrite <- IH. f_equal. lia.
Qed.

Lemma channel_law_pairs ch (f : nat -> nat) m : forall a k,
  channel_law ch (k + 2 * Z.of_nat a)%Z
    (concat (map (fun j => [(f j, f j); (f j, f j)]) (seq a m)))
  = concat (map (fun j => [ch (k + 2 * Z.of_nat j)%Z (f j) (f j);
                           ch (k + 2 * Z.of_nat j + 1)%Z (f j) (f j)])
                (seq a m)).
Proof.
  induction m as [|m IH]; intros a k; simpl; [done|]. do 2 f_equal.
  rewrite <- IH. f_equal. lia.
Qed.

Lemma Decoder_layer_channels_length (nd depth : Z) :
  (0 <= nd)%Z -> (3 <= depth)%Z ->
  Z.of_nat (length (Decoder_layer_channels nd depth)) = (1 + nd * 2 + (depth - 1))%Z.
Proof.
  intros Hnd Hd. unfold Decoder_layer_channels, range.
  rewrite !length_app, repeat_length. simpl.
  assert (forall (g : nat -> list (nat * nat)) l,
            (forall j, length (g j) = 2) -> length (concat (map g l)) = 2 * length l) as Hc.
  { intros g l Hg. induction l as [|j l IH]; simpl; [done|].
    rewrite length_app, Hg, IH. lia. }
  rewrite Hc by done. rewrite length_seq. lia.
Qed.

(** The channel law of a decoder built for an encoder with [n] skip
    positions: the layer that performs the [k]-th pop takes the
    un-augmented count exactly when position [n - 1 - k] is disabled. *)
Lemma Decoder_layers_in_channels (n nd depth : Z) (kernel : nat) (D : list Z) dec :
  (0 <= nd)%Z -> (3 <= depth)%Z ->
  Decoder_init nd depth kernel (Some (map (fun i => n - 1 - i)%Z D)) = Ok dec ->
  map in_channels (Decoder_layers dec)
  = channel_law (skip_channels n D) 0 (Decoder_layer_channels nd depth).
Proof.
  intros Hnd Hd. unfold Decoder_init, DecBottleneckConv_init.
  destruct (Z.leb_spec 2 depth) as [_|]; [|lia]. cbn [negb].
  rewrite bool_decide_eq_true_2 by reflexivity. cbn [negb rbind].
  intros [= <-]. unfold Decoder_layers, Decoder_layer_channels.
  unfold SkipConnectionReceiver_init.
  unfold Output_init, SkipConnectionReceiver_init.
  cbn [Decoder_bottleneck Decoder_double_convolutions Decoder_output
       initial_conv convs out_conv Output_block].
  rewrite !map_app, !channel_law_app. cbn [map channel_law length].
  rewrite repeat_length.
  change (512 / 2) with 256.
  cbn [conv_block up_conv_block in_channels].
  rewrite !(channels_in_layer_reflected n D _ _ _ _ _ eq_refl).
  apply (f_equal2 app); [reflexivity|].
  apply (f_equal2 app).
  { unfold range. rewrite map_map. cbn [conv_block in_channels].
    replace (0 + Z.of_nat 1)%Z with (1 + Z.of_nat 0)%Z by lia.
    rewrite (channel_law_repeat _ 512 512 _ 0 1%Z).
    apply map_ext. intros i.
    rewrite (channels_in_layer_reflected n D _ _ (1 + Z.of_nat i)%Z) by lia.
    done. }
  apply (f_equal2 app).
  { do 2 f_equal. lia. }
  assert (forall (g : nat -> list (nat * nat)) l,
            (forall j, length (g j) = 2) -> length (concat (map g l)) = 2 * length l) as Hc.
  { intros g l Hg. induction l as [|j l IH]; simpl; [done|].
    rewrite length_app, Hg, IH. lia. }
  apply (f_equal2 app).
  { unfold build_decoder_convolutions_block, range. rewrite map_map.
    set (base := (0 + Z.of_nat 1 + Z.of_nat (Z.to_nat (depth - 3)) + Z.of_nat 1)%Z).
    replace base with (base + 2 * Z.of_nat 0)%Z by lia.
    rewrite (channel_law_pairs _ (fun j => 256 / 2 ^ j)).
    rewrite concat_map, map_map. f_equal. apply map_ext. intros j. cbn [map].
    unfold DecDoubleConv_init, SkipConnectionReceiver_init.
    cbn [DecDoubleConv_conv1 DecDoubleConv_conv2].
    cbn [conv_block up_conv_block in_channels].
    rewrite (channels_in_layer_reflected n D _ 0 (base + 2 * Z.of_nat j)%Z)
      by (unfold base; lia).
    rewrite (channels_in_layer_reflected n D _ 1 (base + 2 * Z.of_nat j + 1)%Z)
      by (unfold base; lia).
    done. }
  do 2 f_equal. rewrite Hc by done. unfold range. rewrite length_seq. lia.
Qed.

Lemma Decoder_init_accepts (nd depth : Z) (kernel : nat) disabled :
  (2 <= depth)%Z -> exists dec, Decoder_init nd depth kernel disabled = Ok dec.
Proof.
  intros Hd. unfold Decoder_init, DecBottleneckConv_init.
  destruct (Z.leb_spec 2 depth) as [_|]; [|lia]. cbn [negb].
  rewrite bool_decide_eq_true_2 by reflexivity. cbn [negb rbind]. eauto.
Qed.

Lemma Decoder_layers_lookup (n nd depth : Z) (kernel : nat) (D : list Z) dec k :
  (0 <= nd)%Z -> (3 <= depth)%Z ->
  Decoder_init nd depth kernel (Some (map (fun i => n - 1 - i)%Z D)) = Ok dec ->
  in_channels <$> (Decoder_layers dec !! k)
  = (fun cs => skip_channels n D (Z.of_nat k) cs.1 cs.2)
      <$> (Decoder_layer_channels nd depth !! k).
Proof.
  intros Hnd Hd Hdec. rewrite <- list_lookup_fmap.
  change (in_channels <$> Decoder_layers dec) with (map in_channels (Decoder_layers dec)).
  rewrite (Decoder_layers_in_channels n nd depth kernel D dec Hnd Hd Hdec).
  by rewrite channel_law_lookup, Z.add_0_l.
Qed.

Lemma Decoder_layers_length (nd depth : Z) (kernel : nat) (D : list Z) (n : Z) dec :
  (0 <= nd)%Z -> (3 <= depth)%Z ->
  Decoder_init nd depth kernel (Some (map (fun i => n - 1 - i)%Z D)) = Ok dec ->
  Z.of_nat (length (Decoder_layers dec)) = (1 + nd * 2 + (depth - 1))%Z.
Proof.
  intros Hnd Hd Hdec.
  rewrite <- (length_map in_channels).
  rewrite (Decoder_layers_in_channels n nd depth kernel D dec Hnd Hd Hdec).
  rewrite channel_law_length. by apply Decoder_layer_channels_length.
Qed.

(** *** Layers other than the consumer of a re-enabled index *)

Lemma Decoder_prefix_all (self : Decoder) latent stack :
  Decoder_prefix self (length (Decoder_layers self)) latent stack
  = Decoder_forward self latent stack.
Proof.
  unfold Decoder_prefix. by rewrite firstn_all, Decoder_forward_layers.
Qed.

(** The layers of a decoder differ from those of a decoder built with
    another list of disabled indices by their input channel counts only. *)
Lemma Decoder_layers_without_in_channels (nd depth : Z) (kernel : nat) dl dl' dec dec' :
  Decoder_init nd depth kernel dl = Ok dec ->
  Decoder_init nd depth kernel dl' = Ok dec' ->
  DecBottleneckConv_encode (Decoder_bottleneck dec')
  = DecBottleneckConv_encode (Decoder_bottleneck dec)
  /\ map without_in_channels (Decoder_layers dec')
     = map without_in_channels (Decoder_layers dec).
Proof.
  unfold Decoder_init, DecBottleneckConv_init.
  destruct (negb (2 <=? depth)%Z); [done|].
  destruct (negb (bool_decide (512 = 16 * 32))); [done|]. cbn [rbind].
  intros [= <-] [= <-]. split; [reflexivity|].
  unfold Decoder_layers.
  cbn [Decoder_bottleneck Decoder_double_convolutions Decoder_output
       initial_conv convs out_conv Output_block].
  unfold build_decoder_convolutions_block, Output_init, DecDoubleConv_init.
  rewrite !map_app, !concat_map, !map_map. reflexivity.
Qed.

Lemma block_eq_without_in_channels (b b' : Block) :
  without_in_channels b' = without_in_channels b ->
  in_channels b' = in_channels b -> b' = b.
Proof.
  destruct b, b'. unfold without_in_channels. simpl. intros [= -> -> -> -> -> ->] ->.
  reflexivity.
Qed.

Lemma pop_concat_apply_value conv x stack skip :
  pop_concat_apply conv x (stack ++ [skip])
  = (rbind (channel_concat x skip) (apply_block conv), stack).
Proof.
  unfold pop_concat_apply. rewrite (bind_ok _ _ _ _ _ (list_pop_snoc stack skip)).
  cbv beta. rewrite bind_lift. by destruct (channel_concat x skip).
Qed.

(** What leaves a run of layers does not depend on the tensors below the
    ones the layers pop. *)
Lemma layers_value_framed layers : forall x below top,
  length layers <= length top ->
  (foldM (fun x conv => pop_concat_apply conv x) layers x (below ++ top)).1
  = (foldM (fun x conv => pop_concat_apply conv x) layers x top).1.
Proof.
  induction layers as [|conv layers IH]; intros x below top Hlen; [done|].
  destruct top as [|t top0 _] using rev_ind; [simpl in Hlen; lia|].
  rewrite length_app in Hlen. simpl in Hlen.
  cbn [foldM]. unfold bind.
  rewrite app_assoc, !pop_concat_apply_value.
  destruct (rbind (channel_concat x t) (apply_block conv)) as [y|e]; [|done].
  apply IH. lia.
Qed.

(** C3 (amended).  For a network with at least three bottleneck layers and
    a set [D] of valid disabled encoder indices:
    - the skip stack returned by [Encoder.get_skip_connections] keeps its
      length and order, holds the zero-length placeholder at exactly the
      positions of [D] and the produced tensors elsewhere;
    - the decoder has one layer per stack position, its forward pass pops
      once per layer in the order of [Decoder_layers], and the layer that
      performs the [k]-th pop (which consumes position [n-1-k]) is built
      with the un-augmented input channel count exactly when that position
      is disabled, and with the count augmented by the skip channels
      otherwise;
    - hence re-enabling one index [i] of [D] changes the input channel count
      of the one layer [n-1-i], from the un-augmented to the augmented
      count, and of no other layer;
    - and relative to the network built with [i] enabled: the encoder
      computes the same (its forward pass never reads the disabled
      indices), the first block of the decoder and every layer other than
      layer [n-1-i] are the same blocks, and on stacks that agree above
      position [i] (as the two retrieved stacks do) the value that leaves
      each of the layers run before layer [n-1-i] is the same.
    The consuming layer and the layers after it are fed different tensors;
    nothing is said about their values. *)
Theorem disabled_skip_connection_effect (c : Codec) (nd depth : Z) (kernel : nat)
    (D : list Z) :
  let n := (1 + nd * 2 + (depth - 1))%Z in
  (0 <= nd)%Z -> (3 <= depth)%Z -> Forall (fun i => 0 <= i < n)%Z D ->
  exists net,
    SwapNet_init c nd depth kernel (Some D) = Ok net
    /\ (forall st r stack,
          skip_connections st !! the_encoder = Some r ->
          heap st !! r = Some stack ->
          Z.of_nat (length stack) = n ->
          exists stack',
            Encoder_get_skip_connections (encode net) st
            = (Ok r, set_heap st r stack')
            /\ length stack' = length stack
            /\ forall j, j < length stack ->
                 stack' !! j = if bool_decide (Z.of_nat j ∈ D)
                               then Some EMPTY_TENSOR else stack !! j)
    /\ Z.of_nat (length (Decoder_layers (decode net))) = n
    /\ (forall latent stack,
          Decoder_forward (decode net) latent stack
          = bind (lift (apply_block
                          (DecBottleneckConv_encode (Decoder_bottleneck (decode net)))
                          latent))
                 (foldM (fun x conv => pop_concat_apply conv x)
                        (Decoder_layers (decode net)))
                 stack)
    /\ (forall k cch sch,
          Decoder_layer_channels nd depth !! k = Some (cch, sch) ->
          in_channels <$> (Decoder_layers (decode net) !! k)
          = Some (if bool_decide ((n - 1 - Z.of_nat k)%Z ∈ D) then cch else cch + sch))
    /\ (forall i net' k cch sch,
          i ∈ D ->
          SwapNet_init c nd depth kernel (Some (filter (fun j => j <> i) D)) = Ok net' ->
          Decoder_layer_channels nd depth !! k = Some (cch, sch) ->
          (Z.of_nat k = (n - 1 - i)%Z ->
             in_channels <$> (Decoder_layers (decode net) !! k) = Some cch
             /\ in_channels <$> (Decoder_layers (decode net') !! k) = Some (cch + sch))
          /\ (Z.of_nat k <> (n - 1 - i)%Z ->
                in_channels <$> (Decoder_layers (decode net') !! k)
                = in_channels <$> (Decoder_layers (decode net) !! k)))
    /\ (forall i net',
          i ∈ D ->
          SwapNet_init c nd depth kernel (Some (filter (fun j => j <> i) D)) = Ok net' ->
          (forall image st,
             Encoder_forward (encode net') image st
             = Encoder_forward (encode net) image st)
          /\ DecBottleneckConv_encode (Decoder_bottleneck (decode net'))
             = DecBottleneckConv_encode (Decoder_bottleneck (decode net))
          /\ (forall k, Z.of_nat k <> (n - 1 - i)%Z ->
                Decoder_layers (decode net') !! k = Decoder_layers (decode net) !! k)
          /\ (forall st r stack,
                skip_connections st !! the_encoder = Some r ->
                heap st !! r = Some stack ->
                Z.of_nat (length stack) = n ->
                exists retrieved retrieved',
                  Encoder_get_skip_connections (encode net) st
                  = (Ok r, set_heap st r retrieved)
                  /\ Encoder_get_skip_connections (encode net') st
                     = (Ok r, set_heap st r retrieved')
                  /\ length retrieved = length stack
                  /\ length retrieved' = length stack
                  /\ forall j, Z.of_nat j <> i -> retrieved' !! j = retrieved !! j)
          /\ (forall latent stack stack' k,
                Z.of_nat (length stack) = n -> length stack' = length stack ->
                (forall j, (i < Z.of_nat j)%Z -> stack' !! j = stack !! j) ->
                (Z.of_nat k <= n - 1 - i)%Z ->
                (Decoder_prefix (decode net') k latent stack').1
                = (Decoder_prefix (decode net) k latent stack).1))
    /\ (forall latent stack,
          Decoder_prefix (decode net) (length (Decoder_layers (decode net))) latent stack
          = Decoder_forward (decode net) latent stack).
Proof.
  intros n Hnd Hd HD.
  assert (forall D', exists dec,
            Decoder_init nd depth kernel (Some (map (fun i => n - 1 - i)%Z D')) = Ok dec
            /\ SwapNet_init c nd depth kernel (Some D')
               = Ok {| encode := Encoder_init nd depth (Some D');
                       codec := c; decode := dec |}) as Hinit.
  { intros D'.
    destruct (Decoder_init_accepts nd depth kernel
                (Some (map (fun i => n - 1 - i)%Z D'))) as [dec Hdec]; [lia|].
    exists dec. split; [done|]. unfold SwapNet_init.
    cbn [default Encoder_get_number_of_possible_skip_connections Encoder_init
         n_skip_connections]. unfold n in Hdec. unfold id. by rewrite Hdec. }
  destruct (Hinit D) as (dec & Hdec & Hnet).
  eexists. split; [exact Hnet|]. cbn [encode decode].
  assert (forall k cch sch,
            Decoder_layer_channels nd depth !! k = Some (cch, sch) ->
            in_channels <$> (Decoder_layers dec !! k)
            = Some (if bool_decide ((n - 1 - Z.of_nat k)%Z ∈ D) then cch else cch + sch))
    as Hlaw.
  { intros k cch sch Hk.
    rewrite (Decoder_layers_lookup n nd depth kernel D dec k Hnd Hd Hdec), Hk. done. }
  split; [|split; [|split; [|split; [|split; [|split]]]]].
  - intros st r stack Hr Hstack Hlen.
    eexists. split.
    + apply Encoder_get_skip_connections_run; [done|done|].
      cbn [Encoder_init Encoder_disabled_skip_connections default]. by rewrite Hlen.
    + cbn [Encoder_init Encoder_disabled_skip_connections default].
      split; [apply with_placeholders_length|].
      intros j Hj. apply with_placeholders_lookup; [|done].
      eapply Forall_impl; [exact HD|]. simpl. lia.
  - by apply (Decoder_layers_length nd depth kernel D n dec).
  - intros latent stack. apply Decoder_forward_layers.
  - exact Hlaw.
  - intros i net' k cch sch Hi Hnet' Hk.
    destruct (Hinit (filter (fun j => j <> i) D)) as (dec' & Hdec' & Hnet'').
    rewrite Hnet'' in Hnet'. injection Hnet' as <-. cbn [decode].
    rewrite (Hlaw k cch sch Hk).
    rewrite (Decoder_layers_lookup n nd depth kernel _ dec' k Hnd Hd Hdec'), Hk.
    cbn [fmap option_fmap option_map fst snd]. unfold skip_channels.
    split.
    + intros Heq. replace (n - 1 - Z.of_nat k)%Z with i by lia.
      rewrite bool_decide_eq_true_2 by done.
      rewrite bool_decide_eq_false_2; [done|].
      intros Hin. apply list_elem_of_filter in Hin as [Hne _]. done.
    + intros Hne. f_equal.
      rewrite (bool_decide_ext ((n - 1 - Z.of_nat k)%Z ∈ filter (fun j => j <> i) D)
                 ((n - 1 - Z.of_nat k)%Z ∈ D)); [done|].
      rewrite list_elem_of_filter. split; [tauto|]. intros Hin. split; [lia|done].
  - intros i net' Hi Hnet'.
    destruct (Hinit (filter (fun j => j <> i) D)) as (dec' & Hdec' & Hnet'').
    rewrite Hnet'' in Hnet'. injection Hnet' as <-. cbn [encode decode].
    destruct (Decoder_layers_without_in_channels nd depth kernel _ _ dec dec' Hdec Hdec')
      as [Hencode Hshape].
    assert (forall k, Z.of_nat k <> (n - 1 - i)%Z ->
              Decoder_layers dec' !! k = Decoder_layers dec !! k) as Hsame.
    { intros k Hk.
      assert (in_channels <$> Decoder_layers dec' !! k
              = in_channels <$> Decoder_layers dec !! k) as Hin.
      { rewrite (Decoder_layers_lookup n nd depth kernel _ dec' k Hnd Hd Hdec').
        rewrite (Decoder_layers_lookup n nd depth kernel D dec k Hnd Hd Hdec).
        destruct (Decoder_layer_channels nd depth !! k) as [[cch sch]|]; [|done].
        cbn [fmap option_fmap option_map fst snd]. unfold skip_channels. f_equal.
        rewrite (bool_decide_ext ((n - 1 - Z.of_nat k)%Z ∈ filter (fun j => j <> i) D)
                   ((n - 1 - Z.of_nat k)%Z ∈ D)); [done|].
        rewrite list_elem_of_filter. split; [tauto|]. intros Hin. split; [lia|done]. }
      assert (without_in_channels <$> Decoder_layers dec' !! k
              = without_in_channels <$> Decoder_layers dec !! k) as Hwo.
      { rewrite <- !list_lookup_fmap.
        change (without_in_channels <$> Decoder_layers dec')
          with (map without_in_channels (Decoder_layers dec')).
        by rewrite Hshape. }
      destruct (Decoder_layers dec' !! k) as [b'|], (Decoder_layers dec !! k) as [b|];
        try done.
      cbn [fmap option_fmap option_map] in Hin, Hwo.
      apply (inj Some) in Hin. apply (inj Some) in Hwo.
      f_equal. apply block_eq_without_in_channels; [exact Hwo|exact Hin]. }
    split; [reflexivity|]. split; [exact Hencode|]. split; [exact Hsame|].
    split.
    { intros st r stack Hr Hstack Hlen.
      assert (Forall (fun i => 0 <= i < n)%Z (filter (fun j => j <> i) D)) as HD'.
      { apply Forall_forall. intros j Hj. apply list_elem_of_filter in Hj as [_ Hj].
        rewrite Forall_forall in HD. by apply HD. }
      exists (with_placeholders stack D),
             (with_placeholders stack (filter (fun j => j <> i) D)).
      split.
      { apply Encoder_get_skip_connections_run; [done|done|].
        cbn [Encoder_init Encoder_disabled_skip_connections default]. by rewrite Hlen. }
      split.
      { apply Encoder_get_skip_connections_run; [done|done|].
        cbn [Encoder_init Encoder_disabled_skip_connections default]. by rewrite Hlen. }
      split; [apply with_placeholders_length|].
      split; [apply with_placeholders_length|].
      intros j Hj. destruct (decide (j < length stack)) as [Hlt|Hge].
      - rewrite !with_placeholders_lookup;
          [|eapply Forall_impl; [exact HD|]; simpl; lia|done
           |eapply Forall_impl; [exact HD'|]; simpl; lia|done].
        rewrite (bool_decide_ext (Z.of_nat j ∈ filter (fun j => j <> i) D)
                   (Z.of_nat j ∈ D)); [done|].
        rewrite list_elem_of_filter. tauto.
      - rewrite !lookup_ge_None_2; [done|..]; rewrite with_placeholders_length; lia. }
    intros latent stack stack' k Hlen Hlen' Habove Hk.
    rewrite Forall_forall in HD. pose proof (HD i Hi) as Hirange.
    assert (take k (Decoder_layers dec') = take k (Decoder_layers dec)) as Htake.
    { apply list_eq. intros j. destruct (decide (j < k)) as [Hj|Hj].
      - rewrite !lookup_take_lt by done. apply Hsame. lia.
      - rewrite !lookup_take_ge by lia. done. }
    assert (drop (S (Z.to_nat i)) stack' = drop (S (Z.to_nat i)) stack) as Hdrop.
    { apply list_eq. intros j. rewrite !lookup_drop. apply Habove. lia. }
    unfold Decoder_prefix. rewrite !bind_lift, Hencode, Htake.
    destruct (apply_block _ latent) as [x|e]; [|done].
    rewrite <- (take_drop (S (Z.to_nat i)) stack').
    rewrite <- (take_drop (S (Z.to_nat i)) stack) at 1.
    rewrite !layers_value_framed, Hdrop; [done|..];
      rewrite !length_take, length_drop; lia.
  - intros latent stack. apply Decoder_prefix_all.
Qed.

(** ** The encoder pass as a function of the image *)

Lemma encoder_stack_rebound st r stack p L :
  p <> the_encoder -> encoder_stack st r stack ->
  encoder_stack (rebound p L st) r stack.
Proof.
  intros Hp (Hr & Hl & Hlt). unfold encoder_stack, rebound. simpl.
  rewrite lookup_insert_ne by done. rewrite lookup_insert_ne by lia.
  split; [done|]. split; [done|lia].
Qed.

Lemma extend_skip_stage st r stack p l :
  p <> the_encoder -> encoder_stack st r stack ->
  exists st', extend_skip the_encoder p (rebound p l st) = (Ok tt, st')
              /\ encoder_stack st' r (stack ++ l)
              /\ next_loc st < next_loc st'.
Proof.
  intros Hp Hstack.
  pose proof (encoder_stack_rebound st r stack p l Hp Hstack) as (Hr & Hl & Hlt).
  eexists. split.
  - eapply extend_skip_run; [exact Hr| |exact Hl|].
    + unfold rebound. simpl. apply lookup_insert_eq.
    + unfold rebound. simpl. apply lookup_insert_eq.
  - split; [|simpl; lia]. unfold encoder_stack. simpl.
    rewrite !lookup_insert_eq. split; [done|]. split; [done|]. exact Hlt.
Qed.

Lemma ImageEncoding_forward_stage self image st :
  exists st',
    ImageEncoding_forward self image st
    = (match ImageEncoding_stage self image with
       | Ok (y, _) => Ok y
       | Raise e => Raise e
       end, st')
    /\ (st' = st \/ exists L, st' = rebound the_image_encoder L st)
    /\ forall y l, ImageEncoding_stage self image = Ok (y, l) ->
         st' = rebound the_image_encoder l st.
Proof.
  unfold ImageEncoding_forward, ImageEncoding_stage, bind, lift, new_list, set_attr.
  destruct (apply_block _ image) as [x1|]; simpl; [|exists st; split; [done|]; split; [by left|done]].
  destruct (torch_cat x1 image 1) as [e|]; simpl; [|exists st; split; [done|]; split; [by left|done]].
  destruct (apply_block _ e) as [y|]; simpl.
  - eexists. split; [done|]. split; [right; by eexists|]. by intros y' l [= <- <-].
  - eexists. split; [done|]. split; [right; by eexists|]. done.
Qed.

Lemma EncDoubleConv_forward_stage self x st :
  exists L,
    EncDoubleConv_forward self x st
    = (match EncDoubleConv_stage self x with
       | Ok (y, _) => Ok y
       | Raise e => Raise e
       end, rebound (the_double_conv (EncDoubleConv_index self)) L st)
    /\ forall y l, EncDoubleConv_stage self x = Ok (y, l) -> L = l.
Proof.
  unfold EncDoubleConv_forward, EncDoubleConv_stage.
  rewrite (bind_ok _ _ _ _ _ (reset_skip_connections_run _ _)). cbv beta.
  erewrite bind_ok; [|apply push_skip_run; simpl; apply lookup_insert_eq].
  cbv beta. rewrite bind_lift.
  destruct (apply_block _ x) as [x1|]; simpl.
  - erewrite bind_ok; [|apply push_skip_run; simpl; apply lookup_insert_eq].
    unfold lift, set_heap, rebound. simpl. rewrite !insert_insert_eq.
    destruct (apply_block _ x1) as [y|]; simpl.
    + eexists. split; [done|]. by intros y' l [= <- <-].
    + eexists. split; [done|]. done.
  - unfold set_heap, rebound. simpl. rewrite !insert_insert_eq.
    eexists. split; [done|]. done.
Qed.

Lemma bottleneck_loop_stage modules : forall x st r pushed,
  skip_connections st !! the_bottleneck = Some r -> heap st !! r = Some pushed ->
  exists L,
    foldM (fun x module =>
             bind (push_skip the_bottleneck x)
                  (fun _ => lift (apply_block module x)))
          modules x st
    = (match bottleneck_stage modules x pushed with
       | Ok (y, _) => Ok y
       | Raise e => Raise e
       end, set_heap st r L)
    /\ forall y l, bottleneck_stage modules x pushed = Ok (y, l) -> L = l.
Proof.
  induction modules as [|module modules IH]; intros x st r pushed Hp Hr; simpl.
  - exists pushed. unfold ret. rewrite set_heap_id by done.
    split; [done|]. by intros y l [= <- <-].
  - rewrite bind_assoc.
    rewrite (bind_ok _ _ _ _ _ (push_skip_run st _ r pushed x Hp Hr)). cbv beta.
    rewrite bind_lift.
    destruct (apply_block module x) as [y|e]; simpl.
    + destruct (IH y (set_heap st r (pushed ++ [x])) r (pushed ++ [x]))
        as (L & Hrun & HL); [done|simpl; apply lookup_insert_eq|].
      exists L. rewrite Hrun, set_heap_twice. done.
    + eexists. split; [done|]. done.
Qed.

Lemma EncBottleneckConv_forward_stage self x st :
  exists L,
    EncBottleneckConv_forward self x st
    = (match EncBottleneckConv_stage self x with
       | Ok (y, _) => Ok y
       | Raise e => Raise e
       end, rebound the_bottleneck L st)
    /\ forall y l, EncBottleneckConv_stage self x = Ok (y, l) -> L = l.
Proof.
  unfold EncBottleneckConv_forward, EncBottleneckConv_stage.
  rewrite (bind_ok _ _ _ _ _ (reset_skip_connections_run _ _)). cbv beta.
  destruct (bottleneck_loop_stage (convolutions self) x
              {| skip_connections := <[the_bottleneck := next_loc st]> (skip_connections st);
                 heap := <[next_loc st := []]> (heap st);
                 next_loc := S (next_loc st) |} (next_loc st) [])
    as (L & Hrun & HL); [simpl; apply lookup_insert_eq..|].
  exists L. rewrite Hrun. unfold set_heap, rebound. simpl.
  rewrite insert_insert_eq. done.
Qed.

Lemma double_convolutions_forward_trace dcs : forall x st r stack,
  encoder_stack st r stack ->
  exists st',
    foldM (fun x double_conv =>
             bind (EncDoubleConv_forward double_conv x) (fun x =>
             bind (extend_skip the_encoder
                     (the_double_conv (EncDoubleConv_index double_conv)))
                  (fun _ => ret x)))
          dcs x st
    = ((double_convolutions_trace dcs x stack).1, st')
    /\ encoder_stack st' r (double_convolutions_trace dcs x stack).2
    /\ next_loc st <= next_loc st'.
Proof.
  induction dcs as [|dc dcs IH]; intros x st r stack Hstack; simpl.
  - exists st. unfold ret. done.
  - rewrite !bind_assoc.
    destruct (EncDoubleConv_forward_stage dc x st) as (L & Hrun & HL).
    destruct (EncDoubleConv_stage dc x) as [[y l]|e] eqn:Estage.
    + rewrite (HL y l eq_refl) in Hrun.
      rewrite (bind_ok _ _ _ _ _ Hrun). cbv beta. rewrite bind_assoc.
      destruct (extend_skip_stage st r stack
                  (the_double_conv (EncDoubleConv_index dc)) l)
        as (st1 & Hext & Hstack1 & Hlt); [done|done|].
      rewrite (bind_ok _ _ _ _ _ Hext). cbv beta. rewrite bind_ret.
      destruct (IH y st1 r (stack ++ l) Hstack1) as (st' & Hrest & Hstack' & Hle).
      exists st'. split; [done|]. split; [done|lia].
    + rewrite (bind_raise _ _ _ _ _ Hrun).
      eexists. split; [done|]. simpl.
      split; [by apply encoder_stack_rebound|]. simpl. lia.
Qed.

(** [Encoder.forward] returns or raises what [Encoder_trace] says, and its
    [skip_connections] attribute then refers to a list object created by
    this pass that holds exactly the tensors of [Encoder_trace]. *)
Lemma Encoder_forward_trace (self : Encoder) image st :
  exists st',
    Encoder_forward self image st = ((Encoder_trace self image).1, st')
    /\ skip_connections st' !! the_encoder = Some (next_loc st)
    /\ heap st' !! next_loc st = Some (Encoder_trace self image).2
    /\ next_loc st < next_loc st'.
Proof.
  unfold Encoder_forward, Encoder_trace.
  rewrite (bind_ok _ _ _ _ _ (reset_skip_connections_run _ _)). cbv beta.
  set (st0 := {| skip_connections := <[the_encoder := next_loc st]> (skip_connections st);
                 heap := <[next_loc st := []]> (heap st);
                 next_loc := S (next_loc st) |}).
  assert (encoder_stack st0 (next_loc st) []) as Hstack0.
  { unfold encoder_stack, st0. simpl. rewrite !lookup_insert_eq. repeat split; lia. }
  assert (forall st1 stack, encoder_stack st1 (next_loc st) stack ->
            skip_connections st1 !! the_encoder = Some (next_loc st)
            /\ heap st1 !! next_loc st = Some stack
            /\ next_loc st < next_loc st1) as Hfin.
  { intros st1 stack (H1 & H2 & H3). done. }
  destruct (ImageEncoding_forward_stage (image_encoder self) image st0)
    as (st1 & Hrun & Hst1 & Hok).
  destruct (ImageEncoding_stage (image_encoder self) image) as [[x l]|e] eqn:Eimg.
  2:{ rewrite (bind_raise _ _ _ _ _ Hrun). exists st1. split; [done|]. apply Hfin.
      destruct Hst1 as [->|[L ->]]; [done|]. by apply encoder_stack_rebound. }
  rewrite (Hok x l eq_refl) in Hrun. clear Hst1 Hok.
  rewrite (bind_ok _ _ _ _ _ Hrun). cbv beta.
  destruct (extend_skip_stage st0 (next_loc st) [] the_image_encoder l)
    as (st2 & Hext & Hstack2 & Hlt2); [done|done|].
  rewrite (bind_ok _ _ _ _ _ Hext). cbv beta. simpl in Hstack2.
  destruct (double_convolutions_forward_trace (Encoder_double_convolutions self)
              x st2 (next_loc st) l Hstack2) as (st3 & Hdcs & Hstack3 & Hle3).
  destruct (double_convolutions_trace _ x l) as [[y|e] stack3] eqn:Edcs; simpl in *.
  2:{ rewrite (bind_raise _ _ _ _ _ Hdcs). exists st3. split; [done|]. by apply Hfin. }
  rewrite (bind_ok _ _ _ _ _ Hdcs). cbv beta.
  destruct (EncBottleneckConv_forward_stage (Encoder_bottleneck self) y st3)
    as (L & Hbn & HL).
  destruct (EncBottleneckConv_stage (Encoder_bottleneck self) y) as [[z lb]|e] eqn:Ebn.
  2:{ rewrite (bind_raise _ _ _ _ _ Hbn). eexists. split; [done|]. apply Hfin.
      by apply encoder_stack_rebound. }
  rewrite (HL z lb eq_refl) in Hbn.
  rewrite (bind_ok _ _ _ _ _ Hbn). cbv beta.
  destruct (extend_skip_stage st3 (next_loc st) stack3 the_bottleneck lb)
    as (st4 & Hext4 & Hstack4 & Hlt4); [done|done|].
  rewrite (bind_ok _ _ _ _ _ Hext4). cbv beta. unfold ret.
  exists st4. split; [done|]. by apply Hfin.
Qed.

(** X1.  No leakage between calls: started in any two states, however
    earlier passes left them, [Encoder.forward] returns the same latent (or
    raises the same exception) and leaves, in the list object its
    [skip_connections] attribute then refers to, the same tensors in the
    same order. *)
Theorem Encoder_forward_state_independent (self : Encoder) image st1 st2 :
  exists res stack st1' st2',
    Encoder_forward self image st1 = (res, st1')
    /\ Encoder_forward self image st2 = (res, st2')
    /\ skip_connections st1' !! the_encoder = Some (next_loc st1)
    /\ skip_connections st2' !! the_encoder = Some (next_loc st2)
    /\ heap st1' !! next_loc st1 = Some stack
    /\ heap st2' !! next_loc st2 = Some stack.
Proof.
  destruct (Encoder_forward_trace self image st1) as (st1' & H1 & Hr1 & Hs1 & _).
  destruct (Encoder_forward_trace self image st2) as (st2' & H2 & Hr2 & Hs2 & _).
  exists (Encoder_trace self image).1, (Encoder_trace self image).2, st1', st2'.
  done.
Qed.

(** *** How many tensors a pass pushes *)

Lemma bottleneck_stage_length modules : forall x pushed y l,
  bottleneck_stage modules x pushed = Ok (y, l) ->
  length l = length pushed + length modules.
Proof.
  induction modules as [|module modules IH]; intros x pushed y l; simpl.
  - intros [= _ <-]. lia.
  - destruct (apply_block module x) as [z|]; simpl; [|done].
    intros H. apply IH in H. rewrite length_app in H. simpl in H. lia.
Qed.

Lemma double_convolutions_trace_length dcs : forall x stack y stack',
  double_convolutions_trace dcs x stack = (Ok y, stack') ->
  length stack' = length stack + 2 * length dcs.
Proof.
  induction dcs as [|dc dcs IH]; intros x stack y stack'; simpl.
  - intros [= _ <-]. lia.
  - unfold EncDoubleConv_stage.
    destruct (apply_block (EncDoubleConv_conv1 dc) x) as [x1|]; simpl; [|done].
    destruct (apply_block (EncDoubleConv_conv2 dc) x1) as [z|]; simpl; [|done].
    intros H. apply IH in H. rewrite length_app in H. simpl in H. lia.
Qed.

Lemma Encoder_trace_length (self : Encoder) image y stack :
  Encoder_trace self image = (Ok y, stack) ->
  length stack
  = 1 + 2 * length (Encoder_double_convolutions self)
    + length (convolutions (Encoder_bottleneck self)).
Proof.
  unfold Encoder_trace, ImageEncoding_stage.
  destruct (apply_block _ image) as [x1|]; simpl; [|done].
  destruct (torch_cat x1 image 1) as [e|]; simpl; [|done].
  destruct (apply_block _ e) as [x|]; simpl; [|done].
  destruct (double_convolutions_trace _ x [e]) as [[x'|] stack1] eqn:Edcs; [|done].
  apply double_convolutions_trace_length in Edcs. simpl in Edcs.
  unfold EncBottleneckConv_stage.
  destruct (bottleneck_stage _ x' []) as [[z lb]|] eqn:Ebn; [|done].
  apply bottleneck_stage_length in Ebn. simpl in Ebn.
  intros [= _ <-]. rewrite length_app. lia.
Qed.

Lemma Encoder_init_trace_length (nd depth : Z) (disabled : option (list Z))
    image y stack :
  Encoder_trace (Encoder_init nd depth disabled) image = (Ok y, stack) ->
  Z.of_nat (length stack) = (1 + 2 * Z.max 0 nd + Z.max 0 (depth - 1))%Z.
Proof.
  intros Etr. apply Encoder_trace_length in Etr. rewrite Etr.
  unfold Encoder_init, build_encoder_convolutions_block,
    EncBottleneckConv_init, build_bottleneck_convolutions, range.
  cbn [Encoder_double_convolutions Encoder_bottleneck convolutions].
  rewrite length_map, length_seq, repeat_length. lia.
Qed.

(** X2.  A pass of [Encoder.forward] that returns leaves exactly
    [1 + 2*max(n_double_conv,0) + max(bottleneck_depth-1,0)] tensors on the
    encoder's skip stack; for [n_double_conv >= 0] and
    [bottleneck_depth >= 1] this is the number that
    [get_number_of_possible_skip_connections] reports. *)
Theorem Encoder_forward_pushes (n_double_conv bottleneck_depth : Z)
    (disabled : option (list Z)) image st latent st' :
  let self := Encoder_init n_double_conv bottleneck_depth disabled in
  Encoder_forward self image st = (Ok latent, st') ->
  exists stack,
    skip_connections st' !! the_encoder = Some (next_loc st)
    /\ heap st' !! next_loc st = Some stack
    /\ Z.of_nat (length stack)
       = (1 + 2 * Z.max 0 n_double_conv + Z.max 0 (bottleneck_depth - 1))%Z
    /\ ((0 <= n_double_conv)%Z -> (1 <= bottleneck_depth)%Z ->
        Z.of_nat (length stack) = Encoder_get_number_of_possible_skip_connections self).
Proof.
  intros self Hrun.
  destruct (Encoder_forward_trace self image st) as (st'' & Htr & Hr & Hs & _).
  rewrite Hrun in Htr. injection Htr as Hres <-.
  destruct (Encoder_trace self image) as [res stack] eqn:Etr. simpl in *. subst res.
  apply Encoder_init_trace_length in Etr.
  exists stack. split; [done|]. split; [done|]. split; [done|].
  intros Hn Hd. rewrite Etr.
  unfold Encoder_get_number_of_possible_skip_connections, self, Encoder_init.
  cbn [n_skip_connections]. lia.
Qed.

(** ** What a decoder pass pops *)

Lemma Decoder_layers_count (nd depth : Z) (kernel : nat) disabled dec :
  Decoder_init nd depth kernel disabled = Ok dec ->
  (2 <= depth)%Z
  /\ Z.of_nat (length (Decoder_layers dec))
     = (2 + Z.max 0 (depth - 3) + 2 * Z.max 0 nd + 1)%Z.
Proof.
  unfold Decoder_init, DecBottleneckConv_init.
  destruct (Z.leb_spec 2 depth) as [Hd|]; [|done]. cbn [negb].
  rewrite bool_decide_eq_true_2 by reflexivity. cbn [negb rbind].
  intros [= <-]. split; [done|]. unfold Decoder_layers.
  cbn [Decoder_bottleneck Decoder_double_convolutions Decoder_output
       initial_conv convs out_conv].
  unfold build_decoder_convolutions_block, range.
  rewrite !length_app, !length_map, length_seq. cbn [length].
  assert (forall (g : DecDoubleConv -> list Block) l,
            (forall j, length (g j) = 2) -> length (concat (map g l)) = 2 * length l) as Hc.
  { intros g l Hg. induction l as [|j l IH]; simpl; [done|].
    rewrite length_app, Hg, IH. lia. }
  rewrite Hc by done. rewrite length_map, length_seq. lia.
Qed.

(** X3.  A decoder pass that returns has popped exactly one tensor per
    layer, from the end of the list, and has touched nothing else: the
    stack it was given is what it leaves followed by the popped tensors.
    A decoder built by [Decoder_init] has
    [2 + max(depth-3,0) + 2*max(n_double_conv,0) + 1] such layers, which is
    [1 + 2*n_double_conv + (depth-1)] when [n_double_conv >= 0] and
    [depth >= 3]. *)
Theorem Decoder_forward_pops (nd depth : Z) (kernel : nat) disabled dec
    latent stack relit rest :
  Decoder_init nd depth kernel disabled = Ok dec ->
  Decoder_forward dec latent stack = (Ok relit, rest) ->
  exists popped,
    stack = rest ++ popped
    /\ Z.of_nat (length popped)
       = (2 + Z.max 0 (depth - 3) + 2 * Z.max 0 nd + 1)%Z
    /\ ((0 <= nd)%Z -> (3 <= depth)%Z ->
        Z.of_nat (length popped) = (1 + nd * 2 + (depth - 1))%Z).
Proof.
  intros Hdec Hrun.
  apply Decoder_layers_count in Hdec as [Hd Hlen].
  apply Decoder_forward_pop_count in Hrun as (popped & -> & Hpop).
  exists popped. split; [done|]. rewrite Hpop. split; [done|]. lia.
Qed.

(** X4.  Stack underflow is fatal: on a stack holding fewer tensors than
    the decoder has layers, [Decoder.forward] raises. *)
Theorem Decoder_forward_underflow (self : Decoder) latent stack :
  length stack < length (Decoder_layers self) ->
  exists e rest, Decoder_forward self latent stack = (Raise e, rest).
Proof.
  intros Hlt. destruct (Decoder_forward self latent stack) as [[relit|e] rest] eqn:Hrun.
  - apply Decoder_forward_pop_count in Hrun as (popped & -> & Hpop).
    rewrite length_app in Hlt. lia.
  - eauto.
Qed.

(** X5.  A drained stack cannot be decoded against again: on the empty
    list, [Decoder.forward] raises [IndexError] at its first pop (or the
    error of its first block, when that block rejects the latent), and the
    list stays empty. *)
Theorem Decoder_forward_drained (self : Decoder) latent :
  Decoder_forward self latent []
  = (Raise (match apply_block (DecBottleneckConv_encode (Decoder_bottleneck self))
                              latent with
            | Ok _ => IndexError
            | Raise e => e
            end), []).
Proof.
  unfold Decoder_forward, DecBottleneckConv_forward.
  rewrite !bind_assoc, bind_lift.
  destruct (apply_block _ latent) as [x|e]; reflexivity.
Qed.

(** ** The matching pair drains the stack *)

Lemma list_setitem_ok_inv st r l i x st' :
  heap st !! r = Some l ->
  list_setitem r i x st = (Ok tt, st') ->
  exists j, st' = set_heap st r (<[j := x]> l).
Proof.
  intros Hl. unfold list_setitem, bind, read_list, write_list, raise. rewrite Hl.
  destruct (_ && _); [|done]. intros [= <-]. eauto.
Qed.

Lemma disable_loop_length (disabled : list Z) : forall st r l st',
  skip_connections st !! the_encoder = Some r -> heap st !! r = Some l ->
  forM_ (fun i => bind (get_attr the_encoder) (fun r => list_setitem r i EMPTY_TENSOR))
        disabled st = (Ok tt, st') ->
  exists L, st' = set_heap st r L /\ length L = length l.
Proof.
  induction disabled as [|i disabled IH]; intros st r l st' Hr Hl; simpl.
  - unfold ret. intros [= <-]. exists l. by rewrite set_heap_id.
  - unfold bind at 1. unfold bind at 1, get_attr at 1. rewrite Hr.
    destruct (list_setitem r i EMPTY_TENSOR st) as [[[]|e] s1] eqn:E; [|done].
    apply (list_setitem_ok_inv st r l) in E as (j & ->); [|done].
    intros Hrun.
    apply (IH _ r (<[j := EMPTY_TENSOR]> l)) in Hrun as (L & -> & HL);
      [|done|simpl; apply lookup_insert_eq].
    exists L. rewrite set_heap_twice. split; [done|]. by rewrite HL, length_insert.
Qed.

Lemma Encoder_get_skip_connections_length self st r stack r' st' :
  encoder_stack st r stack ->
  Encoder_get_skip_connections self st = (Ok r', st') ->
  r' = r /\ exists L, st' = set_heap st r L /\ length L = length stack.
Proof.
  intros (Hr & Hl & Hlt). unfold Encoder_get_skip_connections, bind.
  destruct (forM_ _ _ st) as [[[]|e] s1] eqn:E; [|done].
  apply (disable_loop_length _ st r stack) in E as (L & -> & HL); [|done..].
  unfold get_attr. simpl. rewrite Hr. intros [= <- <-]. eauto.
Qed.

Lemma SwapNet_init_parts (c : Codec) (nd depth : Z) (kernel : nat) disabled net :
  SwapNet_init c nd depth kernel disabled = Ok net ->
  exists D dec,
    encode net = Encoder_init nd depth (Some D)
    /\ codec net = c
    /\ decode net = dec
    /\ Decoder_init nd depth kernel
         (Some (map (fun i => (1 + nd * 2 + (depth - 1)) - 1 - i)%Z D)) = Ok dec.
Proof.
  unfold SwapNet_init.
  cbn [Encoder_get_number_of_possible_skip_connections Encoder_init n_skip_connections].
  destruct (Decoder_init _ _ _ _) as [dec|] eqn:Hdec; [|done].
  intros [= <-]. exists (default [] disabled), dec. done.
Qed.

(** X6.  For [n_double_conv >= 0] and [bottleneck_depth >= 3], every
    [SwapNet.forward] pass that returns has drained the image's skip stack:
    the list object created by the first encoder pass is empty at the
    end, the decoder having popped as many tensors as the encoder pushed. *)
Theorem SwapNet_forward_drains_stack (c : Codec) (nd depth : Z) (kernel : nat)
    disabled net image target groundtruth st out st' :
  (0 <= nd)%Z -> (3 <= depth)%Z ->
  SwapNet_init c nd depth kernel disabled = Ok net ->
  SwapNet_forward net image target groundtruth st = (Ok out, st') ->
  heap st' !! next_loc st = Some [].
Proof.
  intros Hnd Hd Hnet.
  apply SwapNet_init_parts in Hnet as (D & dec & Henc & _ & Hdec' & Hdec).
  apply Decoder_layers_count in Hdec as [_ Hlayers].
  unfold SwapNet_forward. rewrite Hdec'. clear Hdec'.
  destruct (Encoder_forward (encode net) image st) as [[il|e] st1] eqn:E1;
    [|by rewrite (bind_raise _ _ _ _ _ E1)].
  rewrite (bind_ok _ _ _ _ _ E1). cbv beta.
  destruct (Encoder_get_skip_connections (encode net) st1) as [[r|e] st2] eqn:E2;
    [|by rewrite (bind_raise _ _ _ _ _ E2)].
  rewrite (bind_ok _ _ _ _ _ E2). cbv beta.
  destruct (Encoder_forward (encode net) target st2) as [[tl|e] st3] eqn:E3;
    [|by rewrite (bind_raise _ _ _ _ _ E3)].
  rewrite (bind_ok _ _ _ _ _ E3). cbv beta.
  destruct (Encoder_forward (encode net) groundtruth st3) as [[gl|e] st4] eqn:E4;
    [|by rewrite (bind_raise _ _ _ _ _ E4)].
  rewrite (bind_ok _ _ _ _ _ E4). cbv beta.
  destruct (image_stack_survives _ _ _ _ _ _ _ _ _ _ _ _ _ E1 E2 E3 E4)
    as (_ & _ & Hkeep).
  destruct (Encoder_forward_trace (encode net) image st) as (st1' & Htr & Hr & Hs & Hlt).
  rewrite E1 in Htr. injection Htr as Hres <-.
  destruct (Encoder_trace (encode net) image) as [res stack] eqn:Etr.
  simpl in Hres, Hs. subst res. rewrite Henc in Etr.
  apply Encoder_init_trace_length in Etr.
  destruct (Encoder_get_skip_connections_length (encode net) st1 (next_loc st) stack
              r st2) as (-> & L & -> & HL); [done|done|].
  simpl in Hkeep. rewrite lookup_insert_eq in Hkeep.
  rewrite bind_lift.
  destruct (split (codec net) il) as [[image_scene image_light]|]; [|done].
  cbv beta iota. rewrite bind_lift.
  destruct (split (codec net) tl) as [[target_scene target_light]|]; [|done].
  cbv beta iota. rewrite bind_lift.
  destruct (split (codec net) gl) as [[groundtruth_scene groundtruth_light]|]; [|done].
  cbv beta iota. rewrite bind_lift.
  destruct (assemble (codec net) image_scene target_light) as [swapped|]; [|done].
  cbv beta iota. unfold bind, with_list. rewrite Hkeep.
  destruct (Decoder_forward dec swapped L) as [[relit|e] rest] eqn:Edec; [|done].
  unfold ret. intros [= _ <-].
  apply Decoder_forward_pop_count in Edec as (popped & -> & Hpop).
  simpl. rewrite lookup_insert_eq. f_equal.
  rewrite length_app in HL. destruct rest; [done|]. simpl in HL. lia.
Qed.

(** ** More on [size_splits] and the channel-split codec *)

Lemma rmap_ok_inv {A B} (f : A -> result B) l bs a :
  rmap f l = Ok bs -> a ∈ l -> exists b, f a = Ok b.
Proof.
  revert bs. induction l as [|a' l IH]; intros bs; simpl.
  - intros _ Hin. by apply elem_of_nil in Hin.
  - destruct (f a') as [b'|] eqn:Ef; simpl; [|done].
    destruct (rmap f l) as [bs'|] eqn:Er; simpl; [|done].
    intros _ Hin. apply elem_of_cons in Hin as [->|Hin]; [eauto|].
    by eapply IH.
Qed.

Lemma torch_narrow_negative_length t (dim start len : Z) :
  (len < 0)%Z -> exists e, torch_narrow t dim start len = Raise e.
Proof.
  intros Hlen. unfold torch_narrow.
  destruct (wrap_dim _ dim) as [d|e]; simpl; [|eauto].
  destruct (Z.ltb_spec len 0); [|lia].
  rewrite orb_true_r. simpl. eauto.
Qed.

Lemma zip_cumsum_elem (sizes : list Z) : forall acc s,
  s ∈ sizes -> exists start, (start, s) ∈ zip (cumsum_from acc sizes) sizes.
Proof.
  induction sizes as [|s' sizes IH]; intros acc s Hin.
  - by apply elem_of_nil in Hin.
  - simpl. apply elem_of_cons in Hin as [->|Hin].
    + exists acc. apply elem_of_cons. by left.
    + destruct (IH (acc + s')%Z s Hin) as [start Hstart].
      exists start. apply elem_of_cons. by right.
Qed.

(** X7.  [size_splits] never returns chunks for a list that holds a
    negative size, whatever the tensor and the dimension: it raises. *)
Theorem size_splits_negative_size t (split_sizes : list Z) (dim s : Z) :
  s ∈ split_sizes -> (s < 0)%Z ->
  exists e, size_splits t split_sizes dim = Raise e.
Proof.
  intros Hin Hneg. unfold size_splits.
  destruct (tensor_size t _) as [n|e]; simpl; [|eauto].
  destruct (negb _); [eauto|].
  destruct (rmap _ _) as [chunks|e] eqn:Er; [|eauto]. exfalso.
  destruct (zip_cumsum_elem split_sizes 0 s Hin) as [start Hstart].
  destruct (rmap_ok_inv _ _ _ _ Er Hstart) as [c Hc]. simpl in Hc.
  destruct (torch_narrow_negative_length t
              (if (dim <? 0)%Z then (dim + Z.of_nat (length (size t)))%Z else dim)
              start s Hneg) as [e He].
  congruence.
Qed.

(** X8.  Splitting the channels of a contiguous 4-D tensor at any point is
    undone by concatenation: for at most [2^24] channels (so that the
    float32 sums of the source are exact), [size_splits(x, [a, b], dim=1)]
    returns two chunks of [a] and [b] channels, and [torch.cat] of the two,
    in that order, is [x] again. *)
Theorem size_splits_cat_round_trip x n h w (a b : nat) :
  size x = [n; a + b; h; w] -> contiguous x ->
  (Z.of_nat (a + b) <= 2 ^ 24)%Z ->
  exists first second,
    size_splits x [Z.of_nat a; Z.of_nat b] 1 = Ok [first; second]
    /\ size first = [n; a; h; w]
    /\ size second = [n; b; h; w]
    /\ torch_cat first second 1 = Ok x.
Proof.
  intros Hsz Hc _.
  destruct (narrow_cat_channels x n h w a b Hsz Hc)
    as (first & second & Hf & Hs & Hsf & Hss & Hcat).
  exists first, second. split; [|done].
  unfold size_splits, tensor_size. rewrite Hsz. cbn [length].
  change (wrap_dim 4 _) with (Ok (A:=nat) 1). cbn [rbind].
  change ([n; a + b; h; w] !!! 1) with (a + b).
  change (1 <? 0)%Z with false. cbv iota.
  replace (sumZ [Z.of_nat a; Z.of_nat b]) with (Z.of_nat (a + b))
    by (unfold sumZ; simpl; lia).
  rewrite Z.eqb_refl. cbn [negb].
  cbn [cumsum_from zip zip_with rmap]. rewrite Z.add_0_l.
  by rewrite Hf, Hs.
Qed.

(** X9.  The channel-split splitter fails fast on a latent that does not
    have 512 channels: [KeyError] when the channel dimension has another
    extent, [IndexError] when the tensor has no channel dimension. *)
Theorem AnOtherSwapNetSplitter_rejects_other_channels latent :
  size latent !! 1 <> Some 512 ->
  AnOtherSwapNetSplitter_forward latent
  = Raise (match size latent !! 1 with
           | Some _ => KeyError "Sum of split sizes exceeds tensor dim"
           | None => IndexError
           end).
Proof.
  intros Hne.
  unfold AnOtherSwapNetSplitter_forward, size_splits, tensor_size, wrap_dim.
  change (1 <? 0)%Z with false. cbv iota.
  destruct (size latent !! 1) as [c|] eqn:Hc.
  - assert (1 < length (size latent)) as Hlen by (by eapply lookup_lt_Some).
    destruct (Z.leb_spec (- Z.of_nat (length (size latent))) 1); [|lia].
    destruct (Z.ltb_spec 1 (Z.of_nat (length (size latent)))); [|lia].
    cbn [andb rbind]. change (Z.to_nat 1) with 1.
    rewrite (list_lookup_total_correct _ _ _ Hc).
    destruct (Z.eqb_spec (Z.of_nat c) (sumZ [3; 509]%Z)) as [Heq|_]; [|done].
    exfalso. apply Hne. f_equal.
    change (sumZ [3; 509]%Z) with (Z.of_nat 512) in Heq. lia.
  - apply lookup_ge_None in Hc.
    destruct (Z.ltb_spec 1 (Z.of_nat (length (size latent)))); [lia|].
    by rewrite andb_false_r.
Qed.

(** ** More on disabled indices *)

Lemma with_placeholders_idempotent stack disabled :
  Forall (fun i => 0 <= i)%Z disabled ->
  with_placeholders (with_placeholders stack disabled) disabled
  = with_placeholders stack disabled.
Proof.
  intros Hnn. apply list_eq. intros j.
  destruct (decide (j < length stack)) as [Hj|Hj].
  - rewrite with_placeholders_lookup by (rewrite ?with_placeholders_length; done).
    rewrite with_placeholders_lookup by done.
    by destruct (bool_decide _).
  - rewrite !lookup_ge_None_2; [done|..];
      rewrite ?with_placeholders_length; lia.
Qed.

(** X10.  [Encoder.get_skip_connections] may be called again: with disabled
    indices inside the stack, a second call returns the same list object
    and changes nothing, the placeholders being in place already. *)
Theorem Encoder_get_skip_connections_again self st r stack :
  skip_connections st !! the_encoder = Some r -> heap st !! r = Some stack ->
  Forall (fun i => 0 <= i < Z.of_nat (length stack))%Z
         (Encoder_disabled_skip_connections self) ->
  exists st1,
    Encoder_get_skip_connections self st = (Ok r, st1)
    /\ heap st1 !! r
       = Some (with_placeholders stack (Encoder_disabled_skip_connections self))
    /\ Encoder_get_skip_connections self st1 = (Ok r, st1).
Proof.
  intros Hr Hl Hall.
  eexists. split; [by apply Encoder_get_skip_connections_run|].
  split; [simpl; apply lookup_insert_eq|].
  erewrite Encoder_get_skip_connections_run;
    [|exact Hr|simpl; apply lookup_insert_eq|by rewrite with_placeholders_length].
  rewrite set_heap_twice, with_placeholders_idempotent; [done|].
  eapply Forall_impl; [exact Hall|]. simpl. lia.
Qed.

Lemma disable_loop_out_of_range (disabled : list Z) : forall st r l i,
  skip_connections st !! the_encoder = Some r -> heap st !! r = Some l ->
  i ∈ disabled -> (i < - Z.of_nat (length l) \/ Z.of_nat (length l) <= i)%Z ->
  exists st',
    forM_ (fun i => bind (get_attr the_encoder) (fun r => list_setitem r i EMPTY_TENSOR))
          disabled st = (Raise IndexError, st').
Proof.
  induction disabled as [|i' disabled IH]; intros st r l i Hr Hl Hin Hout.
  - by apply elem_of_nil in Hin.
  - simpl. unfold bind at 1. unfold bind at 1, get_attr at 1. rewrite Hr.
    unfold list_setitem at 1, bind at 1, read_list at 1. rewrite Hl.
    destruct (_ && _) eqn:Erange.
    + unfold write_list.
      apply elem_of_cons in Hin as [->|Hin].
      * exfalso. apply andb_prop in Erange as [E1 E2].
        apply Z.leb_le in E1. apply Z.ltb_lt in E2.
        destruct (Z.ltb_spec i' 0); lia.
      * eapply (IH _ r _ i); [done|simpl; apply lookup_insert_eq|done|].
        by rewrite length_insert.
    + unfold raise. eauto.
Qed.

(** X11.  A disabled index outside the stack is found only at forward
    time: after a pass of the encoder that returned, leaving [n] tensors,
    [get_skip_connections] raises [IndexError] as soon as the disabled
    list holds an index that is not in [[-n, n)]. *)
Theorem Encoder_get_skip_connections_out_of_range (nd depth : Z) (D : list Z)
    image st latent st1 (i : Z) :
  let self := Encoder_init nd depth (Some D) in
  let n := (1 + 2 * Z.max 0 nd + Z.max 0 (depth - 1))%Z in
  Encoder_forward self image st = (Ok latent, st1) ->
  i ∈ D -> (i < - n \/ n <= i)%Z ->
  exists st2, Encoder_get_skip_connections self st1 = (Raise IndexError, st2).
Proof.
  intros self n Hrun Hin Hout.
  destruct (Encoder_forward_trace self image st) as (st1' & Htr & Hr & Hs & _).
  rewrite Hrun in Htr. injection Htr as Hres <-.
  destruct (Encoder_trace self image) as [res stack] eqn:Etr. simpl in *. subst res.
  apply Encoder_init_trace_length in Etr.
  destruct (disable_loop_out_of_range D st1 (next_loc st) stack i Hr Hs Hin)
    as (st2 & Hloop); [fold n in Etr; lia|].
  exists st2. unfold Encoder_get_skip_connections.
  cbn [self Encoder_init Encoder_disabled_skip_connections default].
  by rewrite (bind_raise _ _ _ _ _ Hloop).
Qed.


(** ** Shapes through the default network *)

Lemma conv_out_halve_even m : 1 <= m -> conv_out (2 * m) 3 2 1 = m.
Proof.
  intros Hm. unfold conv_out.
  replace (2 * m + 2 * 1 - 3) with (1 + (m - 1) * 2) by lia.
  rewrite Nat.div_add by lia. change (1 / 2) with 0. lia.
Qed.

Lemma conv_out_odd_kernel h k :
  1 <= h -> Nat.odd k = true -> conv_out h k 1 (k / 2) = h /\ k <= h + 2 * (k / 2).
Proof.
  intros Hh Hk. unfold conv_out. rewrite Nat.div_1_r.
  pose proof (Nat.div_mod_eq k 2) as Hdm.
  assert (k mod 2 = 1) as Hmod.
  { rewrite <- Nat.bit0_mod, Nat.bit0_odd. by rewrite Hk. }
  lia.
Qed.

Lemma ImageEncoding_stage_shape image n h w :
  size image = [n; 3; 2 * h; 2 * w] -> 1 <= h -> 1 <= w ->
  exists encoded_image y,
    ImageEncoding_stage (ImageEncoding_init 3 32 64) image = Ok (y, [encoded_image])
    /\ size encoded_image = [n; 32; 2 * h; 2 * w]
    /\ size y = [n; 64; h; w].
Proof.
  intros Hsz Hh Hw. unfold ImageEncoding_stage, ImageEncoding_init.
  cbn [ImageEncoding_conv1 ImageEncoding_conv2].
  destruct (apply_block_ok (conv_block image_encoder_conv1 3 (32 - 3) 7 1 3) image
              n 3 (2 * h) (2 * w) Hsz) as (x & -> & Hx);
    [reflexivity|reflexivity|cbn; lia|cbn; lia|].
  cbn [conv_block out_channels kernel_size stride padding] in Hx.
  rewrite !conv_out_same7 in Hx by lia. cbn [rbind].
  destruct (channel_cat_ok x image n (32 - 3) 3 (2 * h) (2 * w) Hx Hsz)
    as (e & -> & He). change (32 - 3 + 3) with 32 in He. cbn [rbind].
  destruct (apply_block_ok (conv_block image_encoder_conv2 32 64 3 2 1) e
              n 32 (2 * h) (2 * w) He) as (y & -> & Hy);
    [reflexivity|reflexivity|cbn; lia|cbn; lia|].
  cbn [conv_block out_channels kernel_size stride padding] in Hy.
  rewrite !conv_out_halve_even in Hy by lia. cbn [rbind]. eauto.
Qed.

Lemma EncDoubleConv_stage_shape i cin cout x n h w :
  size x = [n; cin; 2 * h; 2 * w] -> 1 <= h -> 1 <= w ->
  exists x1 y,
    EncDoubleConv_stage (EncDoubleConv_init i cin cout) x = Ok (y, [x; x1])
    /\ size x1 = [n; cin; 2 * h; 2 * w]
    /\ size y = [n; cout; h; w].
Proof.
  intros Hsz Hh Hw. unfold EncDoubleConv_stage, EncDoubleConv_init.
  cbn [EncDoubleConv_conv1 EncDoubleConv_conv2].
  destruct (apply_block_ok (conv_block (enc_double_conv1 i) cin cin 3 1 1) x
              n cin (2 * h) (2 * w) Hsz) as (x1 & -> & Hx1);
    [reflexivity|reflexivity|cbn; lia|cbn; lia|].
  cbn [conv_block out_channels kernel_size stride padding] in Hx1.
  rewrite !conv_out_same3 in Hx1 by lia. cbn [rbind].
  destruct (apply_block_ok (conv_block (enc_double_conv2 i) cin cout 3 2 1) x1
              n cin (2 * h) (2 * w) Hx1) as (y & -> & Hy);
    [reflexivity|reflexivity|cbn; lia|cbn; lia|].
  cbn [conv_block out_channels kernel_size stride padding] in Hy.
  rewrite !conv_out_halve_even in Hy by lia. cbn [rbind]. eauto.
Qed.

Lemma single_conv_shape m c x n h w :
  size x = [n; c; h; w] -> 1 <= h -> 1 <= w ->
  exists y, apply_block (conv_block m c c 3 1 1) x = Ok y /\ size y = [n; c; h; w].
Proof.
  intros Hsz Hh Hw.
  destruct (apply_block_ok (conv_block m c c 3 1 1) x n c h w Hsz) as (y & Hy & Hs);
    [reflexivity|reflexivity|cbn; lia|cbn; lia|].
  cbn [conv_block out_channels kernel_size stride padding] in Hs.
  rewrite !conv_out_same3 in Hs by lia. eauto.
Qed.

Lemma Encoder_trace_default_shapes disabled image n a b :
  size image = [n; 3; 16 * a; 16 * b] -> 1 <= a -> 1 <= b ->
  exists latent stack,
    Encoder_trace (Encoder_init 3 4 disabled) image = (Ok latent, stack)
    /\ size latent = [n; 512; a; b]
    /\ map size stack = default_skip_sizes n a b.
Proof.
  intros Hsz Ha Hb. unfold Encoder_trace, Encoder_init.
  cbn [image_encoder Encoder_double_convolutions Encoder_bottleneck].
  change (build_encoder_convolutions_block 3)
    with [EncDoubleConv_init 0 64 128; EncDoubleConv_init 1 128 256;
          EncDoubleConv_init 2 256 512].
  replace (16 * a) with (2 * (2 * (2 * (2 * a)))) in Hsz by lia.
  replace (16 * b) with (2 * (2 * (2 * (2 * b)))) in Hsz by lia.
  destruct (ImageEncoding_stage_shape image n _ _ Hsz)
    as (s0 & x0 & -> & Hs0 & Hx0); [lia|lia|].
  cbn [double_convolutions_trace].
  destruct (EncDoubleConv_stage_shape 0 64 128 x0 n _ _ Hx0)
    as (s2 & x1 & -> & Hs2 & Hx1); [lia|lia|].
  destruct (EncDoubleConv_stage_shape 1 128 256 x1 n _ _ Hx1)
    as (s4 & x2 & -> & Hs4 & Hx2); [lia|lia|].
  destruct (EncDoubleConv_stage_shape 2 256 512 x2 n a b Hx2)
    as (s6 & x3 & -> & Hs6 & Hx3); [lia|lia|].
  unfold EncBottleneckConv_stage, EncBottleneckConv_init, build_bottleneck_convolutions.
  cbn [convolutions]. change (Z.to_nat (4 - 1)) with 3.
  cbn [repeat bottleneck_stage].
  destruct (single_conv_shape enc_bottleneck_single_conv 512 x3 n a b Hx3)
    as (x4 & -> & Hx4); [lia|lia|]. cbn [rbind].
  destruct (single_conv_shape enc_bottleneck_single_conv 512 x4 n a b Hx4)
    as (x5 & -> & Hx5); [lia|lia|]. cbn [rbind].
  destruct (single_conv_shape enc_bottleneck_single_conv 512 x5 n a b Hx5)
    as (x6 & -> & Hx6); [lia|lia|]. cbn [rbind].
  eexists _, _. split; [reflexivity|]. split; [exact Hx6|].
  cbn [app map]. unfold default_skip_sizes.
  by rewrite Hs0, Hx0, Hs2, Hx1, Hs4, Hx2, Hs6, Hx3, Hx4, Hx5.
Qed.

Lemma with_placeholders_shape stack disabled j sz :
  Forall (fun i => 0 <= i)%Z disabled ->
  map size stack !! j = Some sz ->
  exists t, with_placeholders stack disabled !! j = Some t
            /\ (if bool_decide (Z.of_nat j ∈ disabled)
                then t = EMPTY_TENSOR else size t = sz).
Proof.
  intros Hnn Hj.
  change (map size stack) with (size <$> stack) in Hj.
  rewrite list_lookup_fmap in Hj.
  destruct (stack !! j) as [t|] eqn:Ht; [|done]. injection Hj as Hsz.
  rewrite with_placeholders_lookup; [|done|by eapply lookup_lt_Some].
  destruct (bool_decide _); eauto.
Qed.

(** One decoder layer: concatenate the popped tensor along the channels,
    convolve. *)
Lemma concat_apply_shape conv x skip n c s h w (dis : bool) :
  size x = [n; c; h; w] ->
  (if dis then skip = EMPTY_TENSOR else size skip = [n; s; h; w]) ->
  in_channels conv = (if dis then c else c + s) ->
  Nat.odd (kernel_size conv) = true -> stride conv = 1 ->
  padding conv = kernel_size conv / 2 ->
  1 <= h -> 1 <= w ->
  exists y, rbind (channel_concat x skip) (apply_block conv) = Ok y
            /\ size y = [n; out_channels conv;
                         block_in_extent conv h; block_in_extent conv w].
Proof.
  intros Hx Hskip Hin Hk Hs Hp Hh Hw.
  assert (exists z, channel_concat x skip = Ok z
                    /\ size z = [n; in_channels conv; h; w]) as (z & -> & Hz).
  { destruct dis.
    - subst skip. exists x. split; [|by rewrite Hin].
      unfold channel_concat, torch_cat, legacy_empty. rewrite Hx.
      rewrite bool_decide_eq_false_2 by discriminate.
      by rewrite bool_decide_eq_true_2 by reflexivity.
    - rewrite Hin. by apply channel_cat_ok. }
  cbn [rbind]. unfold apply_block. rewrite Hz, Hs, Hp.
  assert (1 <= block_in_extent conv h /\ 1 <= block_in_extent conv w) as [Hh' Hw'].
  { unfold block_in_extent. destruct (upsample conv); lia. }
  destruct (conv_out_odd_kernel _ _ Hh' Hk) as [-> Hkh].
  destruct (conv_out_odd_kernel _ _ Hw' Hk) as [-> Hkw].
  rewrite !bool_decide_eq_true_2 by done. cbn [andb]. eauto.
Qed.

Lemma pop_concat_apply_rbind conv x stack skip :
  pop_concat_apply conv x (stack ++ [skip])
  = (rbind (channel_concat x skip) (apply_block conv), stack).
Proof.
  unfold pop_concat_apply. rewrite (bind_ok _ _ _ _ _ (list_pop_snoc stack skip)).
  cbv beta. rewrite bind_lift. by destruct (channel_concat x skip).
Qed.

Lemma pop_concat_apply_shape conv x skip stack n c s h w (dis : bool) :
  size x = [n; c; h; w] ->
  (if dis then skip = EMPTY_TENSOR else size skip = [n; s; h; w]) ->
  in_channels conv = (if dis then c else c + s) ->
  Nat.odd (kernel_size conv) = true -> stride conv = 1 ->
  padding conv = kernel_size conv / 2 ->
  1 <= h -> 1 <= w ->
  exists y, pop_concat_apply conv x (stack ++ [skip]) = (Ok y, stack)
            /\ size y = [n; out_channels conv;
                         block_in_extent conv h; block_in_extent conv w].
Proof.
  intros Hx Hskip Hin Hk Hs Hp Hh Hw. rewrite pop_concat_apply_rbind.
  destruct (concat_apply_shape conv x skip n c s h w dis) as (y & -> & Hy); eauto.
Qed.

Ltac layer_step Hx Hskip rest dis :=
  rewrite ?bind_assoc;
  match goal with
  | |- context [bind (pop_concat_apply ?conv ?x) _ _] =>
      let y := fresh "y" in
      let Hrun := fresh "Hrun" in
      let Hy := fresh "Hy" in
      destruct (pop_concat_apply_shape conv x _ rest _ _ _ _ _ dis Hx Hskip)
        as (y & Hrun & Hy);
      [reflexivity|reflexivity|reflexivity|reflexivity|lia|lia|];
      rewrite (bind_ok _ _ _ _ _ Hrun); cbv beta;
      cbn [conv_block up_conv_block out_channels block_in_extent upsample] in Hy
  end.

Lemma Decoder_forward_default_shape (k : nat) (D : list Z) dec latent stack n a b :
  Nat.odd k = true ->
  Forall (fun i => 0 <= i < 10)%Z D ->
  Decoder_init 3 4 k (Some (map (fun i => 10 - 1 - i)%Z D)) = Ok dec ->
  size latent = [n; 512; a; b] -> 1 <= a -> 1 <= b ->
  map size stack = default_skip_sizes n a b ->
  exists relit,
    Decoder_forward dec latent (with_placeholders stack D) = (Ok relit, [])
    /\ size relit = [n; 3; 16 * a; 16 * b].
Proof.
  intros Hk HD Hdec Hlat Ha Hb Hstack.
  assert (Forall (fun i => 0 <= i)%Z D) as Hnn.
  { eapply Forall_impl; [exact HD|]. simpl. lia. }
  assert (length (with_placeholders stack D) = 10) as Hlen.
  { rewrite with_placeholders_length, <- (length_map size), Hstack. reflexivity. }
  pose proof (fun j sz => with_placeholders_shape stack D j sz Hnn) as Hshape.
  rewrite Hstack in Hshape.
  destruct (with_placeholders stack D) as [|t0 [|t1 [|t2 [|t3 [|t4 [|t5 [|t6 [|t7 [|t8 [|t9 [|]]]]]]]]]]];
    try discriminate Hlen. clear Hlen.
  destruct (Hshape 0 _ eq_refl) as (? & [= <-] & H0).
  destruct (Hshape 1 _ eq_refl) as (? & [= <-] & H1).
  destruct (Hshape 2 _ eq_refl) as (? & [= <-] & H2).
  destruct (Hshape 3 _ eq_refl) as (? & [= <-] & H3).
  destruct (Hshape 4 _ eq_refl) as (? & [= <-] & H4).
  destruct (Hshape 5 _ eq_refl) as (? & [= <-] & H5).
  destruct (Hshape 6 _ eq_refl) as (? & [= <-] & H6).
  destruct (Hshape 7 _ eq_refl) as (? & [= <-] & H7).
  destruct (Hshape 8 _ eq_refl) as (? & [= <-] & H8).
  destruct (Hshape 9 _ eq_refl) as (? & [= <-] & H9).
  clear Hshape Hstack.
  change (Z.of_nat 0) with 0%Z in H0. change (Z.of_nat 1) with 1%Z in H1.
  change (Z.of_nat 2) with 2%Z in H2. change (Z.of_nat 3) with 3%Z in H3.
  change (Z.of_nat 4) with 4%Z in H4. change (Z.of_nat 5) with 5%Z in H5.
  change (Z.of_nat 6) with 6%Z in H6. change (Z.of_nat 7) with 7%Z in H7.
  change (Z.of_nat 8) with 8%Z in H8. change (Z.of_nat 9) with 9%Z in H9.
  revert Hdec. unfold Decoder_init, DecBottleneckConv_init.
  change (negb (2 <=? 4)%Z) with false. cbv iota.
  rewrite bool_decide_eq_true_2 by reflexivity. cbn [negb rbind].
  intros [= <-].
  unfold Decoder_forward, DecBottleneckConv_forward, DecDoubleConv_forward.
  cbn [Decoder_bottleneck Decoder_double_convolutions Decoder_output
       DecBottleneckConv_encode initial_conv convs out_conv].
  unfold build_decoder_convolutions_block, range, Output_init, DecDoubleConv_init,
    SkipConnectionReceiver_init.
  change (Z.to_nat (4 - 3)) with 1. change (Z.to_nat 3) with 3.
  cbn [seq map foldM DecDoubleConv_conv1 DecDoubleConv_conv2].
  change (256 / 2 ^ 0) with 256. change (256 / 2 ^ (0 + 1)) with 128.
  change (256 / 2 ^ 1) with 128. change (256 / 2 ^ (1 + 1)) with 64.
  change (256 / 2 ^ 2) with 64. change (256 / 2 ^ (2 + 1)) with 32.
  rewrite !(channels_in_layer_reflected 10 D _ _ _ _ _ eq_refl).
  unfold skip_channels.
  change (10 - 1 - (0 + 0))%Z with 9%Z.
  change (10 - 1 - (Z.of_nat 0 + 1 + 0))%Z with 8%Z.
  change (10 - 1 - (4 - 2 + 0))%Z with 7%Z.
  change (10 - 1 - (0 + (4 - 1 + 2 * Z.of_nat 0)))%Z with 6%Z.
  change (10 - 1 - (1 + (4 - 1 + 2 * Z.of_nat 0)))%Z with 5%Z.
  change (10 - 1 - (0 + (4 - 1 + 2 * Z.of_nat 1)))%Z with 4%Z.
  change (10 - 1 - (1 + (4 - 1 + 2 * Z.of_nat 1)))%Z with 3%Z.
  change (10 - 1 - (0 + (4 - 1 + 2 * Z.of_nat 2)))%Z with 2%Z.
  change (10 - 1 - (1 + (4 - 1 + 2 * Z.of_nat 2)))%Z with 1%Z.
  change (10 - 1 - (0 + (4 - 1 + 3 * 2)))%Z with 0%Z.
  destruct (apply_block_ok (conv_block dec_bottleneck_encode 512 256 3 1 1) latent
              n 512 a b Hlat) as (x & Henc & Hx);
    [reflexivity|reflexivity|cbn; lia|cbn; lia|].
  cbn [conv_block out_channels kernel_size stride padding] in Hx.
  rewrite !conv_out_same3 in Hx by lia.
  rewrite !bind_assoc, bind_lift, Henc. cbv beta iota.
  layer_step Hx H9 [t0; t1; t2; t3; t4; t5; t6; t7; t8] (bool_decide (9%Z ∈ D)).
  layer_step Hy H8 [t0; t1; t2; t3; t4; t5; t6; t7] (bool_decide (8%Z ∈ D)).
  rewrite bind_ret.
  layer_step Hy0 H7 [t0; t1; t2; t3; t4; t5; t6] (bool_decide (7%Z ∈ D)).
  layer_step Hy1 H6 [t0; t1; t2; t3; t4; t5] (bool_decide (6%Z ∈ D)).
  layer_step Hy2 H5 [t0; t1; t2; t3; t4] (bool_decide (5%Z ∈ D)).
  layer_step Hy3 H4 [t0; t1; t2; t3] (bool_decide (4%Z ∈ D)).
  layer_step Hy4 H3 [t0; t1; t2] (bool_decide (3%Z ∈ D)).
  layer_step Hy5 H2 [t0; t1] (bool_decide (2%Z ∈ D)).
  layer_step Hy6 H1 [t0] (bool_decide (1%Z ∈ D)).
  rewrite bind_ret.
  rewrite (bind_ok _ _ _ _ _ (list_pop_snoc [] t0)). cbv beta.
  unfold lift, Output_forward. cbn [Output_block].
  destruct (concat_apply_shape
              (conv_block output_block (if bool_decide (0%Z ∈ D) then 32 else 32 + 32)
                          3 k 1 (k / 2))
              y7 t0 _ _ _ _ _ (bool_decide (0%Z ∈ D)) Hy7 H0) as (relit & -> & Hrelit);
    [reflexivity|exact Hk|reflexivity|reflexivity|lia|lia|].
  exists relit. split; [reflexivity|]. rewrite Hrelit.
  cbn [conv_block out_channels block_in_extent upsample].
  replace (16 * a) with (2 * (2 * (2 * (2 * a)))) by lia.
  by replace (16 * b) with (2 * (2 * (2 * (2 * b)))) by lia.
Qed.

Lemma AnOtherSwapNetSplitter_shape x n h w :
  size x = [n; 512; h; w] ->
  exists light scene,
    AnOtherSwapNetSplitter_forward x = Ok (Some scene, light)
    /\ size light = [n; 3; h; w]
    /\ size scene = [n; 509; h; w].
Proof.
  intros Hsz.
  assert (wrap_dim (length (size x)) 1 = Ok 1) as Hd by (by rewrite Hsz).
  destruct (torch_narrow_ok x 1 1 0 3 Hd) as (light & Hl & Hls);
    [lia|lia|rewrite Hsz; cbn; lia|].
  destruct (torch_narrow_ok x 1 1 3 509 Hd) as (scene & Hs & Hss);
    [lia|lia|rewrite Hsz; cbn; lia|].
  rewrite Hsz in Hls, Hss.
  exists light, scene. split; [|done].
  unfold AnOtherSwapNetSplitter_forward, size_splits, tensor_size.
  change (1 <? 0)%Z with false. cbv iota. rewrite Hd, Hsz. cbn [rbind].
  change ([n; 512; h; w] !!! 1) with 512.
  change (negb (Z.of_nat 512 =? sumZ [3; 509])%Z) with false. cbv iota.
  cbn [cumsum_from zip zip_with rmap].
  change (0 + 3)%Z with 3%Z. by rewrite Hl, Hs.
Qed.

(** X12.  The default channel-split network, end to end: for an odd last
    kernel size and any list of disabled indices within [[0, 10)], the
    network is constructed, and on three batches of [n] images whose
    height and width are positive multiples of 16 the forward pass
    returns, in any state: the relit image has the shape of the input, the
    three light latents have 3 channels and the three scene latents 509,
    at one sixteenth of the resolution.  The latent is asked to hold more
    than one value per channel ([n*a*b >= 2]), which is what batch
    normalisation requires of its input in training mode. *)
Theorem AnOtherSwapNet_forward_shapes (last_kernel_size : nat)
    (disabled : option (list Z)) image target groundtruth n a b :
  Nat.odd last_kernel_size = true ->
  Forall (fun i => 0 <= i < 10)%Z (default [] disabled) ->
  size image = [n; 3; 16 * a; 16 * b] ->
  size target = [n; 3; 16 * a; 16 * b] ->
  size groundtruth = [n; 3; 16 * a; 16 * b] ->
  2 <= n * a * b ->
  exists net,
    AnOtherSwapNet_init last_kernel_size disabled = Ok net
    /\ forall st, exists relit il tl gl isc tsc gsc st',
         SwapNet_forward net image target groundtruth st
         = (Ok (relit, il, tl, gl, Some isc, Some tsc, Some gsc), st')
         /\ size relit = [n; 3; 16 * a; 16 * b]
         /\ Forall (fun t => size t = [n; 3; a; b]) [il; tl; gl]
         /\ Forall (fun t => size t = [n; 509; a; b]) [isc; tsc; gsc].
Proof.
  intros Hk HD Himg Htgt Hgt Hnab.
  assert (1 <= a /\ 1 <= b) as [Ha Hb] by nia.
  set (D := default [] disabled) in *.
  destruct (Decoder_init_accepts 3 4 last_kernel_size
              (Some (map (fun i => 10 - 1 - i)%Z D))) as [dec Hdec]; [lia|].
  exists {| encode := Encoder_init 3 4 (Some D); codec := AnOtherSwapNet_codec;
            decode := dec |}.
  split.
  { unfold AnOtherSwapNet_init, SwapNet_init. fold D.
    change (Encoder_get_number_of_possible_skip_connections (Encoder_init 3 4 (Some D)))
      with 10%Z.
    by rewrite Hdec. }
  intros st. unfold SwapNet_forward. cbn [encode codec decode].
  destruct (Encoder_trace_default_shapes (Some D) image n a b Himg Ha Hb)
    as (il0 & stack & Htr & Hil0 & Hstack).
  destruct (Encoder_forward_trace (Encoder_init 3 4 (Some D)) image st)
    as (st1 & E1 & Hr & Hs & _).
  rewrite Htr in E1, Hs. cbn [fst snd] in E1, Hs.
  rewrite (bind_ok _ _ _ _ _ E1). cbv beta.
  assert (length stack = 10) as Hlen.
  { rewrite <- (length_map size), Hstack. reflexivity. }
  assert (Encoder_get_skip_connections (Encoder_init 3 4 (Some D)) st1
          = (Ok (next_loc st), set_heap st1 (next_loc st) (with_placeholders stack D)))
    as E2.
  { apply Encoder_get_skip_connections_run; [done|done|]. by rewrite Hlen. }
  rewrite (bind_ok _ _ _ _ _ E2). cbv beta.
  set (st2 := set_heap st1 (next_loc st) (with_placeholders stack D)) in *.
  destruct (Encoder_trace_default_shapes (Some D) target n a b Htgt Ha Hb)
    as (tl0 & tstack & Htr3 & Htl0 & _).
  destruct (Encoder_forward_trace (Encoder_init 3 4 (Some D)) target st2)
    as (st3 & E3 & _).
  rewrite Htr3 in E3. cbn [fst] in E3.
  rewrite (bind_ok _ _ _ _ _ E3). cbv beta.
  destruct (Encoder_trace_default_shapes (Some D) groundtruth n a b Hgt Ha Hb)
    as (gl0 & gstack & Htr4 & Hgl0 & _).
  destruct (Encoder_forward_trace (Encoder_init 3 4 (Some D)) groundtruth st3)
    as (st4 & E4 & _).
  rewrite Htr4 in E4. cbn [fst] in E4.
  rewrite (bind_ok _ _ _ _ _ E4). cbv beta.
  destruct (image_stack_survives
              {| encode := Encoder_init 3 4 (Some D); codec := AnOtherSwapNet_codec;
                 decode := dec |}
              image target groundtruth st il0 st1 (next_loc st) st2
              (Ok tl0) st3 (Ok gl0) st4 E1 E2 E3 E4) as (_ & _ & Hkeep).
  unfold st2 in Hkeep. cbn [set_heap heap] in Hkeep.
  rewrite lookup_insert_eq in Hkeep.
  cbn [AnOtherSwapNet_codec split assemble].
  destruct (AnOtherSwapNetSplitter_shape il0 n a b Hil0) as (il & isc & -> & Hil & Hisc).
  destruct (AnOtherSwapNetSplitter_shape tl0 n a b Htl0) as (tl & tsc & -> & Htl & Htsc).
  destruct (AnOtherSwapNetSplitter_shape gl0 n a b Hgl0) as (gl & gsc & -> & Hgl & Hgsc).
  destruct (channel_cat_ok tl isc n 3 509 a b Htl Hisc) as (swapped & Hcat & Hsw).
  change (3 + 509) with 512 in Hsw.
  destruct (Decoder_forward_default_shape last_kernel_size D dec swapped stack n a b
              Hk HD Hdec Hsw Ha Hb Hstack) as (relit & Hrun & Hrelit).
  exists relit, il, tl, gl, isc, tsc, gsc. eexists.
  split; [|split; [exact Hrelit|split; repeat constructor; done]].
  rewrite bind_lift. cbv beta iota.
  rewrite bind_lift. cbv beta iota.
  rewrite bind_lift. cbv beta iota.
  unfold AnOtherSwapNetAssembler_forward. rewrite bind_lift, Hcat. cbv beta iota.
  unfold bind, with_list. rewrite Hkeep, Hrun. unfold ret. reflexivity.
Qed.

(** ** The weighted-pool / tile codec *)

Lemma WeightedPooling_forward_ok (c envmap_h envmap_w : nat) pool x n h w :
  WeightedPooling_init c envmap_h envmap_w = Ok pool ->
  size x = [n; c; h; w] -> 1 <= h -> 1 <= w ->
  c = envmap_h * envmap_w
  /\ exists envmap,
       WeightedPooling_forward pool x = Ok envmap
       /\ size envmap = [n; 3 * (envmap_h * envmap_w); 1; 1].
Proof.
  unfold WeightedPooling_init. intros Hpool Hsz Hh Hw.
  destruct (decide (c = envmap_h * envmap_w)) as [Hc|Hc];
    [|by rewrite bool_decide_eq_false_2 in Hpool by done].
  rewrite bool_decide_eq_true_2 in Hpool by done. injection Hpool as <-.
  split; [done|]. rewrite <- Hc. clear Hc.
  unfold WeightedPooling_forward. cbn [WeightedPooling_conv].
  change (c + (c + (c + (c + 0)))) with (4 * c).
  destruct (apply_block_ok (conv_block weighted_pool_conv c (4 * c) 3 1 1) x n c h w Hsz)
    as (y & -> & Hy); [reflexivity|reflexivity|cbn; lia|cbn; lia|].
  cbn [conv_block out_channels kernel_size stride padding] in Hy.
  rewrite !conv_out_same3 in Hy by lia. cbn [rbind].
  assert (wrap_dim (length (size y)) 1 = Ok 1) as Hd by (by rewrite Hy).
  unfold tensor_size. rewrite Hd. cbn [rbind].
  assert (size y !!! 1 = 4 * c) as -> by (by rewrite Hy).
  assert (4 * c / 4 = c) as ->.
  { rewrite Nat.mul_comm. apply Nat.div_mul. lia. }
  replace (4 * c - 3 * c) with c by lia.
  destruct (torch_narrow_ok y 1 1 0 (Z.of_nat (3 * c)) Hd) as (pred & -> & Hpred);
    [lia|lia|rewrite Hy; cbn; lia|].
  destruct (torch_narrow_ok y 1 1 (Z.of_nat (3 * c)) (Z.of_nat c) Hd)
    as (conf & -> & Hconf); [lia|lia|rewrite Hy; cbn; lia|].
  rewrite Hy, Nat2Z.id in Hpred, Hconf. cbn [rbind].
  change (<[1:=3 * c]> [n; 4 * c; h; w]) with [n; 3 * c; h; w] in Hpred.
  change (<[1:=c]> [n; 4 * c; h; w]) with [n; c; h; w] in Hconf.
  unfold repeat_channels. rewrite Hconf. cbn [rbind].
  unfold tensor_mul. cbn [size]. rewrite Hpred.
  rewrite bool_decide_eq_true_2 by reflexivity. cbn [rbind].
  unfold sum_spatial. cbn [size]. eauto.
Qed.

Lemma Tiling_forward_ok (tile_size cin cout : nat) x n h w :
  size x = [n; cin; h; w] -> 1 <= tile_size * h -> 1 <= tile_size * w ->
  exists y,
    Tiling_forward (Tiling_init tile_size cin cout) x = Ok y
    /\ size y = [n; cout; tile_size * h; tile_size * w].
Proof.
  intros Hsz Hh Hw.
  unfold Tiling_forward, Tiling_init, repeat_spatial.
  cbn [Tiling_size Tiling_encode]. rewrite Hsz. cbn [rbind].
  match goal with |- context [apply_block ?b ?t] =>
    destruct (apply_block_ok b t n cin (tile_size * h) (tile_size * w))
      as (y & -> & Hy); [reflexivity|reflexivity|reflexivity|cbn; lia|cbn; lia|]
  end.
  cbn [conv_block out_channels kernel_size stride padding] in Hy.
  rewrite !conv_out_same3 in Hy by lia. eauto.
Qed.

(** X13.  Weighted pooling turns a feature map of [c = envmap_h * envmap_w]
    channels (the constructor accepts no other count) and of any spatial
    size into one value per channel and colour: the result has size
    [[n, 3*c, 1, 1]].  (The input holds more than one value per channel, as
    batch normalisation requires in training mode.) *)
Theorem WeightedPooling_forward_shape (c envmap_h envmap_w : nat) pool x n h w :
  WeightedPooling_init c envmap_h envmap_w = Ok pool ->
  size x = [n; c; h; w] -> 2 <= n * h * w ->
  c = envmap_h * envmap_w
  /\ exists envmap,
       WeightedPooling_forward pool x = Ok envmap
       /\ size envmap = [n; 3 * (envmap_h * envmap_w); 1; 1].
Proof.
  intros Hpool Hsz Hnhw. eapply WeightedPooling_forward_ok; [exact Hpool|exact Hsz|nia|nia].
Qed.

(** X14.  Tiling repeats its input [size] times along both spatial axes
    before its convolution: from [[n, c_in, h, w]] it yields
    [[n, c_out, size*h, size*w]].  (The tiled tensor holds more than one
    value per channel, as batch normalisation requires in training mode.) *)
Theorem Tiling_forward_shape (tile_size cin cout : nat) x n h w :
  size x = [n; cin; h; w] -> 2 <= n * (tile_size * h) * (tile_size * w) ->
  exists y,
    Tiling_forward (Tiling_init tile_size cin cout) x = Ok y
    /\ size y = [n; cout; tile_size * h; tile_size * w].
Proof.
  intros Hsz Hn. apply Tiling_forward_ok; [exact Hsz|nia|nia].
Qed.

(** ** The weighted-pool network needs 256x256 images *)

(** The first decoder layer concatenates the encoded latent with the tensor
    on top of the stack: when that tensor is not the placeholder and
    differs from the latent in batch or spatial size, the pass stops
    there. *)
Lemma Decoder_forward_first_mismatch (k : nat) D' dec latent rest top n h w c n' h' w' :
  Decoder_init 3 4 k D' = Ok dec ->
  size latent = [n; 512; h; w] -> 1 <= h -> 1 <= w ->
  size top = [n'; c; h'; w'] -> (n, h, w) <> (n', h', w') ->
  Decoder_forward dec latent (rest ++ [top]) = (Raise RuntimeError, rest).
Proof.
  intros Hdec Hlat Hh Hw Htop Hne.
  revert Hdec. unfold Decoder_init, DecBottleneckConv_init.
  change (negb (2 <=? 4)%Z) with false. cbv iota.
  rewrite bool_decide_eq_true_2 by reflexivity. cbn [negb rbind].
  intros [= <-].
  unfold Decoder_forward, DecBottleneckConv_forward.
  cbn [Decoder_bottleneck DecBottleneckConv_encode initial_conv].
  destruct (apply_block_ok (conv_block dec_bottleneck_encode 512 256 3 1 1) latent
              n 512 h w Hlat) as (x & Henc & Hx);
    [reflexivity|reflexivity|cbn; lia|cbn; lia|].
  cbn [conv_block out_channels kernel_size stride padding] in Hx.
  rewrite !conv_out_same3 in Hx by lia.
  rewrite !bind_assoc, bind_lift, Henc. cbv beta iota.
  rewrite !bind_assoc. apply bind_raise. rewrite pop_concat_apply_rbind. f_equal.
  unfold channel_concat, torch_cat, legacy_empty. rewrite Hx, Htop.
  rewrite !bool_decide_eq_false_2 by discriminate. cbn [length].
  change (wrap_dim 4 1) with (Ok (A:=nat) 1). cbn [rbind]. unfold same_except.
  rewrite bool_decide_eq_false_2; [done|].
  intros [= -> -> ->]. by apply Hne.
Qed.

(** A pass of the weighted-pool network on encodable images, up to its
    decoding step. *)
Lemma GroundtruthEnvmapSwapNet_run (disabled : option (list Z))
    image target groundtruth n a b ta tb :
  let D := default [] disabled in
  Forall (fun i => 0 <= i < 10)%Z D ->
  size image = [n; 3; 16 * a; 16 * b] -> size target = [n; 3; 16 * ta; 16 * tb] ->
  1 <= a -> 1 <= b -> 1 <= ta -> 1 <= tb ->
  exists net dec,
    GroundtruthEnvmapSwapNet_init disabled = Ok net
    /\ Decoder_init 3 4 3 (Some (map (fun i => 10 - 1 - i)%Z D)) = Ok dec
    /\ forall st, exists stack swapped ienv tenv st3,
         map size stack = default_skip_sizes n a b
         /\ size swapped = [n; 512; 16; 16]
         /\ size ienv = [n; 1536; 1; 1]
         /\ size tenv = [n; 1536; 1; 1]
         /\ GroundtruthEnvmapSwapNet_forward net image target groundtruth st
            = (match (Decoder_forward dec swapped (with_placeholders stack D)).1 with
               | Ok relit => Ok (relit, ienv, tenv)
               | Raise e => Raise e
               end,
               set_heap st3 (next_loc st)
                 (Decoder_forward dec swapped (with_placeholders stack D)).2).
Proof.
  intros D HD Himg Htgt Ha Hb Hta Htb.
  destruct (Decoder_init_accepts 3 4 3 (Some (map (fun i => 10 - 1 - i)%Z D)))
    as [dec Hdec]; [lia|].
  destruct (WeightedPooling_init 512 16 32) as [pool|] eqn:Hpool;
    [|by unfold WeightedPooling_init in Hpool;
         rewrite bool_decide_eq_true_2 in Hpool by reflexivity].
  set (c := {| split := IlluminationSwapNetSplitter_forward pool;
               assemble := IlluminationSwapNetAssembler_forward (Tiling_init 16 1536 512) |}).
  exists {| encode := Encoder_init 3 4 (Some D); codec := c; decode := dec |}, dec.
  split.
  { unfold GroundtruthEnvmapSwapNet_init, IlluminationSwapNet_codec.
    rewrite Hpool. cbn [rbind]. fold c. unfold SwapNet_init. fold D.
    change (Encoder_get_number_of_possible_skip_connections (Encoder_init 3 4 (Some D)))
      with 10%Z.
    by rewrite Hdec. }
  split; [exact Hdec|].
  intros st. unfold GroundtruthEnvmapSwapNet_forward. cbn [encode codec decode].
  destruct (Encoder_trace_default_shapes (Some D) image n a b Himg Ha Hb)
    as (il0 & stack & Htr & Hil0 & Hstack).
  destruct (Encoder_forward_trace (Encoder_init 3 4 (Some D)) image st)
    as (st1 & E1 & Hr & Hs & Hlt).
  rewrite Htr in E1, Hs. cbn [fst snd] in E1, Hs.
  assert (length stack = 10) as Hlen.
  { rewrite <- (length_map size), Hstack. reflexivity. }
  assert (Encoder_get_skip_connections (Encoder_init 3 4 (Some D)) st1
          = (Ok (next_loc st), set_heap st1 (next_loc st) (with_placeholders stack D)))
    as E2.
  { apply Encoder_get_skip_connections_run; [done|done|]. by rewrite Hlen. }
  set (st2 := set_heap st1 (next_loc st) (with_placeholders stack D)) in *.
  destruct (Encoder_trace_default_shapes (Some D) target n ta tb Htgt Hta Htb)
    as (tl0 & tstack & Htr3 & Htl0 & _).
  destruct (Encoder_forward_trace (Encoder_init 3 4 (Some D)) target st2)
    as (st3 & E3 & _).
  rewrite Htr3 in E3. cbn [fst] in E3.
  assert (heap st3 !! next_loc st = Some (with_placeholders stack D)) as Hkeep.
  { destruct (Encoder_forward_extends _ _ _ _ _ E3) as [_ Hold].
    rewrite Hold by (unfold st2; cbn [set_heap next_loc]; lia).
    unfold st2. cbn [set_heap heap]. apply lookup_insert_eq. }
  destruct (WeightedPooling_forward_ok 512 16 32 pool il0 n a b Hpool Hil0 Ha Hb)
    as (_ & ienv & Hienv & Hisz).
  destruct (WeightedPooling_forward_ok 512 16 32 pool tl0 n ta tb Hpool Htl0 Hta Htb)
    as (_ & tenv & Htenv & Htsz).
  change (3 * (16 * 32)) with 1536 in Hisz, Htsz.
  destruct (Tiling_forward_ok 16 1536 512 tenv n 1 1 Htsz) as (swapped & Htile & Hsw);
    [lia|lia|].
  change (16 * 1) with 16 in Hsw.
  exists stack, swapped, ienv, tenv, st3.
  split; [exact Hstack|]. split; [exact Hsw|]. split; [exact Hisz|].
  split; [exact Htsz|].
  rewrite (bind_ok _ _ _ _ _ E1). cbv beta.
  rewrite (bind_ok _ _ _ _ _ E2). cbv beta.
  unfold c. cbn [split assemble].
  unfold IlluminationSwapNetSplitter_forward, IlluminationSwapNetAssembler_forward.
  rewrite bind_lift, Hienv. cbn [rbind]. cbv beta iota.
  rewrite (bind_ok _ _ _ _ _ E3). cbv beta.
  rewrite bind_lift, Htenv. cbn [rbind]. cbv beta iota.
  rewrite bind_lift, Htile. cbv beta iota.
  unfold bind, with_list. rewrite Hkeep.
  destruct (Decoder_forward dec swapped (with_placeholders stack D)) as [[relit|e] rest];
    reflexivity.
Qed.

(** X15.  The weighted-pool network at its working resolution: for any
    disabled indices within [[0, 10)], on a batch of [n >= 1] images of 256
    by 256 pixels and a target batch of [n] images whose sides are
    positive multiples of 16, the network is constructed and its forward
    pass returns the relit image with the shape of the input and the two
    predicted environment maps, of [3 * 16 * 32] values per image.  (The
    target's latent holds more than one value per channel, as batch
    normalisation requires in training mode.) *)
Theorem GroundtruthEnvmapSwapNet_forward_shapes (disabled : option (list Z))
    image target groundtruth n ta tb :
  Forall (fun i => 0 <= i < 10)%Z (default [] disabled) ->
  size image = [n; 3; 256; 256] -> size target = [n; 3; 16 * ta; 16 * tb] ->
  2 <= n * ta * tb ->
  exists net,
    GroundtruthEnvmapSwapNet_init disabled = Ok net
    /\ forall st, exists relit image_envmap target_envmap st',
         GroundtruthEnvmapSwapNet_forward net image target groundtruth st
         = (Ok (relit, image_envmap, target_envmap), st')
         /\ size relit = [n; 3; 256; 256]
         /\ size image_envmap = [n; 3 * 16 * 32; 1; 1]
         /\ size target_envmap = [n; 3 * 16 * 32; 1; 1].
Proof.
  intros HD Himg Htgt Hn.
  destruct (GroundtruthEnvmapSwapNet_run disabled image target groundtruth n 16 16 ta tb
              HD Himg Htgt) as (net & dec & Hnet & Hdec & Hrun); [lia|lia|nia|nia|].
  exists net. split; [exact Hnet|]. intros st.
  destruct (Hrun st) as (stack & swapped & ienv & tenv & st3 & Hstack & Hsw & Hi & Ht & ->).
  destruct (Decoder_forward_default_shape 3 (default [] disabled) dec swapped stack
              n 16 16 eq_refl HD Hdec Hsw) as (relit & -> & Hrelit); [lia|lia|exact Hstack|].
  exists relit, ienv, tenv. eexists. split; [reflexivity|].
  split; [exact Hrelit|]. split; [exact Hi|exact Ht].
Qed.

(** X16.  The weighted-pool network rejects every other image size: the
    latent it decodes is tiled to 16 by 16 whatever the input, so that for
    images of [16*a] by [16*b] pixels other than 256 by 256, with the last
    skip connection (index 9) enabled, the first concatenation of the
    decoder fails and the forward pass raises [RuntimeError].  (Both
    latents hold more than one value per channel, so that batch
    normalisation does not stop the pass earlier in training mode.) *)
Theorem GroundtruthEnvmapSwapNet_rejects_other_sizes (disabled : option (list Z))
    image target groundtruth n a b ta tb :
  Forall (fun i => 0 <= i < 10)%Z (default [] disabled) ->
  9%Z ∉ default [] disabled ->
  size image = [n; 3; 16 * a; 16 * b] -> size target = [n; 3; 16 * ta; 16 * tb] ->
  2 <= n * a * b -> 2 <= n * ta * tb ->
  (a, b) <> (16, 16) ->
  exists net,
    GroundtruthEnvmapSwapNet_init disabled = Ok net
    /\ forall st, exists st',
         GroundtruthEnvmapSwapNet_forward net image target groundtruth st
         = (Raise RuntimeError, st').
Proof.
  intros HD H9 Himg Htgt Hnab Hntab Hab.
  assert (1 <= a /\ 1 <= b /\ 1 <= ta /\ 1 <= tb) as (Ha & Hb & Hta & Htb) by nia.
  destruct (GroundtruthEnvmapSwapNet_run disabled image target groundtruth n a b ta tb
              HD Himg Htgt Ha Hb Hta Htb) as (net & dec & Hnet & Hdec & Hrun).
  exists net. split; [exact Hnet|]. intros st.
  destruct (Hrun st) as (stack & swapped & ienv & tenv & st3 & Hstack & Hsw & _ & _ & ->).
  assert (Forall (fun i => 0 <= i)%Z (default [] disabled)) as Hnn.
  { eapply Forall_impl; [exact HD|]. simpl. lia. }
  destruct (with_placeholders_shape stack (default [] disabled) 9 [n; 512; a; b] Hnn)
    as (top & Htop & Hsz); [by rewrite Hstack|].
  change (Z.of_nat 9) with 9%Z in Hsz.
  rewrite bool_decide_eq_false_2 in Hsz by done.
  assert (length (with_placeholders stack (default [] disabled)) = 10) as Hlen.
  { rewrite with_placeholders_length, <- (length_map size), Hstack. reflexivity. }
  assert (exists rest, with_placeholders stack (default [] disabled) = rest ++ [top])
    as [rest ->].
  { destruct (with_placeholders stack (default [] disabled))
      as [|t0 [|t1 [|t2 [|t3 [|t4 [|t5 [|t6 [|t7 [|t8 [|t9 [|]]]]]]]]]]];
      try discriminate Hlen.
    injection Htop as ->. by exists [t0; t1; t2; t3; t4; t5; t6; t7; t8]. }
  rewrite (Decoder_forward_first_mismatch 3 _ dec swapped rest top n 16 16 512 n a b
             Hdec Hsw); [eauto|lia|lia|exact Hsz|].
  intros [= <- <-]. by apply Hab.
Qed.

(** ** What a decoder pass does to the list it is handed, whatever its outcome *)

Lemma pop_concat_apply_state conv x stack res rest :
  pop_concat_apply conv x stack = (res, rest) ->
  exists popped, stack = rest ++ popped /\ length popped <= 1.
Proof.
  unfold pop_concat_apply, bind at 1.
  destruct (list_pop stack) as [[skip|e] s'] eqn:E.
  - apply list_pop_inv in E as ->. rewrite bind_lift.
    destruct (channel_concat x skip) as [c|e]; unfold lift; intros [= _ <-];
      (exists [skip]; split; [done|simpl; lia]).
  - unfold list_pop in E. destruct (last stack); [done|].
    injection E as _ <-. intros [= _ <-]. exists []. rewrite app_nil_r.
    split; [done|simpl; lia].
Qed.

Lemma layers_pop_state layers : forall x stack res rest,
  foldM (fun x conv => pop_concat_apply conv x) layers x stack = (res, rest) ->
  exists popped, stack = rest ++ popped /\ length popped <= length layers.
Proof.
  induction layers as [|conv layers IH]; intros x stack res rest; simpl.
  - intros [= _ <-]. exists []. rewrite app_nil_r. split; [done|simpl; lia].
  - unfold bind. destruct (pop_concat_apply conv x stack) as [[x'|e] s'] eqn:E.
    + intros Hrest. apply pop_concat_apply_state in E as (p1 & -> & Hp1).
      apply IH in Hrest as (p2 & -> & Hp2).
      exists (p2 ++ p1). rewrite length_app, <- app_assoc. split; [done|lia].
    + intros [= _ <-]. apply pop_concat_apply_state in E as (p1 & -> & Hp1).
      exists p1. split; [done|lia].
Qed.

(** X17.  [Decoder.forward] only ever pops: whether it returns or raises,
    the list it was handed is left a prefix of what it was, shortened by at
    most one tensor per layer; nothing is pushed back, replaced or
    reordered, also when the pass fails half way. *)
Theorem Decoder_forward_only_pops (self : Decoder) latent stack res rest :
  Decoder_forward self latent stack = (res, rest) ->
  exists popped,
    stack = rest ++ popped
    /\ length popped <= length (Decoder_layers self).
Proof.
  rewrite Decoder_forward_layers. unfold bind at 1, lift.
  destruct (apply_block _ latent).
  - apply layers_pop_state.
  - intros [= _ <-]. exists []. rewrite app_nil_r. split; [done|simpl; lia].
Qed.

(** ** Inputs the encoder rejects *)

(** X18.  An image batch that does not have 3 channels is rejected by the
    first convolution: [Encoder.forward] raises [RuntimeError], and the
    encoder's [skip_connections] is left bound to the new, empty list the
    pass started with (the stack of the previous pass is no longer
    reachable through the encoder). *)
Theorem Encoder_forward_rejects_channels (n_double_conv bottleneck_depth : Z)
    (disabled : option (list Z)) image st n c h w :
  size image = [n; c; h; w] -> c <> 3 ->
  exists st',
    Encoder_forward (Encoder_init n_double_conv bottleneck_depth disabled) image st
    = (Raise RuntimeError, st')
    /\ skip_connections st' !! the_encoder = Some (next_loc st)
    /\ heap st' !! next_loc st = Some [].
Proof.
  intros Hsz Hc.
  destruct (Encoder_forward_trace
              (Encoder_init n_double_conv bottleneck_depth disabled) image st)
    as (st' & Hrun & Hr & Hs & _).
  assert (Encoder_trace (Encoder_init n_double_conv bottleneck_depth disabled) image
          = (Raise RuntimeError, [])) as Htr.
  { unfold Encoder_trace, Encoder_init, ImageEncoding_stage, ImageEncoding_init.
    cbn [image_encoder ImageEncoding_conv1]. unfold apply_block at 1. rewrite Hsz.
    cbn [conv_block in_channels]. by rewrite bool_decide_eq_false_2 by done. }
  rewrite Htr in Hrun, Hs. by exists st'.
Qed.

(** ** Negative disabled indices *)

Lemma disable_loop_run_wrapped (disabled : list Z) (n : nat) : forall st r stack,
  skip_connections st !! the_encoder = Some r -> heap st !! r = Some stack ->
  length stack = n ->
  Forall (fun i => - Z.of_nat n <= i < Z.of_nat n)%Z disabled ->
  forM_ (fun i => bind (get_attr the_encoder) (fun r => list_setitem r i EMPTY_TENSOR))
        disabled st
  = (Ok tt, set_heap st r (with_placeholders stack (map (wrap_index n) disabled))).
Proof.
  induction disabled as [|i disabled IH]; intros st r stack Hr Hl Hlen Hall; simpl.
  - unfold ret. by rewrite set_heap_id.
  - inversion Hall as [|? ? Hi Hrest]; subst.
    unfold bind at 1. unfold bind at 1, get_attr at 1. rewrite Hr.
    assert (list_setitem r i EMPTY_TENSOR st
            = (Ok tt, set_heap st r
                        (<[Z.to_nat (wrap_index (length stack) i) := EMPTY_TENSOR]> stack)))
      as ->.
    { unfold list_setitem, bind, read_list, wrap_index. rewrite Hl.
      destruct (Z.ltb_spec i 0).
      - destruct (Z.leb_spec 0 (i + Z.of_nat (length stack))); [|lia].
        destruct (Z.ltb_spec (i + Z.of_nat (length stack)) (Z.of_nat (length stack)));
          [|lia]. reflexivity.
      - destruct (Z.leb_spec 0 i); [|lia].
        destruct (Z.ltb_spec i (Z.of_nat (length stack))); [|lia]. reflexivity. }
    rewrite (IH _ r (<[Z.to_nat (wrap_index (length stack) i) := EMPTY_TENSOR]> stack)).
    + by rewrite set_heap_twice.
    + done.
    + simpl. apply lookup_insert_eq.
    + by rewrite length_insert.
    + done.
Qed.

Lemma wrap_index_range n i :
  (- Z.of_nat n <= i < Z.of_nat n)%Z -> (0 <= wrap_index n i < Z.of_nat n)%Z.
Proof. unfold wrap_index. destruct (Z.ltb_spec i 0); lia. Qed.

(** The first decoder layer, built for an enabled skip connection, handed
    the placeholder. *)
Lemma Decoder_forward_first_placeholder (k : nat) (D : list Z) dec latent rest n h w :
  Decoder_init 3 4 k (Some (map (fun i => 10 - 1 - i)%Z D)) = Ok dec ->
  9%Z ∉ D ->
  size latent = [n; 512; h; w] -> 1 <= h -> 1 <= w ->
  Decoder_forward dec latent (rest ++ [EMPTY_TENSOR]) = (Raise RuntimeError, rest).
Proof.
  intros Hdec H9 Hlat Hh Hw.
  revert Hdec. unfold Decoder_init, DecBottleneckConv_init.
  change (negb (2 <=? 4)%Z) with false. cbv iota.
  rewrite bool_decide_eq_true_2 by reflexivity. cbn [negb rbind].
  intros [= <-].
  unfold Decoder_forward, DecBottleneckConv_forward.
  cbn [Decoder_bottleneck DecBottleneckConv_encode initial_conv].
  destruct (apply_block_ok (conv_block dec_bottleneck_encode 512 256 3 1 1) latent
              n 512 h w Hlat) as (x & Henc & Hx);
    [reflexivity|reflexivity|cbn; lia|cbn; lia|].
  cbn [conv_block out_channels kernel_size stride padding] in Hx.
  rewrite !conv_out_same3 in Hx by lia.
  rewrite !bind_assoc, bind_lift, Henc. cbv beta iota.
  rewrite !bind_assoc. apply bind_raise. rewrite pop_concat_apply_rbind. f_equal.
  unfold channel_concat, torch_cat, legacy_empty. rewrite Hx.
  rewrite bool_decide_eq_false_2 by discriminate.
  rewrite bool_decide_eq_true_2 by reflexivity. cbn [rbind].
  unfold SkipConnectionReceiver_init.
  rewrite (channels_in_layer_reflected 10 D 0 0 0 256 512 eq_refl).
  unfold skip_channels. change (10 - 1 - 0)%Z with 9%Z.
  rewrite bool_decide_eq_false_2 by done.
  unfold apply_block. rewrite Hx. cbn [conv_block in_channels].
  by rewrite bool_decide_eq_false_2 by discriminate.
Qed.

(** X19.  A negative disabled index is honoured by the encoder only: the
    encoder puts the placeholder at the position Python's wrap-around
    gives ([-1] is the last tensor pushed), while the constructor reflects
    the index to [(n-1) - i >= n], which is no layer of the decoder.  With
    [-1] disabled (and [9] not), the default channel-split network is
    constructed, and every forward pass on images it can encode raises
    [RuntimeError] in the first decoder layer. *)
Theorem AnOtherSwapNet_negative_disabled_index (last_kernel_size : nat)
    (D : list Z) image target groundtruth n a b :
  Forall (fun i => -10 <= i < 10)%Z D ->
  (-1)%Z ∈ D -> 9%Z ∉ D ->
  size image = [n; 3; 16 * a; 16 * b] ->
  size target = [n; 3; 16 * a; 16 * b] ->
  size groundtruth = [n; 3; 16 * a; 16 * b] ->
  2 <= n * a * b ->
  exists net,
    AnOtherSwapNet_init last_kernel_size (Some D) = Ok net
    /\ forall st, exists st',
         SwapNet_forward net image target groundtruth st = (Raise RuntimeError, st').
Proof.
  intros HD Hm1 H9 Himg Htgt Hgt Hnab.
  assert (1 <= a /\ 1 <= b) as [Ha Hb] by nia.
  destruct (Decoder_init_accepts 3 4 last_kernel_size
              (Some (map (fun i => 10 - 1 - i)%Z D))) as [dec Hdec]; [lia|].
  exists {| encode := Encoder_init 3 4 (Some D); codec := AnOtherSwapNet_codec;
            decode := dec |}.
  split.
  { unfold AnOtherSwapNet_init, SwapNet_init. cbn [default]. unfold id.
    change (Encoder_get_number_of_possible_skip_connections (Encoder_init 3 4 (Some D)))
      with 10%Z.
    by rewrite Hdec. }
  intros st. unfold SwapNet_forward. cbn [encode codec decode].
  destruct (Encoder_trace_default_shapes (Some D) image n a b Himg Ha Hb)
    as (il0 & stack & Htr & Hil0 & Hstack).
  destruct (Encoder_forward_trace (Encoder_init 3 4 (Some D)) image st)
    as (st1 & E1 & Hr & Hs & _).
  rewrite Htr in E1, Hs. cbn [fst snd] in E1, Hs.
  rewrite (bind_ok _ _ _ _ _ E1). cbv beta.
  assert (length stack = 10) as Hlen.
  { rewrite <- (length_map size), Hstack. reflexivity. }
  set (P := with_placeholders stack (map (wrap_index 10) D)).
  assert (Encoder_get_skip_connections (Encoder_init 3 4 (Some D)) st1
          = (Ok (next_loc st), set_heap st1 (next_loc st) P)) as E2.
  { unfold Encoder_get_skip_connections.
    cbn [Encoder_init Encoder_disabled_skip_connections default]. unfold id.
    erewrite bind_ok by (by apply (disable_loop_run_wrapped D 10)).
    unfold get_attr. simpl. by rewrite Hr. }
  rewrite (bind_ok _ _ _ _ _ E2). cbv beta.
  set (st2 := set_heap st1 (next_loc st) P) in *.
  destruct (Encoder_trace_default_shapes (Some D) target n a b Htgt Ha Hb)
    as (tl0 & tstack & Htr3 & Htl0 & _).
  destruct (Encoder_forward_trace (Encoder_init 3 4 (Some D)) target st2)
    as (st3 & E3 & _).
  rewrite Htr3 in E3. cbn [fst] in E3.
  rewrite (bind_ok _ _ _ _ _ E3). cbv beta.
  destruct (Encoder_trace_default_shapes (Some D) groundtruth n a b Hgt Ha Hb)
    as (gl0 & gstack & Htr4 & Hgl0 & _).
  destruct (Encoder_forward_trace (Encoder_init 3 4 (Some D)) groundtruth st3)
    as (st4 & E4 & _).
  rewrite Htr4 in E4. cbn [fst] in E4.
  rewrite (bind_ok _ _ _ _ _ E4). cbv beta.
  destruct (image_stack_survives
              {| encode := Encoder_init 3 4 (Some D); codec := AnOtherSwapNet_codec;
                 decode := dec |}
              image target groundtruth st il0 st1 (next_loc st) st2
              (Ok tl0) st3 (Ok gl0) st4 E1 E2 E3 E4) as (_ & _ & Hkeep).
  unfold st2 in Hkeep. cbn [set_heap heap] in Hkeep.
  rewrite lookup_insert_eq in Hkeep.
  cbn [AnOtherSwapNet_codec split assemble].
  destruct (AnOtherSwapNetSplitter_shape il0 n a b Hil0) as (il & isc & -> & Hil & Hisc).
  destruct (AnOtherSwapNetSplitter_shape tl0 n a b Htl0) as (tl & tsc & -> & Htl & Htsc).
  destruct (AnOtherSwapNetSplitter_shape gl0 n a b Hgl0) as (gl & gsc & -> & Hgl & Hgsc).
  destruct (channel_cat_ok tl isc n 3 509 a b Htl Hisc) as (swapped & Hcat & Hsw).
  change (3 + 509) with 512 in Hsw.
  assert (exists rest, P = rest ++ [EMPTY_TENSOR]) as [rest HP].
  { assert (P !! 9 = Some EMPTY_TENSOR) as H9P.
    { unfold P. rewrite with_placeholders_lookup; [| |lia].
      - rewrite bool_decide_eq_true_2; [done|].
        apply list_elem_of_fmap. exists (-1)%Z. by split.
      - apply Forall_forall. intros j Hj.
        apply list_elem_of_fmap in Hj as (i & -> & Hi).
        rewrite Forall_forall in HD.
        pose proof (wrap_index_range 10 i (HD i Hi)). lia. }
    assert (length P = 10) as HlenP by (unfold P; by rewrite with_placeholders_length).
    destruct P as [|t0 [|t1 [|t2 [|t3 [|t4 [|t5 [|t6 [|t7 [|t8 [|t9 [|]]]]]]]]]]];
      try discriminate HlenP.
    injection H9P as ->. by exists [t0; t1; t2; t3; t4; t5; t6; t7; t8]. }
  rewrite HP in Hkeep.
  pose proof (Decoder_forward_first_placeholder last_kernel_size D dec swapped rest
                n a b Hdec H9 Hsw Ha Hb) as Hrun.
  eexists.
  rewrite bind_lift. cbv beta iota.
  rewrite bind_lift. cbv beta iota.
  rewrite bind_lift. cbv beta iota.
  unfold AnOtherSwapNetAssembler_forward. rewrite bind_lift, Hcat. cbv beta iota.
  unfold bind, with_list. rewrite Hkeep, Hrun. reflexivity.
Qed.

(** ** [IlluminationSwapNet] *)

Lemma tensor_view_envmap t n :
  size t = [n; 1536; 1; 1] ->
  exists envmap,
    tensor_view t [-1; 3; 16; 32]%Z = Ok envmap
    /\ size envmap = [n; 3; 16; 32]
    /\ data envmap = data t.
Proof.
  intros Hsz. unfold tensor_view. rewrite Hsz.
  change (existsb _ [-1; 3; 16; 32]%Z) with false. cbv iota.
  change (length (filter _ [-1; 3; 16; 32]%Z)) with 1.
  change (Z.to_nat (foldr Z.mul 1%Z (filter _ [-1; 3; 16; 32]%Z))) with 1536.
  assert (numel [n; 1536; 1; 1] = n * 1536) as ->.
  { unfold numel. cbn [foldr]. lia. }
  rewrite bool_decide_eq_false_2 by discriminate.
  rewrite Nat.Div0.mod_mul, bool_decide_eq_true_2 by reflexivity.
  rewrite Nat.div_mul by discriminate.
  eexists. split; [reflexivity|]. split; reflexivity.
Qed.

(** X20.  [IlluminationSwapNet] at its working resolution: for an odd last
    kernel size and disabled indices within [[0, 10)], on [n] images of
    256 by 256 pixels, with target and ground-truth batches of [n] images
    whose sides are positive multiples of 16, the forward pass returns the
    relit image with the shape of the input, the three predicted
    environment maps viewed as [[n, 3, 16, 32]], and [None] for the three
    scene latents.  (The latents hold more than one value per channel, as
    batch normalisation requires in training mode.) *)
Theorem IlluminationSwapNet_forward_shapes (last_kernel_size : nat)
    (disabled : option (list Z)) image target groundtruth n ta tb ga gb :
  Nat.odd last_kernel_size = true ->
  Forall (fun i => 0 <= i < 10)%Z (default [] disabled) ->
  size image = [n; 3; 256; 256] ->
  size target = [n; 3; 16 * ta; 16 * tb] ->
  size groundtruth = [n; 3; 16 * ga; 16 * gb] ->
  2 <= n * ta * tb -> 2 <= n * ga * gb ->
  exists net,
    IlluminationSwapNet_init last_kernel_size disabled = Ok net
    /\ forall st, exists relit image_envmap target_envmap groundtruth_envmap st',
         IlluminationSwapNet_forward net image target groundtruth st
         = (Ok (relit, image_envmap, target_envmap, groundtruth_envmap,
                None, None, None), st')
         /\ size relit = [n; 3; 256; 256]
         /\ Forall (fun t => size t = [n; 3; 16; 32])
                   [image_envmap; target_envmap; groundtruth_envmap].
Proof.
  intros Hk HD Himg Htgt Hgt Hnt Hng.
  assert (1 <= ta /\ 1 <= tb /\ 1 <= ga /\ 1 <= gb) as (Hta & Htb & Hga & Hgb) by nia.
  set (D := default [] disabled) in *.
  destruct (Decoder_init_accepts 3 4 last_kernel_size
              (Some (map (fun i => 10 - 1 - i)%Z D))) as [dec Hdec]; [lia|].
  destruct (WeightedPooling_init 512 16 32) as [pool|] eqn:Hpool;
    [|by unfold WeightedPooling_init in Hpool;
         rewrite bool_decide_eq_true_2 in Hpool by reflexivity].
  set (c := {| split := IlluminationSwapNetSplitter_forward pool;
               assemble := IlluminationSwapNetAssembler_forward (Tiling_init 16 1536 512) |}).
  exists {| encode := Encoder_init 3 4 (Some D); codec := c; decode := dec |}.
  split.
  { unfold IlluminationSwapNet_init, IlluminationSwapNet_codec.
    rewrite Hpool. cbn [rbind]. fold c. unfold SwapNet_init. fold D.
    change (Encoder_get_number_of_possible_skip_connections (Encoder_init 3 4 (Some D)))
      with 10%Z.
    by rewrite Hdec. }
  intros st. unfold IlluminationSwapNet_forward, SwapNet_forward.
  cbn [encode codec decode].
  destruct (Encoder_trace_default_shapes (Some D) image n 16 16 Himg)
    as (il0 & stack & Htr & Hil0 & Hstack); [lia|lia|].
  destruct (Encoder_forward_trace (Encoder_init 3 4 (Some D)) image st)
    as (st1 & E1 & Hr & Hs & _).
  rewrite Htr in E1, Hs. cbn [fst snd] in E1, Hs.
  assert (length stack = 10) as Hlen.
  { rewrite <- (length_map size), Hstack. reflexivity. }
  assert (Encoder_get_skip_connections (Encoder_init 3 4 (Some D)) st1
          = (Ok (next_loc st), set_heap st1 (next_loc st) (with_placeholders stack D)))
    as E2.
  { apply Encoder_get_skip_connections_run; [done|done|]. by rewrite Hlen. }
  set (st2 := set_heap st1 (next_loc st) (with_placeholders stack D)) in *.
  destruct (Encoder_trace_default_shapes (Some D) target n ta tb Htgt Hta Htb)
    as (tl0 & tstack & Htr3 & Htl0 & _).
  destruct (Encoder_forward_trace (Encoder_init 3 4 (Some D)) target st2)
    as (st3 & E3 & _).
  rewrite Htr3 in E3. cbn [fst] in E3.
  destruct (Encoder_trace_default_shapes (Some D) groundtruth n ga gb Hgt Hga Hgb)
    as (gl0 & gstack & Htr4 & Hgl0 & _).
  destruct (Encoder_forward_trace (Encoder_init 3 4 (Some D)) groundtruth st3)
    as (st4 & E4 & _).
  rewrite Htr4 in E4. cbn [fst] in E4.
  destruct (image_stack_survives
              {| encode := Encoder_init 3 4 (Some D); codec := c; decode := dec |}
              image target groundtruth st il0 st1 (next_loc st) st2
              (Ok tl0) st3 (Ok gl0) st4 E1 E2 E3 E4) as (_ & _ & Hkeep).
  unfold st2 in Hkeep. cbn [set_heap heap] in Hkeep.
  rewrite lookup_insert_eq in Hkeep.
  destruct (WeightedPooling_forward_ok 512 16 32 pool il0 n 16 16 Hpool Hil0)
    as (_ & ienv & Hienv & Hisz); [lia|lia|].
  destruct (WeightedPooling_forward_ok 512 16 32 pool tl0 n ta tb Hpool Htl0 Hta Htb)
    as (_ & tenv & Htenv & Htsz).
  destruct (WeightedPooling_forward_ok 512 16 32 pool gl0 n ga gb Hpool Hgl0 Hga Hgb)
    as (_ & genv & Hgenv & Hgsz).
  change (3 * (16 * 32)) with 1536 in Hisz, Htsz, Hgsz.
  destruct (Tiling_forward_ok 16 1536 512 tenv n 1 1 Htsz) as (swapped & Htile & Hsw);
    [lia|lia|].
  change (16 * 1) with 16 in Hsw.
  destruct (Decoder_forward_default_shape last_kernel_size D dec swapped stack n 16 16
              Hk HD Hdec Hsw) as (relit & Hrun & Hrelit); [lia|lia|exact Hstack|].
  destruct (tensor_view_envmap ienv n Hisz) as (ie & Hie & Hiesz & _).
  destruct (tensor_view_envmap tenv n Htsz) as (te & Hte & Htesz & _).
  destruct (tensor_view_envmap genv n Hgsz) as (ge & Hge & Hgesz & _).
  exists relit, ie, te, ge. eexists.
  split; [|split; [exact Hrelit|repeat constructor; done]].
  rewrite !bind_assoc.
  rewrite (bind_ok _ _ _ _ _ E1). cbv beta. rewrite !bind_assoc.
  rewrite (bind_ok _ _ _ _ _ E2). cbv beta. rewrite !bind_assoc.
  rewrite (bind_ok _ _ _ _ _ E3). cbv beta. rewrite !bind_assoc.
  rewrite (bind_ok _ _ _ _ _ E4). cbv beta. rewrite !bind_assoc.
  unfold c. cbn [split assemble].
  unfold IlluminationSwapNetSplitter_forward, IlluminationSwapNetAssembler_forward.
  rewrite Hienv, Htenv, Hgenv. cbn [rbind].
  rewrite bind_lift. cbv beta iota. rewrite !bind_assoc.
  rewrite bind_lift. cbv beta iota. rewrite !bind_assoc.
  rewrite bind_lift. cbv beta iota. rewrite !bind_assoc.
  rewrite bind_lift, Htile. cbv beta iota. rewrite !bind_assoc.
  unfold bind at 1, with_list. rewrite Hkeep, Hrun. cbv beta iota.
  rewrite bind_ret. cbv beta iota.
  rewrite bind_lift, Hie. cbv beta iota.
  rewrite bind_lift, Hte. cbv beta iota.
  rewrite bind_lift, Hge. cbv beta iota.
  reflexivity.
Qed.

(** ** The number of double convolutions is tied to the bottleneck width *)

Lemma apply_block_inv b x y :
  apply_block b x = Ok y ->
  exists n h w h' w',
    size x = [n; in_channels b; h; w] /\ size y = [n; out_channels b; h'; w'].
Proof.
  unfold apply_block.
  destruct (size x) as [|n [|c [|h [|w [|]]]]]; try done.
  destruct (bool_decide (c = in_channels b)) eqn:Hc; [|done].
  apply bool_decide_eq_true in Hc as ->.
  destruct (_ && _); [|done]. intros [= <-]. cbn [size]. by eexists _, _, _, _, _.
Qed.

Lemma ImageEncoding_stage_channels image y pushed :
  ImageEncoding_stage (ImageEncoding_init 3 32 64) image = Ok (y, pushed) ->
  exists n h w, size y = [n; 64; h; w].
Proof.
  unfold ImageEncoding_stage, ImageEncoding_init.
  cbn [ImageEncoding_conv1 ImageEncoding_conv2].
  destruct (apply_block _ image) as [x|]; [|done]. cbn [rbind].
  destruct (torch_cat x image 1) as [e|]; [|done]. cbn [rbind].
  destruct (apply_block _ e) as [y'|] eqn:Hy; [|done]. cbn [rbind].
  intros [= <- _]. apply apply_block_inv in Hy as (n & _ & _ & h & w & _ & Hy).
  by exists n, h, w.
Qed.

Lemma EncDoubleConv_stage_channels i cin cout x y pushed :
  EncDoubleConv_stage (EncDoubleConv_init i cin cout) x = Ok (y, pushed) ->
  exists n h w, size y = [n; cout; h; w].
Proof.
  unfold EncDoubleConv_stage, EncDoubleConv_init.
  cbn [EncDoubleConv_conv1 EncDoubleConv_conv2].
  destruct (apply_block _ x) as [x1|]; [|done]. cbn [rbind].
  destruct (apply_block _ x1) as [y'|] eqn:Hy; [|done]. cbn [rbind].
  intros [= <- _]. apply apply_block_inv in Hy as (n & _ & _ & h & w & _ & Hy).
  by exists n, h, w.
Qed.

Lemma double_convolutions_trace_channels (k : nat) : forall s x stack y stack' n h w,
  double_convolutions_trace
    (map (fun i => EncDoubleConv_init i (64 * 2 ^ i) (64 * 2 ^ (i + 1))) (seq s k))
    x stack = (Ok y, stack') ->
  size x = [n; 64 * 2 ^ s; h; w] ->
  exists n' h' w', size y = [n'; 64 * 2 ^ (s + k); h'; w'].
Proof.
  induction k as [|k IH]; intros s x stack y stack' n h w; cbn [seq map].
  - cbn [double_convolutions_trace]. intros [= <- _] Hx.
    exists n, h, w. by rewrite Nat.add_0_r.
  - cbn [double_convolutions_trace].
    destruct (EncDoubleConv_stage _ x) as [[y1 pushed]|] eqn:E; [|done].
    apply EncDoubleConv_stage_channels in E as (n1 & h1 & w1 & Hy1).
    intros Hrun _.
    replace (s + 1) with (S s) in Hy1 by lia.
    destruct (IH (S s) y1 _ y stack' n1 h1 w1 Hrun Hy1) as (n' & h' & w' & Hy).
    exists n', h', w'. by replace (s + S k) with (S s + k) by lia.
Qed.

Lemma pow2_eq_8 k : 64 * 2 ^ k = 512 -> k = 3.
Proof.
  intros H. destruct (decide (k <= 3)) as [Hle|Hgt].
  - destruct k as [|[|[|[|k]]]]; try done; lia.
  - assert (2 ^ 4 <= 2 ^ k) as Hpow by (apply Nat.pow_le_mono_r; lia).
    change (2 ^ 4) with 16 in Hpow. lia.
Qed.

Lemma Encoder_trace_needs_3 (nd depth : Z) (disabled : option (list Z)) image :
  nd <> 3%Z -> (2 <= depth)%Z ->
  exists e stack, Encoder_trace (Encoder_init nd depth disabled) image = (Raise e, stack).
Proof.
  intros Hnd Hdepth. unfold Encoder_trace, Encoder_init.
  cbn [image_encoder Encoder_double_convolutions Encoder_bottleneck].
  destruct (ImageEncoding_stage _ image) as [[x pushed]|e] eqn:Eimg; [|eauto].
  apply ImageEncoding_stage_channels in Eimg as (n & h & w & Hx).
  unfold build_encoder_convolutions_block, range.
  destruct (double_convolutions_trace _ x pushed) as [[y|e] stack] eqn:Edc; [|eauto].
  apply (double_convolutions_trace_channels _ 0 x pushed y stack n h w) in Edc
    as (n' & h' & w' & Hy); [|exact Hx].
  cbn [Nat.add] in Hy.
  unfold EncBottleneckConv_stage, EncBottleneckConv_init, build_bottleneck_convolutions.
  cbn [convolutions].
  destruct (Z.to_nat (depth - 1)) as [|m] eqn:Hm; [lia|].
  cbn [repeat bottleneck_stage].
  destruct (apply_block _ y) as [z|e] eqn:Ez; [|cbn [rbind]; eauto].
  exfalso. apply apply_block_inv in Ez as (? & ? & ? & ? & ? & Hy' & _).
  rewrite Hy in Hy'. cbn [conv_block in_channels] in Hy'.
  injection Hy' as _ Hc _ _. apply pow2_eq_8 in Hc. lia.
Qed.

(** X21.  [n_double_conv] is not a free parameter: the double convolutions
    produce [64 * 2^n_double_conv] channels while the bottleneck is built
    for 512, so with a bottleneck of at least one convolution
    ([bottleneck_depth >= 2]) and [n_double_conv] other than 3, no input
    gets through [Encoder.forward], and no forward pass of a network
    built on such an encoder returns. *)
Theorem n_double_conv_other_than_3_never_returns (nd depth : Z) :
  nd <> 3%Z -> (2 <= depth)%Z ->
  (forall disabled image st,
     exists e st',
       Encoder_forward (Encoder_init nd depth disabled) image st = (Raise e, st'))
  /\ (forall c last_kernel_size disabled net image target groundtruth st,
        SwapNet_init c nd depth last_kernel_size disabled = Ok net ->
        exists e st',
          SwapNet_forward net image target groundtruth st = (Raise e, st')).
Proof.
  intros Hnd Hdepth.
  assert (forall disabled image st,
            exists e st',
              Encoder_forward (Encoder_init nd depth disabled) image st = (Raise e, st'))
    as Henc.
  { intros disabled image st.
    destruct (Encoder_forward_trace (Encoder_init nd depth disabled) image st)
      as (st' & Hrun & _).
    destruct (Encoder_trace_needs_3 nd depth disabled image Hnd Hdepth)
      as (e & stack & Htr).
    rewrite Htr in Hrun. by exists e, st'. }
  split; [exact Henc|].
  intros c k disabled net image target groundtruth st Hnet.
  apply SwapNet_init_parts in Hnet as (D & dec & Hencode & _).
  destruct (Henc (Some D) image st) as (e & st' & Hrun).
  exists e, st'. unfold SwapNet_forward. rewrite Hencode.
  by apply bind_raise.
Qed.


End Theorems.

(** * Concrete runs *)

Section Runs.
#[local] Existing Instance checksum_numerics.

Definition ramp_tensor (sz : list nat) : Tensor :=
  {| size := sz; data := map Z.of_nat (seq 0 (numel sz)) |}.

Lemma size_splits_checked_run :
  let t := ramp_tensor [2; 5; 1; 2] in
  size_splits t [2; 2]%Z 1 = Raise (KeyError "Sum of split sizes exceeds tensor dim")
  /\ exists chunks,
       size_splits t [2; 3]%Z 1 = Ok chunks
       /\ length chunks = 2
       /\ forall k len, [2; 3]%Z !! k = Some len ->
            exists c, chunks !! k = Some c
                      /\ torch_narrow t 1 (sumZ (take k [2; 3]%Z)) len = Ok c
                      /\ tensor_size c 1 = Ok (Z.to_nat len).
Proof.
  intros t. split.
  - apply (size_splits_checked t [2; 2]%Z 1 5).
    + reflexivity.
    + vm_compute. discriminate.
    + vm_compute. discriminate.
    + vm_compute. discriminate.
  - apply (size_splits_checked t [2; 3]%Z 1 5).
    + reflexivity.
    + vm_compute. discriminate.
    + vm_compute. discriminate.
    + reflexivity.
    + repeat constructor; lia.
Defined.

(** C8, as stated, fails in its second half: the sizes [[7, -2]] sum to the
    extent 5 of the split dimension exactly, the check passes, and no chunks
    are returned: [narrow] raises. *)
Lemma size_splits_exact_sum_no_chunks :
  let t := ramp_tensor [2; 5; 1; 2] in
  tensor_size t 1 = Ok 5
  /\ Z.of_nat 5 = sumZ [7; -2]%Z
  /\ size_splits t [7; -2]%Z 1 = Raise RuntimeError.
Proof. intros t. repeat split; vm_compute; reflexivity. Qed.

Lemma AnOtherSwapNet_assemble_split_run :
  let x := ramp_tensor [1; 512; 1; 2] in
  exists light scene,
    AnOtherSwapNetSplitter_forward x = Ok (Some scene, light)
    /\ torch_narrow x 1 0 3 = Ok light
    /\ torch_narrow x 1 3 509 = Ok scene
    /\ size light = [1; 3; 1; 2]
    /\ size scene = [1; 509; 1; 2]
    /\ AnOtherSwapNetAssembler_forward (Some scene) light = Ok x.
Proof.
  intros x. apply (AnOtherSwapNet_assemble_split x 1 1 2).
  - reflexivity.
  - vm_compute. reflexivity.
Defined.

Lemma Encoder_forward_latent_shape_run :
  exists latent st',
    Encoder_forward (Encoder_init 3 4 None) (const_image 2 32 48 1) empty_world
    = (Ok latent, st')
    /\ size latent = [2; 512; (32 + 15) / 16; (48 + 15) / 16]
    /\ (32 mod 16 = 0 -> 48 mod 16 = 0 -> size latent = [2; 512; 32 / 16; 48 / 16]).
Proof.
  apply (Encoder_forward_latent_shape (const_image 2 32 48 1) empty_world 2 32 48).
  - reflexivity.
  - vm_compute. lia.
Defined.

(** C1, as stated, fails on the batch of two 256x256 images of the
    end-to-end example: the latent is 16x16, not 256/32 = 8 on a side. *)
Lemma Encoder_forward_latent_256_not_8 :
  exists latent st',
    Encoder_forward (Encoder_init 3 4 None) (const_image 2 256 256 1) empty_world
    = (Ok latent, st')
    /\ size latent = [2; 512; 16; 16]
    /\ size latent <> [2; 512; 256 / 32; 256 / 32].
Proof.
  destruct (Encoder_forward_default_shape (const_image 2 256 256 1) empty_world
              2 256 256) as (latent & st' & Hrun & Hsz); [reflexivity|lia|lia|].
  exists latent, st'. split; [exact Hrun|].
  change ((256 + 15) / 16) with 16 in Hsz.
  split; [exact Hsz|]. rewrite Hsz. discriminate.
Qed.

(** C2 at the failing input [bottleneck_depth = 2].  The configuration is
    accepted at construction, the encoder pushes
    [1 + 2*3 + (2-1) = 8] tensors, and the decoder has 9 layers that pop,
    its bottleneck popping twice instead of [depth - 1 = 1] time.  With
    every skip connection disabled (so that no shape is compared) the
    ninth pop finds the stack empty; with none disabled the pass dies at
    the bottleneck's second pop, on a tensor pushed by a double-conv
    stage, and six tensors are never popped. *)
Theorem depth2_decoder_pops_more_than_pushed :
  (exists net latent stack rest,
     SwapNet_init AnOtherSwapNet_codec 3 2 3 (Some (all_indices 8)) = Ok net
     /\ encode_image (encode net) (const_image 1 1 1 1) = Ok (latent, stack)
     /\ Encoder_get_number_of_possible_skip_connections (encode net) = 8%Z
     /\ length stack = 8
     /\ length (Decoder_layers (decode net)) = 9
     /\ Decoder_forward (decode net) latent stack = (Raise IndexError, rest)
     /\ rest = [])
  /\ (exists net latent stack rest,
        SwapNet_init AnOtherSwapNet_codec 3 2 3 None = Ok net
        /\ encode_image (encode net) (const_image 1 16 16 1) = Ok (latent, stack)
        /\ length stack = 8
        /\ length (Decoder_layers (decode net)) = 9
        /\ Decoder_forward (decode net) latent stack = (Raise RuntimeError, rest)
        /\ length rest = 6).
Proof.
  split.
  - assert (depth2_run (Some (all_indices 8)) 1
            = Some (8%Z, 8, 9, Some IndexError, 0)) as H by (vm_compute; reflexivity).
    unfold depth2_run in H.
    destruct (SwapNet_init _ 3 2 3 _) as [net|] eqn:Hnet; [|discriminate].
    destruct (encode_image _ _) as [[latent stack]|] eqn:He; [|discriminate].
    destruct (Decoder_forward _ latent stack) as [res rest] eqn:Hf.
    injection H; intros H5 H4 H3 H2 H1.
    destruct res as [|e]; [discriminate|]. simpl in H4. injection H4; intros ->.
    exists net, latent, stack, rest.
    split; [reflexivity|]. split; [exact He|]. split; [exact H1|].
    split; [exact H2|].
    split; [unfold Decoder_layers; cbn [app length]; f_equal; exact H3|].
    split; [exact Hf|]. destruct rest; [reflexivity|discriminate].
  - assert (depth2_run None 16
            = Some (8%Z, 8, 9, Some RuntimeError, 6)) as H by (vm_compute; reflexivity).
    unfold depth2_run in H.
    destruct (SwapNet_init _ 3 2 3 _) as [net|] eqn:Hnet; [|discriminate].
    destruct (encode_image _ _) as [[latent stack]|] eqn:He; [|discriminate].
    destruct (Decoder_forward _ latent stack) as [res rest] eqn:Hf.
    injection H; intros H5 H4 H3 H2 H1.
    destruct res as [|e]; [discriminate|]. simpl in H4. injection H4; intros ->.
    exists net, latent, stack, rest.
    split; [reflexivity|]. split; [exact He|]. split; [exact H2|].
    split; [unfold Decoder_layers; cbn [app length]; f_equal; exact H3|].
    split; [exact Hf|exact H5].
Qed.

Lemma depth_mismatch_decode :
  exists dec latent stack relit rest,
    Decoder_init 3 4 3 (Some (all_indices 10)) = Ok dec
    /\ encode_image (Encoder_init 3 5 (Some (all_indices 11))) (const_image 1 1 1 1)
       = Ok (latent, stack)
    /\ length stack = 11
    /\ length (Decoder_layers dec) = 10
    /\ Decoder_forward dec latent stack = (Ok relit, rest)
    /\ length rest = 1.
Proof.
  assert (depth_mismatch_run = Some (11, 10, None, 1)) as H by (vm_compute; reflexivity).
  unfold depth_mismatch_run in H.
  destruct (Decoder_init 3 4 3 _) as [dec|] eqn:Hdec; [|discriminate].
  destruct (encode_image _ _) as [[latent stack]|] eqn:He; [|discriminate].
  destruct (Decoder_forward dec latent stack) as [res rest] eqn:Hf.
  injection H; intros H4 H3 H2 H1.
  destruct res as [relit|e]; [|discriminate].
  exists dec, latent, stack, relit, rest.
  split; [reflexivity|]. split; [reflexivity|]. split; [exact H1|].
  split; [unfold Decoder_layers; cbn [app length]; f_equal; exact H2|].
  split; [exact Hf|exact H4].
Qed.

(** C5, as stated, fails: a decoder of bottleneck depth 4 run on the stack
    of an encoder of depth 5 (all skip connections disabled on both sides)
    finishes normally, having popped 10 of the 11 tensors pushed, and
    nothing is raised or reported. *)
Lemma depth_mismatch_not_surfaced :
  exists dec latent stack relit rest,
    Decoder_init 3 4 3 (Some (all_indices 10)) = Ok dec
    /\ encode_image (Encoder_init 3 5 (Some (all_indices 11))) (const_image 1 1 1 1)
       = Ok (latent, stack)
    /\ length stack = 11
    /\ length (Decoder_layers dec) = 10
    /\ Decoder_forward dec latent stack = (Ok relit, rest)
    /\ length rest = 1.
Proof. exact depth_mismatch_decode. Qed.

Lemma Decoder_forward_leaves_surplus_run :
  exists dec latent stack relit rest,
    Decoder_forward dec latent stack = (Ok relit, rest)
    /\ Decoder_forward dec latent ([EMPTY_TENSOR] ++ stack)
       = (Ok relit, [EMPTY_TENSOR] ++ rest).
Proof.
  destruct depth_mismatch_decode
    as (dec & latent & stack & relit & rest & _ & _ & _ & _ & Hrun & _).
  exists dec, latent, stack, relit, rest. split; [exact Hrun|].
  apply (Decoder_forward_leaves_surplus dec latent stack [EMPTY_TENSOR] relit rest Hrun).
Defined.

Lemma SwapNet_forward_decodes_image_stack_run :
  exists net il st1 r st2 rt st3 rg st4,
    Encoder_forward (encode net) (const_image 1 1 1 1) empty_world = (Ok il, st1)
    /\ Encoder_get_skip_connections (encode net) st1 = (Ok r, st2)
    /\ Encoder_forward (encode net) (const_image 1 1 1 2) st2 = (rt, st3)
    /\ Encoder_forward (encode net) (const_image 1 1 1 3) st3 = (rg, st4)
    /\ is_Some (heap st2 !! r)
    /\ heap st3 !! r = heap st2 !! r
    /\ heap st4 !! r = heap st2 !! r.
Proof.
  assert (image_pass_ok = true) as H by (vm_compute; reflexivity).
  unfold image_pass_ok in H.
  destruct (AnOtherSwapNet_init 3 None) as [net|]; [|discriminate].
  destruct (Encoder_forward (encode net) (const_image 1 1 1 1) empty_world)
    as [[il|] st1] eqn:E1; [|discriminate].
  destruct (Encoder_get_skip_connections (encode net) st1)
    as [[r|] st2] eqn:E2; [|discriminate].
  destruct (Encoder_forward (encode net) (const_image 1 1 1 2) st2) as [rt st3] eqn:E3.
  destruct (Encoder_forward (encode net) (const_image 1 1 1 3) st3) as [rg st4] eqn:E4.
  exists net, il, st1, r, st2, rt, st3, rg, st4.
  split; [exact E1|]. split; [exact E2|]. split; [exact E3|]. split; [exact E4|].
  exact (proj2 (SwapNet_forward_decodes_image_stack net (const_image 1 1 1 1)
                  (const_image 1 1 1 2) (const_image 1 1 1 3) empty_world)
               il st1 r st2 rt st3 rg st4 E1 E2 E3 E4).
Defined.

(** C3, as stated, fails in its last part: with the last bottleneck skip
    connection (index 9) disabled, the relit image, computed by the output
    layer (the same block in both networks, and the consumer of position 0,
    not 9), differs from the one of the run with index 9 enabled. *)
Lemma disabling_skip_changes_downstream_values :
  exists net net' out out' st st',
    AnOtherSwapNet_init 3 (Some [9%Z]) = Ok net
    /\ AnOtherSwapNet_init 3 None = Ok net'
    /\ SwapNet_forward net (const_image 1 16 16 1) (const_image 1 16 16 2)
                       (const_image 1 16 16 3) empty_world = (Ok out, st)
    /\ SwapNet_forward net' (const_image 1 16 16 1) (const_image 1 16 16 2)
                       (const_image 1 16 16 3) empty_world = (Ok out', st')
    /\ Output_block (Decoder_output (decode net))
       = Output_block (Decoder_output (decode net'))
    /\ data (relit_of out) !! 0 = Some 920%Z
    /\ data (relit_of out') !! 0 = Some 684%Z.
Proof.
  assert (disabled9_vs_enabled = Some (true, Some 920%Z, Some 684%Z)) as H
    by (vm_compute; reflexivity).
  unfold disabled9_vs_enabled in H.
  destruct (AnOtherSwapNet_init 3 (Some [9%Z])) as [net|]; [|discriminate].
  destruct (AnOtherSwapNet_init 3 None) as [net'|]; [|discriminate].
  destruct (SwapNet_forward net _ _ _ _) as [[out|] st] eqn:Hrun; [|discriminate].
  destruct (SwapNet_forward net' _ _ _ _) as [[out'|] st'] eqn:Hrun'; [|discriminate].
  exists net, net', out, out', st, st'.
  assert (bool_decide (Output_block (Decoder_output (decode net))
                       = Output_block (Decoder_output (decode net'))) = true
          /\ data (relit_of out) !! 0 = Some 920%Z
          /\ data (relit_of out') !! 0 = Some 684%Z) as (Hb & H1 & H2).
  { by repeat split; congruence. }
  apply bool_decide_eq_true in Hb.
  split; [reflexivity|]. split; [reflexivity|]. split; [exact Hrun|].
  split; [exact Hrun'|]. split; [exact Hb|]. split; [exact H1|exact H2].
Qed.

Lemma disabled_skip_connection_effect_run :
  ((0 <= 3)%Z /\ (3 <= 4)%Z
   /\ Forall (fun i => 0 <= i < 1 + 3 * 2 + (4 - 1))%Z [4%Z])
  /\ exists net net',
       SwapNet_init AnOtherSwapNet_codec 3 4 3 (Some [4%Z]) = Ok net
       /\ SwapNet_init AnOtherSwapNet_codec 3 4 3
            (Some (filter (fun j => j <> 4%Z) [4%Z])) = Ok net'
       /\ Z.of_nat (length (Decoder_layers (decode net))) = (1 + 3 * 2 + (4 - 1))%Z
       /\ in_channels <$> (Decoder_layers (decode net) !! 5) = Some 128
       /\ in_channels <$> (Decoder_layers (decode net') !! 5) = Some (128 + 128)
       /\ (forall image st,
             Encoder_forward (encode net') image st
             = Encoder_forward (encode net) image st)
       /\ (forall k, Z.of_nat k <> (1 + 3 * 2 + (4 - 1) - 1 - 4)%Z ->
             Decoder_layers (decode net') !! k = Decoder_layers (decode net) !! k)
       /\ (forall latent stack stack' k,
             Z.of_nat (length stack) = (1 + 3 * 2 + (4 - 1))%Z ->
             length stack' = length stack ->
             (forall j, (4 < Z.of_nat j)%Z -> stack' !! j = stack !! j) ->
             (Z.of_nat k <= 1 + 3 * 2 + (4 - 1) - 1 - 4)%Z ->
             (Decoder_prefix (decode net') k latent stack').1
             = (Decoder_prefix (decode net) k latent stack).1).
Proof.
  assert ((0 <= 3)%Z /\ (3 <= 4)%Z
          /\ Forall (fun i => 0 <= i < 1 + 3 * 2 + (4 - 1))%Z [4%Z])
    as (H1 & H2 & H3) by (repeat split; [lia|lia|repeat constructor; lia]).
  split; [done|].
  assert (Forall (fun i => 0 <= i < 1 + 3 * 2 + (4 - 1))%Z
                 (filter (fun j => j <> 4%Z) [4%Z])) as H3'
    by (vm_compute; constructor).
  destruct (disabled_skip_connection_effect AnOtherSwapNet_codec 3 4 3 [4%Z] H1 H2 H3)
    as (net & Hnet & _ & Hlen & _ & _ & Hre & Hval & _).
  destruct (disabled_skip_connection_effect AnOtherSwapNet_codec 3 4 3
              (filter (fun j => j <> 4%Z) [4%Z]) H1 H2 H3') as (net' & Hnet' & _).
  assert (4%Z ∈ [4%Z]) as Hin by apply list_elem_of_here.
  destruct (Hre 4%Z net' 5 128 128 Hin Hnet' eq_refl) as [Hconsumer _].
  destruct (Hconsumer eq_refl) as [Hoff Hon].
  destruct (Hval 4%Z net' Hin Hnet') as (Henc & _ & Hsame & _ & Hprefix).
  exists net, net'. split; [exact Hnet|]. split; [exact Hnet'|]. split; [exact Hlen|].
  split; [exact Hoff|]. split; [exact Hon|]. split; [exact Henc|].
  split; [exact Hsame|exact Hprefix].
Defined.

Lemma Encoder_forward_pushes_run :
  exists latent st' stack,
    Encoder_forward (Encoder_init 3 4 None) (const_image 1 16 16 1) empty_world
    = (Ok latent, st')
    /\ skip_connections st' !! the_encoder = Some 0
    /\ heap st' !! 0 = Some stack
    /\ Z.of_nat (length stack) = 10%Z.
Proof.
  destruct (Encoder_forward_default_shape (const_image 1 16 16 1) empty_world 1 16 16)
    as (latent & st' & Hrun & _); [reflexivity|lia|lia|].
  destruct (Encoder_forward_pushes 3 4 None (const_image 1 16 16 1) empty_world
              latent st' Hrun) as (stack & Hr & Hs & Hlen & _).
  exists latent, st', stack.
  split; [exact Hrun|]. split; [exact Hr|]. split; [exact Hs|exact Hlen].
Defined.

Lemma Decoder_forward_pops_run :
  exists dec latent stack relit rest popped,
    Decoder_init 3 4 3 (Some (all_indices 10)) = Ok dec
    /\ Decoder_forward dec latent stack = (Ok relit, rest)
    /\ stack = rest ++ popped
    /\ Z.of_nat (length popped) = 10%Z.
Proof.
  destruct depth_mismatch_decode
    as (dec & latent & stack & relit & rest & Hdec & _ & _ & _ & Hrun & _).
  destruct (Decoder_forward_pops 3 4 3 (Some (all_indices 10)) dec latent stack
              relit rest Hdec Hrun) as (popped & Hst & Hlen & _).
  exists dec, latent, stack, relit, rest, popped.
  split; [exact Hdec|]. split; [exact Hrun|]. split; [exact Hst|exact Hlen].
Defined.

Lemma Decoder_forward_underflow_run :
  exists dec rest,
    Decoder_init 3 4 3 (Some (all_indices 10)) = Ok dec
    /\ length (repeat EMPTY_TENSOR 9) < length (Decoder_layers dec)
    /\ Decoder_forward dec underflow_latent (repeat EMPTY_TENSOR 9)
       = (Raise IndexError, rest)
    /\ rest = [].
Proof.
  destruct depth_mismatch_decode
    as (dec & _ & _ & _ & _ & Hdec & _ & _ & Hlayers & _).
  assert (length (repeat (@EMPTY_TENSOR checksum_numerics) 9)
          < length (Decoder_layers dec)) as Hlt
    by (rewrite Hlayers; cbn [repeat length]; lia).
  destruct (Decoder_forward_underflow dec underflow_latent
              (repeat EMPTY_TENSOR 9) Hlt) as (e & rest & Hrun).
  assert (underflow_run = Some (Some IndexError, 0)) as H by (vm_compute; reflexivity).
  unfold underflow_run in H. rewrite Hdec, Hrun in H. cbn [error_of] in H.
  injection H as He Hrest.
  exists dec, rest. split; [exact Hdec|]. split; [exact Hlt|].
  split; [rewrite Hrun, He; reflexivity|].
  destruct rest; [reflexivity|discriminate Hrest].
Defined.

Lemma SwapNet_forward_drains_stack_run :
  exists net out st',
    SwapNet_init AnOtherSwapNet_codec 3 4 3 None = Ok net
    /\ SwapNet_forward net (const_image 1 16 16 1) (const_image 1 16 16 2)
                       (const_image 1 16 16 3) empty_world = (Ok out, st')
    /\ heap st' !! 0 = Some [].
Proof.
  assert (swap_pass_ok = true) as H by (vm_compute; reflexivity).
  unfold swap_pass_ok, AnOtherSwapNet_init in H.
  destruct (SwapNet_init AnOtherSwapNet_codec 3 4 3 None) as [net|] eqn:Hnet;
    [|discriminate].
  destruct (SwapNet_forward net _ _ _ _) as [[out|] st'] eqn:Hrun; [|discriminate].
  exists net, out, st'. split; [reflexivity|]. split; [exact Hrun|].
  apply (SwapNet_forward_drains_stack AnOtherSwapNet_codec 3 4 3 None net
           (const_image 1 16 16 1) (const_image 1 16 16 2) (const_image 1 16 16 3)
           empty_world out st'); [lia|lia|exact Hnet|exact Hrun].
Defined.

Lemma size_splits_negative_size_run :
  exists e, size_splits (ramp_tensor [2; 5; 1; 2]) [6; -1]%Z 1 = Raise e.
Proof.
  apply (size_splits_negative_size (ramp_tensor [2; 5; 1; 2]) [6; -1]%Z 1 (-1)%Z).
  - apply list_elem_of_further, list_elem_of_here.
  - lia.
Defined.

Lemma size_splits_cat_round_trip_run :
  let x := ramp_tensor [2; 2 + 3; 1; 2] in
  exists first second,
    size_splits x [Z.of_nat 2; Z.of_nat 3] 1 = Ok [first; second]
    /\ size first = [2; 2; 1; 2]
    /\ size second = [2; 3; 1; 2]
    /\ torch_cat first second 1 = Ok x.
Proof.
  intros x. apply (size_splits_cat_round_trip x 2 1 2 2 3).
  - reflexivity.
  - vm_compute. reflexivity.
  - vm_compute. discriminate.
Defined.

Lemma AnOtherSwapNetSplitter_rejects_other_channels_run :
  AnOtherSwapNetSplitter_forward (ramp_tensor [1; 5; 1; 2])
  = Raise (KeyError "Sum of split sizes exceeds tensor dim")
  /\ AnOtherSwapNetSplitter_forward (ramp_tensor [7]) = Raise IndexError.
Proof.
  split.
  - apply (AnOtherSwapNetSplitter_rejects_other_channels (ramp_tensor [1; 5; 1; 2])).
    vm_compute. discriminate.
  - apply (AnOtherSwapNetSplitter_rejects_other_channels (ramp_tensor [7])).
    vm_compute. discriminate.
Defined.

Lemma Encoder_get_skip_connections_again_run :
  exists st1,
    Encoder_get_skip_connections (Encoder_init 3 4 (Some [1%Z])) two_tensor_world
    = (Ok 0, st1)
    /\ heap st1 !! 0 = Some [const_image 1 1 1 1; EMPTY_TENSOR]
    /\ Encoder_get_skip_connections (Encoder_init 3 4 (Some [1%Z])) st1 = (Ok 0, st1).
Proof.
  apply (Encoder_get_skip_connections_again (Encoder_init 3 4 (Some [1%Z]))
           two_tensor_world 0 [const_image 1 1 1 1; const_image 1 1 1 2]).
  - reflexivity.
  - reflexivity.
  - repeat constructor; cbn; lia.
Defined.

Lemma Encoder_get_skip_connections_out_of_range_run :
  exists latent st1 st2,
    Encoder_forward (Encoder_init 3 4 (Some [10%Z])) (const_image 1 16 16 1) empty_world
    = (Ok latent, st1)
    /\ Encoder_get_skip_connections (Encoder_init 3 4 (Some [10%Z])) st1
       = (Raise IndexError, st2).
Proof.
  destruct (Encoder_forward_default_shape (const_image 1 16 16 1) empty_world 1 16 16)
    as (latent & st1 & Hrun & _); [reflexivity|lia|lia|].
  assert (Encoder_forward (Encoder_init 3 4 (Some [10%Z])) (const_image 1 16 16 1)
                          empty_world = (Ok latent, st1)) as Hrun' by exact Hrun.
  destruct (Encoder_get_skip_connections_out_of_range 3 4 [10%Z]
              (const_image 1 16 16 1) empty_world latent st1 10%Z Hrun')
    as (st2 & Hget); [apply list_elem_of_here|lia|].
  exists latent, st1, st2. split; [exact Hrun'|exact Hget].
Defined.

Lemma AnOtherSwapNet_forward_shapes_run :
  exists net,
    AnOtherSwapNet_init 3 (Some [9; 0]%Z) = Ok net
    /\ forall st, exists relit il tl gl isc tsc gsc st',
         SwapNet_forward net (const_image 1 16 32 1) (const_image 1 16 32 2)
                         (const_image 1 16 32 3) st
         = (Ok (relit, il, tl, gl, Some isc, Some tsc, Some gsc), st')
         /\ size relit = [1; 3; 16 * 1; 16 * 2]
         /\ Forall (fun t => size t = [1; 3; 1; 2]) [il; tl; gl]
         /\ Forall (fun t => size t = [1; 509; 1; 2]) [isc; tsc; gsc].
Proof.
  apply (AnOtherSwapNet_forward_shapes 3 (Some [9; 0]%Z) (const_image 1 16 32 1)
           (const_image 1 16 32 2) (const_image 1 16 32 3) 1 1 2).
  - reflexivity.
  - repeat constructor; lia.
  - reflexivity.
  - reflexivity.
  - reflexivity.
  - lia.
Defined.

Lemma WeightedPooling_forward_shape_run :
  exists pool,
    WeightedPooling_init 2 1 2 = Ok pool
    /\ 2 = 1 * 2
    /\ exists envmap,
         WeightedPooling_forward pool (ramp_tensor [1; 2; 1; 2]) = Ok envmap
         /\ size envmap = [1; 3 * (1 * 2); 1; 1].
Proof.
  eexists. split; [reflexivity|].
  apply (WeightedPooling_forward_shape 2 1 2 _ (ramp_tensor [1; 2; 1; 2]) 1 1 2).
  - reflexivity.
  - reflexivity.
  - lia.
Defined.

Lemma Tiling_forward_shape_run :
  exists y,
    Tiling_forward (Tiling_init 2 3 5) (ramp_tensor [1; 3; 1; 1]) = Ok y
    /\ size y = [1; 5; 2 * 1; 2 * 1].
Proof.
  apply (Tiling_forward_shape 2 3 5 (ramp_tensor [1; 3; 1; 1]) 1 1 1).
  - reflexivity.
  - lia.
Defined.

Lemma GroundtruthEnvmapSwapNet_forward_shapes_run :
  exists net,
    GroundtruthEnvmapSwapNet_init None = Ok net
    /\ forall st, exists relit image_envmap target_envmap st',
         GroundtruthEnvmapSwapNet_forward net (const_image 1 256 256 1)
           (const_image 1 16 32 2) (const_image 1 16 32 3) st
         = (Ok (relit, image_envmap, target_envmap), st')
         /\ size relit = [1; 3; 256; 256]
         /\ size image_envmap = [1; 3 * 16 * 32; 1; 1]
         /\ size target_envmap = [1; 3 * 16 * 32; 1; 1].
Proof.
  apply (GroundtruthEnvmapSwapNet_forward_shapes None (const_image 1 256 256 1)
           (const_image 1 16 32 2) (const_image 1 16 32 3) 1 1 2).
  - constructor.
  - reflexivity.
  - reflexivity.
  - lia.
Defined.

Lemma GroundtruthEnvmapSwapNet_rejects_other_sizes_run :
  exists net,
    GroundtruthEnvmapSwapNet_init None = Ok net
    /\ forall st, exists st',
         GroundtruthEnvmapSwapNet_forward net (const_image 1 16 32 1)
           (const_image 1 16 32 2) (const_image 1 16 32 3) st
         = (Raise RuntimeError, st').
Proof.
  apply (GroundtruthEnvmapSwapNet_rejects_other_sizes None (const_image 1 16 32 1)
           (const_image 1 16 32 2) (const_image 1 16 32 3) 1 1 2 1 2).
  - constructor.
  - apply not_elem_of_nil.
  - reflexivity.
  - reflexivity.
  - lia.
  - lia.
  - discriminate.
Defined.

Lemma Decoder_forward_only_pops_run :
  exists dec latent stack res rest popped,
    Decoder_forward dec latent stack = (res, rest)
    /\ stack = rest ++ popped
    /\ length popped <= length (Decoder_layers dec).
Proof.
  destruct depth_mismatch_decode
    as (dec & latent & stack & relit & rest & _ & _ & _ & _ & Hrun & _).
  destruct (Decoder_forward_only_pops dec latent stack (Ok relit) rest Hrun)
    as (popped & Hst & Hlen).
  exists dec, latent, stack, (Ok relit), rest, popped.
  split; [exact Hrun|]. split; [exact Hst|exact Hlen].
Defined.

Lemma Encoder_forward_rejects_channels_run :
  exists st',
    Encoder_forward (Encoder_init 3 4 None) (ramp_tensor [1; 1; 4; 4]) empty_world
    = (Raise RuntimeError, st')
    /\ skip_connections st' !! the_encoder = Some 0
    /\ heap st' !! 0 = Some [].
Proof.
  apply (Encoder_forward_rejects_channels 3 4 None (ramp_tensor [1; 1; 4; 4])
           empty_world 1 1 4 4).
  - reflexivity.
  - discriminate.
Defined.

Lemma AnOtherSwapNet_negative_disabled_index_run :
  exists net,
    AnOtherSwapNet_init 3 (Some [-1]%Z) = Ok net
    /\ forall st, exists st',
         SwapNet_forward net (const_image 1 16 32 1) (const_image 1 16 32 2)
                         (const_image 1 16 32 3) st
         = (Raise RuntimeError, st').
Proof.
  apply (AnOtherSwapNet_negative_disabled_index 3 [-1]%Z (const_image 1 16 32 1)
           (const_image 1 16 32 2) (const_image 1 16 32 3) 1 1 2).
  - repeat constructor; lia.
  - apply list_elem_of_here.
  - intros H. apply list_elem_of_singleton in H. discriminate H.
  - reflexivity.
  - reflexivity.
  - reflexivity.
  - lia.
Defined.

Lemma IlluminationSwapNet_forward_shapes_run :
  exists net,
    IlluminationSwapNet_init 3 None = Ok net
    /\ forall st, exists relit image_envmap target_envmap groundtruth_envmap st',
         IlluminationSwapNet_forward net (const_image 1 256 256 1)
           (const_image 1 16 32 2) (const_image 1 32 16 3) st
         = (Ok (relit, image_envmap, target_envmap, groundtruth_envmap,
                None, None, None), st')
         /\ size relit = [1; 3; 256; 256]
         /\ Forall (fun t => size t = [1; 3; 16; 32])
                   [image_envmap; target_envmap; groundtruth_envmap].
Proof.
  apply (IlluminationSwapNet_forward_shapes 3 None (const_image 1 256 256 1)
           (const_image 1 16 32 2) (const_image 1 32 16 3) 1 1 2 2 1).
  - reflexivity.
  - constructor.
  - reflexivity.
  - reflexivity.
  - reflexivity.
  - lia.
  - lia.
Defined.

Lemma n_double_conv_other_than_3_never_returns_run :
  (forall disabled image st,
     exists e st',
       Encoder_forward (Encoder_init 2 4 disabled) image st = (Raise e, st'))
  /\ (forall c last_kernel_size disabled net image target groundtruth st,
        SwapNet_init c 2 4 last_kernel_size disabled = Ok net ->
        exists e st',
          SwapNet_forward net image target groundtruth st = (Raise e, st')).
Proof.
  apply (n_double_conv_other_than_3_never_returns 2 4).
  - lia.
  - lia.
Defined.


End Runs.
